(** * AI Message Composer: the browser extension's memory and compose flow

    A shallow embedding of the extension's content script
    ([MessageComposer]) and of its background service worker, with the
    properties the specification states about them.

    Conventions of the embedding:
    - a JavaScript string is a [string] of Latin-1 code units;
    - a call that may raise has a [completion]: [Normal v] or [Throw e];
    - [undefined] and [null] are [None];
    - informational console lines and the cosmetic state of the rewrite
      button are left out; [alert] and what a [catch] block writes to
      the console are kept. *)

From stdpp Require Import gmap strings list.
From Stdlib Require Import Ascii ZArith Lia.

Local Open Scope string_scope.
Local Open Scope list_scope.
Local Open Scope nat_scope.

(* ===================================================================== *)
(** ** JavaScript values *)
(* ===================================================================== *)

(** [String.prototype.trim] strips WhiteSpace and LineTerminator code
    units: TAB, LF, VT, FF, CR, SPACE and NBSP in the Latin-1 range. *)
Definition isWhiteSpace (c : ascii) : bool :=
  let n := Ascii.nat_of_ascii c in
  (n =? 9) || (n =? 10) || (n =? 11) || (n =? 12) || (n =? 13)
  || (n =? 32) || (n =? 160).

Fixpoint trimStart (s : string) : string :=
  match s with
  | EmptyString => EmptyString
  | String c rest => if isWhiteSpace c then trimStart rest else s
  end.

Fixpoint trimEnd (s : string) : string :=
  match s with
  | EmptyString => EmptyString
  | String c rest =>
      match trimEnd rest with
      | EmptyString => if isWhiteSpace c then EmptyString else String c EmptyString
      | kept => String c kept
      end
  end.

Definition trim (s : string) : string := trimEnd (trimStart s).

(** Every code unit of the string is white space (the empty string too). *)
Fixpoint allWhiteSpace (s : string) : bool :=
  match s with
  | EmptyString => true
  | String c rest => isWhiteSpace c && allWhiteSpace rest
  end.

(** [s.includes(needle)] *)
Definition includes (needle s : string) : bool :=
  match String.index 0 needle s with
  | Some _ => true
  | None => false
  end.

(** Truthiness of a value that is a string, [undefined] or [null]. *)
Definition truthy (v : option string) : bool :=
  match v with
  | Some (String _ _) => true
  | _ => false
  end.

(** [a || b] on such values, [b] already evaluated. *)
Definition orElse (a : option string) (b : string) : string :=
  match a with
  | Some (String c rest) => String c rest
  | _ => b
  end.

(** [Array.prototype.slice(start)], negative [start] counting from the end. *)
Definition slice {A : Type} (start : Z) (l : list A) : list A :=
  let len := Z.of_nat (length l) in
  let from := if (start <? 0)%Z then Z.max (len + start) 0 else Z.min start len in
  drop (Z.to_nat from) l.

(** An [Error] object: its [name] and [message]. *)
Record jsError := JsError { errName : string; errMessage : string }.

(** The outcome of evaluating a call: a value or a raised exception. *)
Inductive completion (A : Type) : Type :=
| Normal (a : A)
| Throw (e : jsError).
Arguments Normal {A} a.
Arguments Throw {A} e.

#[global] Instance completion_ret : MRet completion := @Normal.
#[global] Instance completion_bind : MBind completion :=
  fun A B f c => match c with Normal a => f a | Throw e => Throw e end.

Definition isThrow {A : Type} (c : completion A) : bool :=
  match c with Throw _ => true | Normal _ => false end.

(** Reading a property of [null]. *)
Definition nullTypeError (prop : string) : jsError :=
  JsError "TypeError" ("Cannot read properties of null (reading '" +:+ prop +:+ "')").

Definition undefinedTypeError (prop : string) : jsError :=
  JsError "TypeError" ("Cannot read properties of undefined (reading '" +:+ prop +:+ "')").

(** What the console receives from a [catch] block. *)
Inductive logEntry :=
| ConsoleWarn (label : string) (e : jsError)
| ConsoleError (label : string) (e : jsError).

(* ===================================================================== *)
(** ** The host document, as the scrapers see it *)
(* ===================================================================== *)

(** A DOM element read for its text.  A property read or a selector
    query is a host call and has a completion. *)
Record element := Element {
  innerText : completion (option string);
  textContent : completion (option string)
}.

(** [prop?.trim()] *)
Definition optTrim (prop : completion (option string)) : completion (option string) :=
  v ← prop; mret (option_map trim v).

(** [el.innerText?.trim() || el.textContent?.trim()]: the right operand
    is only read when the left one is falsy. *)
Definition elementText (el : element) : completion (option string) :=
  a ← optTrim (innerText el);
  if truthy a then mret a else optTrim (textContent el).

(** [el.textContent.trim()] *)
Definition textContentTrim (el : element) : completion string :=
  v ← textContent el;
  match v with
  | Some s => mret (trim s)
  | None => Throw (nullTypeError "trim")
  end.

(** [el ? el.textContent.trim() : ''] *)
Definition trimOrEmpty (el : option element) : completion string :=
  match el with
  | Some e => textContentTrim e
  | None => mret ""
  end.

(** One entry of the conversation context sent with a rewrite request. *)
Record contextMessage := ContextMessage {
  text : string;
  is_outgoing : bool;
  timestamp : string
}.

(** A [.msg-s-message-group] / [.msg-s-event-listitem] node. *)
Record messageGroup := MessageGroup {
  mg_body : completion (option element);   (* msgEl.querySelector(body selectors) *)
  mg_outgoing : completion bool            (* msgEl.classList.contains('...--outgoing') *)
}.

(** A [.h7] / [[data-message-id]] node of a Gmail thread. *)
Record emailElement := EmailElement {
  em_body : completion (option element);   (* emailEl.querySelector('[data-message-text], .a3s') *)
  em_from : completion (option element)    (* emailEl.querySelector('[email], .gD') *)
}.

Inductive platform := linkedin | gmail | web.

Definition platformName (p : platform) : string :=
  match p with linkedin => "linkedin" | gmail => "gmail" | web => "web" end.

(** The part of the page the context scrapers query.  A thread lists its
    nodes in document order, which the host pages render oldest first. *)
Record document := Document {
  messageList : completion (option (completion (list messageGroup)));
  emailThread : completion (list emailElement)
}.

(** A loop whose body may push one value onto an array that outlives an
    exception: [visit index item pushedSoFar] is one iteration.  The pair
    is the array when the loop stops and how the loop completed. *)
Fixpoint pushLoop {E A : Type} (visit : nat -> E -> list A -> completion (option A))
    (index : nat) (items : list E) (pushed : list A) : list A * completion unit :=
  match items with
  | [] => (pushed, Normal tt)
  | item :: rest =>
      match visit index item pushed with
      | Throw e => (pushed, Throw e)
      | Normal None => pushLoop visit (S index) rest pushed
      | Normal (Some a) => pushLoop visit (S index) rest (pushed ++ [a])
      end
  end.

(* ===================================================================== *)
(** ** Context scraping (scrapeLinkedInContext, scrapeGmailContext) *)
(* ===================================================================== *)

(** The body of the [for (const msgEl of messageElements)] loop. *)
Definition linkedInMessage (clock : string) (msgEl : messageGroup)
    : completion (option contextMessage) :=
  textEl ← mg_body msgEl;
  match textEl with
  | None => mret None
  | Some textEl =>
      t ← elementText textEl;
      match t with
      | Some (String c rest) =>
          out ← mg_outgoing msgEl;
          mret (Some (ContextMessage (String c rest) out clock))
      | _ => mret None
      end
  end.

(** [fromEl?.innerText?.includes('me') || false] *)
Definition fromMe (fromEl : option element) : completion bool :=
  match fromEl with
  | None => mret false
  | Some f =>
      v ← innerText f;
      mret (match v with Some s => includes "me" s | None => false end)
  end.

(** The body of the [for (const emailEl of emailThread)] loop. *)
Definition gmailMessage (clock : string) (emailEl : emailElement)
    : completion (option contextMessage) :=
  bodyEl ← em_body emailEl;
  match bodyEl with
  | None => mret None
  | Some bodyEl =>
      t ← elementText bodyEl;
      match t with
      | Some (String c rest) =>
          fromEl ← em_from emailEl;
          out ← fromMe fromEl;
          mret (Some (ContextMessage (String c rest) out clock))
      | _ => mret None
      end
  end.

(** The [try] block of [scrapeLinkedInContext] with the cap of
    [slice(-5)] as [maxMessages]: the [messages] array when the block is
    left, and how it was left. *)
Definition linkedInTry (maxMessages : nat) (clock : string) (doc : document)
    : list contextMessage * completion unit :=
  match messageList doc with
  | Throw e => ([], Throw e)
  | Normal None => ([], Normal tt)                     (* if (!messageList) return messages *)
  | Normal (Some groups) =>
      match groups with
      | Throw e => ([], Throw e)
      | Normal els =>
          pushLoop (fun _ el _ => linkedInMessage clock el) 0
                   (slice (- Z.of_nat maxMessages) els) []
      end
  end.

Definition gmailTry (maxMessages : nat) (clock : string) (doc : document)
    : list contextMessage * completion unit :=
  match emailThread doc with
  | Throw e => ([], Throw e)
  | Normal els =>
      pushLoop (fun _ el _ => gmailMessage clock el) 0
               (slice (- Z.of_nat maxMessages) els) []
  end.

(** [try { ... } catch (error) { log(error) } return value]: the value
    built so far is returned whether or not the block raised. *)
Definition catchAndReturn {A : Type} (log : jsError -> logEntry) (r : A * completion unit)
    : completion A * list logEntry :=
  match r with
  | (value, Normal _) => (Normal value, [])
  | (value, Throw e) => (Normal value, [log e])
  end.

Definition scrapeLinkedInContext (clock : string) (doc : document)
    : completion (list contextMessage) * list logEntry :=
  catchAndReturn (ConsoleWarn "Error scraping LinkedIn context:") (linkedInTry 5 clock doc).

Definition scrapeGmailContext (clock : string) (doc : document)
    : completion (list contextMessage) * list logEntry :=
  catchAndReturn (ConsoleWarn "Error scraping Gmail context:") (gmailTry 5 clock doc).

(* ===================================================================== *)
(** ** Profile capture (scrapeLinkedInProfile) *)
(* ===================================================================== *)

Record experienceEntry := ExperienceEntry {
  exp_title : string; exp_company : string; exp_duration : string
}.

Record educationEntry := EducationEntry {
  edu_school : string; edu_degree : string; edu_years : string
}.

(** An [li.artdeco-list__item] of the experience or education section,
    through the three [querySelector] calls made on it. *)
Record listItem := ListItem {
  li_primary : completion (option element);    (* div.display-flex.align-items-center span *)
  li_secondary : completion (option element);  (* span.t-14.t-normal span *)
  li_tertiary : completion (option element)    (* span.t-14.t-normal.t-black--light span *)
}.

(** The part of a profile page [scrapeLinkedInProfile] queries: a section
    is the section node, if any, and the result of the query made on it. *)
Record profileDocument := ProfileDocument {
  pd_name : completion (option element);
  pd_headline : completion (option element);
  pd_location : completion (option element);
  pd_about : completion (option (completion (option element)));
  pd_experience : completion (option (completion (list listItem)));
  pd_education : completion (option (completion (list listItem)));
  pd_skills : completion (option (completion (list element)))
}.

(** The [data] object: a key that was never assigned is [None]. *)
Record profileData := ProfileData {
  pf_name : option string;
  pf_headline : option string;
  pf_location : option string;
  pf_about : option string;
  pf_experience : option (list experienceEntry);
  pf_education : option (list educationEntry);
  pf_skills : option (list string)
}.

Definition emptyProfile : profileData :=
  ProfileData None None None None None None None.

Definition set_name (v : string) (d : profileData) : profileData :=
  ProfileData (Some v) (pf_headline d) (pf_location d) (pf_about d)
              (pf_experience d) (pf_education d) (pf_skills d).
Definition set_headline (v : string) (d : profileData) : profileData :=
  ProfileData (pf_name d) (Some v) (pf_location d) (pf_about d)
              (pf_experience d) (pf_education d) (pf_skills d).
Definition set_location (v : string) (d : profileData) : profileData :=
  ProfileData (pf_name d) (pf_headline d) (Some v) (pf_about d)
              (pf_experience d) (pf_education d) (pf_skills d).
Definition set_about (v : string) (d : profileData) : profileData :=
  ProfileData (pf_name d) (pf_headline d) (pf_location d) (Some v)
              (pf_experience d) (pf_education d) (pf_skills d).
Definition set_experience (v : list experienceEntry) (d : profileData) : profileData :=
  ProfileData (pf_name d) (pf_headline d) (pf_location d) (pf_about d)
              (Some v) (pf_education d) (pf_skills d).
Definition set_education (v : list educationEntry) (d : profileData) : profileData :=
  ProfileData (pf_name d) (pf_headline d) (pf_location d) (pf_about d)
              (pf_experience d) (Some v) (pf_skills d).
Definition set_skills (v : list string) (d : profileData) : profileData :=
  ProfileData (pf_name d) (pf_headline d) (pf_location d) (pf_about d)
              (pf_experience d) (pf_education d) (Some v).

(** [const el = document.querySelector(..); if (el) data.key = el.textContent.trim();] *)
Definition scalarStep (query : completion (option element))
    (assign : string -> profileData -> profileData) (data : profileData)
    : completion profileData :=
  el ← query;
  match el with
  | Some e => v ← textContentTrim e; mret (assign v data)
  | None => mret data
  end.

Definition aboutStep (doc : profileDocument) (data : profileData) : completion profileData :=
  aboutSection ← pd_about doc;
  match aboutSection with
  | Some query => scalarStep query set_about data
  | None => mret data
  end.

(** The [forEach] callback of the experience section. *)
Definition experienceVisit (index : nat) (item : listItem) (_ : list experienceEntry)
    : completion (option experienceEntry) :=
  if index <? 5 then
    title ← li_primary item;
    company ← li_secondary item;
    duration ← li_tertiary item;
    match title with
    | Some t =>
        a ← textContentTrim t;
        b ← trimOrEmpty company;
        c ← trimOrEmpty duration;
        mret (Some (ExperienceEntry a b c))
    | None => mret None
    end
  else mret None.

(** The [forEach] callback of the education section. *)
Definition educationVisit (index : nat) (item : listItem) (_ : list educationEntry)
    : completion (option educationEntry) :=
  if index <? 3 then
    school ← li_primary item;
    degree ← li_secondary item;
    years ← li_tertiary item;
    match school with
    | Some s =>
        a ← textContentTrim s;
        b ← trimOrEmpty degree;
        c ← trimOrEmpty years;
        mret (Some (EducationEntry a b c))
    | None => mret None
    end
  else mret None.

(** The [forEach] callback of the skills section:
    [if (skillText && !skills.includes(skillText)) skills.push(skillText)]. *)
Definition skillVisit (index : nat) (item : element) (skills : list string)
    : completion (option string) :=
  if index <? 10 then
    skillText ← textContentTrim item;
    mret (if truthy (Some skillText) && negb (bool_decide (skillText ∈ skills))
          then Some skillText else None)
  else mret None.

(** A list section: the local array is filled by the loop and assigned
    to [data] only when the loop finished and the array is not empty. *)
Definition listStep {E A : Type} (section : completion (option (completion (list E))))
    (visit : nat -> E -> list A -> completion (option A))
    (assign : list A -> profileData -> profileData) (data : profileData)
    : completion profileData :=
  sec ← section;
  match sec with
  | None => mret data
  | Some query =>
      items ← query;
      match pushLoop visit 0 items [] with
      | (_, Throw e) => Throw e
      | ([], Normal _) => mret data
      | (pushed, Normal _) => mret (assign pushed data)
      end
  end.

(** Statements run in order on an object that keeps what was assigned
    before an exception. *)
Fixpoint runSteps {S : Type} (steps : list (S -> completion S)) (data : S)
    : S * completion unit :=
  match steps with
  | [] => (data, Normal tt)
  | step :: rest =>
      match step data with
      | Throw e => (data, Throw e)
      | Normal data' => runSteps rest data'
      end
  end.

Definition profileSteps (doc : profileDocument) : list (profileData -> completion profileData) :=
  [ scalarStep (pd_name doc) set_name;
    scalarStep (pd_headline doc) set_headline;
    scalarStep (pd_location doc) set_location;
    aboutStep doc;
    listStep (pd_experience doc) experienceVisit set_experience;
    listStep (pd_education doc) educationVisit set_education;
    listStep (pd_skills doc) skillVisit set_skills ].

Definition scrapeLinkedInProfile (doc : profileDocument)
    : completion profileData * list logEntry :=
  catchAndReturn (ConsoleError "Error scraping LinkedIn profile:")
                 (runSteps (profileSteps doc) emptyProfile).

(** [captureProfile]: [profile_data] of the [storeProfile] request, the
    scraped object on LinkedIn and [{}] elsewhere. *)
Definition captureProfileData (p : platform) (doc : profileDocument) : completion profileData :=
  match p with
  | linkedin => fst (scrapeLinkedInProfile doc)
  | _ => Normal emptyProfile
  end.

(* ===================================================================== *)
(** ** Promises and async functions *)
(* ===================================================================== *)

(** A promise, by what becomes of it: the instant (in milliseconds) at
    which it settles and its outcome, a fulfilment [Normal v] or a
    rejection [Throw e]; [None] is a promise that stays pending. *)
Definition promise (A : Type) : Type := option (nat * completion A).

(** The promise is still pending at instant [t]. *)
Definition pendingAt {A : Type} (p : promise A) (t : nat) : bool :=
  match p with
  | None => true
  | Some (s, _) => t <? s
  end.

(** What the extension does to the outside. *)
Inductive requestBody :=
| RewriteBody (platform user_input : string)
              (conversation_context : list contextMessage) (recipient : string)
| StoreConversationBody (platform recipient message : string) (is_outgoing : bool)
                        (timestamp : string)
| ChatBody (question : string) (platform recipient : option string)
           (current_url : string) (session_id : option string).

(** The JSON a backend route answers with, through the fields the
    extension reads. *)
Inductive reply :=
| RewriteReply (rewritten_message : option string) (context_used : bool)
| StatusReply (status : string)
| ChatReply (answer : string).

Record rewriteData := RewriteData {
  rd_platform : platform;
  rd_userInput : string;
  rd_conversationContext : list contextMessage;
  rd_recipient : string
}.

Record storeData := StoreData {
  sd_platform : platform;
  sd_recipient : string;
  sd_message : option string;
  sd_isOutgoing : bool
}.

Record chatData := ChatData {
  cd_question : string;
  cd_platform : option platform;
  cd_recipient : option string;
  cd_current_url : string;
  cd_session_id : option string
}.

(** A message for the background worker: [{action, data}]. *)
Inductive request :=
| RewriteMessage (data : rewriteData)
| StoreConversation (data : storeData)
| Chat (data : chatData).

(** What the worker passes to [sendResponse]. *)
Inductive response :=
| Success (data : reply)
| Failure (error : string).

Inductive effect :=
| Alert (message : string)
| Log (entry : logEntry)
| SetInputText (newText : string)
| PostMessage (req : request)                 (* chrome.runtime.sendMessage *)
| FetchCall (url : string) (body : requestBody)
| StatUpdate (statName : string)              (* this.updateStats(statName), not awaited *)
| PaneLog (pane role message : string).       (* appendChatLog / appendSummarizerLog *)

(** Effects with the instant at which each happens. *)
Definition events : Type := list (nat * effect).

(** An async function body started at an instant: the effects it causes
    and the promise of its result.  Synchronous code takes no time; time
    passes only at an [await]. *)
Definition Async (A : Type) : Type := nat -> events * promise A.

#[global] Instance async_ret : MRet Async :=
  fun A a now => ([], Some (now, Normal a)).

#[global] Instance async_bind : MBind Async :=
  fun A B f c now =>
    match c now with
    | (ev, None) => (ev, None)
    | (ev, Some (t, Throw e)) => (ev, Some (t, Throw e))
    | (ev, Some (t, Normal a)) => let '(ev', p) := f a t in (ev ++ ev', p)
    end.

Definition emit (e : effect) : Async unit :=
  fun now => ([(now, e)], Some (now, Normal tt)).

Definition throw {A : Type} (e : jsError) : Async A :=
  fun now => ([], Some (now, Throw e)).

(** The instant at which the body has arrived. *)
Definition currentTime : Async nat :=
  fun now => ([], Some (now, Normal now)).

(** A synchronous call inside an async body. *)
Definition lift {A : Type} (c : completion A) : Async A :=
  fun now => ([], Some (now, c)).

Definition logAll (entries : list logEntry) : Async unit :=
  fun now => ((fun entry => (now, Log entry)) <$> entries, Some (now, Normal tt)).

(** [await p]: resume when [p] settles, never earlier than now. *)
Definition await {A : Type} (p : promise A) : Async A :=
  fun now => ([], match p with
                  | None => None
                  | Some (t, r) => Some (Nat.max now t, r)
                  end).

(** Calling an async function without awaiting it: the caller goes on at
    once, holding the promise. *)
Definition call {A : Type} (c : Async A) : Async (promise A) :=
  fun now => let '(ev, p) := c now in (ev, Some (now, Normal p)).

(** [try { body } catch (error) { handler }] *)
Definition tryCatch {A : Type} (body : Async A) (handler : jsError -> Async A) : Async A :=
  fun now =>
    match body now with
    | (ev, Some (t, Throw e)) => let '(ev', p) := handler e t in (ev ++ ev', p)
    | completed => completed
    end.

(** Of two promises the one that settles first, the left one on a tie
    ([Promise.race] subscribes in array order). *)
Definition first {A : Type} (p q : promise A) : promise A :=
  match p, q with
  | None, _ => q
  | _, None => p
  | Some (t1, _), Some (t2, _) => if t2 <? t1 then q else p
  end.

(** [Promise.race(ps)] *)
Definition race {A : Type} (ps : list (promise A)) : promise A :=
  foldr first None ps.

(** [new Promise(resolve => setTimeout(() => resolve(v), delay))] *)
Definition timeout {A : Type} (delay : nat) (v : A) : Async (promise A) :=
  fun now => ([], Some (now, Normal (Some (now + delay, Normal v)))).

(* ===================================================================== *)
(** ** The background service worker (background.js) *)
(* ===================================================================== *)

Definition API_BASE_URL : string := "http://localhost:8000".

(** A [fetch] response: [response.ok], [response.statusText] and the
    promises of [response.text()] and [response.json()]. *)
Record httpResponse := HttpResponse {
  ok : bool;
  statusText : string;
  bodyText : promise string;
  bodyJson : promise reply
}.

(** Everything outside the extension's code: the settings held by
    [chrome.storage.sync] (read without delay or failure), the network
    ([fetch w t url body] is the promise [fetch] returns when called at
    [t]), the message port between content script and worker (an error
    is a rejected [chrome.runtime.sendMessage]) and the wall clock. *)
Record world := World {
  apiUrlSetting : option string;
  autoStoreSetting : bool;
  fetch : nat -> string -> requestBody -> promise httpResponse;
  portError : nat -> request -> option jsError;
  isoTime : nat -> string
}.

Definition fetchCall (w : world) (url : string) (body : requestBody) : Async httpResponse :=
  fun now => ([(now, FetchCall url body)],
              snd (await (fetch w now url body) now)).

(** [if (!response.ok) throw new Error(`API request failed: ...`)] *)
Definition apiRequestFailed (r : httpResponse) : jsError :=
  JsError "Error" ("API request failed: " +:+ statusText r).

(** [const requestBody = {platform, user_input, conversation_context, recipient}] *)
Definition rewriteRequestBody (data : rewriteData) : requestBody :=
  RewriteBody (platformName (rd_platform data)) (rd_userInput data)
              (rd_conversationContext data) (rd_recipient data).

Definition handleRewriteMessage (w : world) (data : rewriteData) : Async reply :=
  let apiUrl := orElse (apiUrlSetting w) API_BASE_URL in
  tryCatch
    (response ← fetchCall w (apiUrl +:+ "/api/rewrite") (rewriteRequestBody data);
     if negb (ok response) then
       _ ← await (bodyText response);
       throw (apiRequestFailed response)
     else
       await (bodyJson response))
    (fun error =>
       _ ← emit (Log (ConsoleError "BACKGROUND: Error" error));
       throw error).

Definition handleStoreConversation (w : world) (data : storeData) : Async reply :=
  if negb (truthy (sd_message data)) || negb (truthy (option_map trim (sd_message data)))
  then mret (StatusReply "skipped")
  else
    let apiUrl := orElse (apiUrlSetting w) API_BASE_URL in
    tryCatch
      (now ← currentTime;
       response ← fetchCall w (apiUrl +:+ "/api/store-conversation")
                    (StoreConversationBody (platformName (sd_platform data))
                       (sd_recipient data) (default "" (sd_message data))
                       (sd_isOutgoing data) (isoTime w now));
       if negb (ok response) then throw (apiRequestFailed response)
       else await (bodyJson response))
      (fun error =>
         _ ← emit (Log (ConsoleError "Error storing conversation:" error));
         throw error).

Definition handleChat (w : world) (data : chatData) : Async reply :=
  let apiUrl := orElse (apiUrlSetting w) API_BASE_URL in
  response ← fetchCall w (apiUrl +:+ "/api/chat")
                (ChatBody (cd_question data) (option_map platformName (cd_platform data))
                          (cd_recipient data) (cd_current_url data) (cd_session_id data));
  if negb (ok response) then throw (apiRequestFailed response)
  else await (bodyJson response).

(** [handler(data).then(r => sendResponse({success: true, data: r}))
                  .catch(e => sendResponse({success: false, error: e.message}))] *)
Definition respond (handler : Async reply) : Async response :=
  tryCatch (data ← handler; mret (Success data))
           (fun error => mret (Failure (errMessage error))).

(** The [chrome.runtime.onMessage] listener. *)
Definition onMessage (w : world) (req : request) : Async response :=
  match req with
  | RewriteMessage data => respond (handleRewriteMessage w data)
  | StoreConversation data => respond (handleStoreConversation w data)
  | Chat data => respond (handleChat w data)
  end.

(** [chrome.runtime.sendMessage(req)] as a promise: rejected when the
    port fails, else settled with what the listener responds. *)
Definition sendMessage (w : world) (req : request) : Async response :=
  fun now =>
    match portError w now req with
    | Some e => ([(now, PostMessage req)], Some (now, Throw e))
    | None => let '(ev, p) := onMessage w req now in ((now, PostMessage req) :: ev, p)
    end.

(** [chrome.runtime.sendMessage(req, callback)]: the callback receives
    [undefined] when the port fails. *)
Definition sendMessageCallback (w : world) (req : request) : Async (option response) :=
  tryCatch (r ← sendMessage w req; mret (Some r)) (fun _ => mret None).

(* ===================================================================== *)
(** ** The content script (class MessageComposer) *)
(* ===================================================================== *)

(** A message input of the page. *)
Record inputElement := InputElement {
  isContentEditable : bool;
  tagName : string;
  shownText : option string   (* innerText || textContent, or value *)
}.

Definition isMessageInput (el : inputElement) : bool :=
  isContentEditable el || String.eqb (tagName el) "TEXTAREA"
  || String.eqb (tagName el) "INPUT".

Definition getInputText (input : inputElement) : option string := shownText input.

(** The page around the composer: the threads the scrapers read, the
    nodes [getRecipient] looks for (by their trimmed text) and the
    focused element. *)
Record page := Page {
  dom : document;
  href : string;
  activeElement : option inputElement;
  conversationHeader : option string;   (* .msg-thread__link-to-profile, ... *)
  profileLink : option string;          (* .msg-thread a[href*="/in/"] *)
  toField : option string;              (* getAttribute('email') || innerText.trim() *)
  subjectLine : option string           (* .hP *)
}.

Definition getLinkedInRecipient (pg : page) : string :=
  match conversationHeader pg with
  | Some name => name
  | None =>
      match profileLink pg with
      | Some name => name
      | None => "LinkedIn Contact"
      end
  end.

Definition getGmailRecipient (pg : page) : string :=
  match toField pg with
  | Some name => name
  | None =>
      match subjectLine pg with
      | Some name => name
      | None => "Gmail Contact"
      end
  end.

Definition getRecipient (p : platform) (pg : page) : string :=
  match p with
  | linkedin => getLinkedInRecipient pg
  | gmail => getGmailRecipient pg
  | web => "unknown"
  end.

(** [async scrapeConversationContext(input)]: the scrapers are
    synchronous, so the body has no [await]. *)
Definition scrapeConversationContext (w : world) (p : platform) (pg : page)
    : Async (list contextMessage) :=
  now ← currentTime;
  match p with
  | linkedin =>
      let '(r, logs) := scrapeLinkedInContext (isoTime w now) (dom pg) in
      _ ← logAll logs; lift r
  | gmail =>
      let '(r, logs) := scrapeGmailContext (isoTime w now) (dom pg) in
      _ ← logAll logs; lift r
  | web => mret []
  end.

(** [updateStats(statName)] on [chrome.storage.local] as far as the
    counters go (a counter is a natural number, far below 2^53), with
    no other write between its read and its write. *)
Definition updateStats (statName : string) (storage : gmap string N) : gmap string N :=
  let stats := storage !! statName in               (* await chrome.storage.local.get([statName]) *)
  let currentValue := default 0%N stats in          (* stats[statName] || 0 *)
  <[statName := (currentValue + 1)%N]> storage.     (* await chrome.storage.local.set({...}) *)

Definition storeMessage (w : world) (p : platform) (recipient message : string)
    (isOutgoing : bool) : Async unit :=
  tryCatch
    (_ ← sendMessage w (StoreConversation (StoreData p recipient (Some message) isOutgoing));
     emit (StatUpdate "conversationCount"))
    (fun error => emit (Log (ConsoleError "Failed to store message:" error))).

(** The delay of the timer in STEP 3 of [handleRewrite], in milliseconds. *)
Definition DEADLINE : nat := 1000.

(** STEP 3 of [handleRewrite]: the context promise raced against a
    one-second timer that resolves to the empty array. *)
Definition scrapeWithDeadline (scrape : Async (list contextMessage))
    : Async (list contextMessage) :=
  contextPromise ← call scrape;
  timer ← timeout DEADLINE [];
  await (race [contextPromise; timer]).

(** [response.data.rewritten_message], then [rewrittenText.length]. *)
Definition rewrittenMessage (data : reply) : completion string :=
  match data with
  | RewriteReply (Some rewrittenText) _ => Normal rewrittenText
  | _ => Throw (undefinedTypeError "length")
  end.

(** STEPS 5 to 7 of [handleRewrite]: what is done with the worker's
    response, [if (response && response.success) {...} else {...}]. *)
Definition applyResponse (w : world) (p : platform) (recipient : string)
    (response : response) : Async unit :=
  match response with
  | Success data =>
      rewrittenText ← lift (rewrittenMessage data);
      _ ← emit (SetInputText rewrittenText);
      _ ← emit (SetInputText rewrittenText);
      _ ← emit (StatUpdate "messageCount");
      (* Store conversation in background (don't wait for it) *)
      if autoStoreSetting w then
        _ ← call (tryCatch (storeMessage w p recipient rewrittenText true)
                     (fun err => emit (Log (ConsoleWarn "Failed to store conversation:" err))));
        mret tt
      else mret tt
  | Failure error =>
      emit (Alert ("Error: " +:+ orElse (Some error) "Unknown error"))
  end.

(** STEPS 4 to 7 of [handleRewrite], inside its [try] block. *)
Definition sendAndApply (w : world) (p : platform) (pg : page) (userInput : string)
    (conversationContext : list contextMessage) : Async unit :=
  let recipient := getRecipient p pg in
  response ← sendMessage w
               (RewriteMessage (RewriteData p userInput conversationContext recipient));
  applyResponse w p recipient response.

(** [handleRewrite(input)], with the context retrieval it calls as
    [this.scrapeConversationContext] left open. *)
Definition handleRewriteWith (scrape : Async (list contextMessage))
    (w : world) (p : platform) (pg : page) (input : option inputElement) : Async unit :=
  let input := match input with Some el => Some el | None => activeElement pg end in
  match input with
  | None => mret tt
  | Some input =>
      if negb (isMessageInput input) then mret tt
      else
        match getInputText input with
        | Some userInput =>
            if String.eqb (trim userInput) "" then emit (Alert "Please write a message first!")
            else
              tryCatch
                (conversationContext ← scrapeWithDeadline scrape;
                 sendAndApply w p pg userInput conversationContext)
                (fun error =>
                   _ ← emit (Log (ConsoleError "EXCEPTION CAUGHT:" error));
                   emit (Alert ("Failed to rewrite message: " +:+ errMessage error)))
        | None => emit (Alert "Please write a message first!")
        end
  end.

(** [handleRewrite] of the composer as shipped. *)
Definition handleRewrite (w : world) (p : platform) (pg : page)
    (input : option inputElement) : Async unit :=
  handleRewriteWith (scrapeConversationContext w p pg) w p pg input.

(** The sidebar's [chat-send] action on the text of the chat box. *)
Definition chatSend (w : world) (p : platform) (pg : page) (typed : string) : Async unit :=
  let question := trim typed in
  if String.eqb question "" then mret tt
  else
    _ ← emit (PaneLog "chat" "You" question);
    response ← sendMessageCallback w
                 (Chat (ChatData question (Some p) (Some (getRecipient p pg)) (href pg) None));
    match response with
    | Some (Success (ChatReply answer)) => emit (PaneLog "chat" "Assistant" answer)
    | Some (Success _) => emit (PaneLog "chat" "Assistant" "undefined")
    | Some (Failure error) =>
        emit (PaneLog "chat" "Assistant"
                ("Error: " +:+ orElse (Some error) "Unable to chat right now."))
    | None => emit (PaneLog "chat" "Assistant" "Error: Unable to chat right now.")
    end.

(** The sidebar's [summarizer-send] action on the text of the
    summarizer box. *)
Definition summarizerSend (w : world) (pg : page) (typed : string) : Async unit :=
  let question := trim typed in
  if String.eqb question "" then mret tt
  else
    _ ← emit (PaneLog "summarizer" "You" question);
    response ← sendMessageCallback w
                 (Chat (ChatData question None None (href pg) (Some "summarizer")));
    match response with
    | Some (Success (ChatReply answer)) => emit (PaneLog "summarizer" "Assistant" answer)
    | Some (Success _) => emit (PaneLog "summarizer" "Assistant" "undefined")
    | Some (Failure error) =>
        emit (PaneLog "summarizer" "Assistant"
                ("Error: " +:+ orElse (Some error) "Unable to chat right now."))
    | None => emit (PaneLog "summarizer" "Assistant" "Error: Unable to chat right now.")
    end.

(** A click on the page's send button ([observeSendEvents]): the draft
    kept in [this.latestDraft] is stored and then cleared.  The result
    pairs the new [latestDraft] with what the handler does. *)
Definition onSendClick (w : world) (p : platform) (pg : page) (latestDraft : string)
    : string * Async unit :=
  match p with
  | web => (latestDraft, mret tt)
  | _ =>
      let message := trim latestDraft in
      if String.eqb message "" then (latestDraft, mret tt)
      else ("",
            _ ← call (storeMessage w p (getRecipient p pg) message true);
            emit (StatUpdate "conversationCount"))
  end.

(** The chat requests an effect list posts to the worker. *)
Definition chatRequests (ev : events) : list chatData :=
  omap (fun e => match e.2 with PostMessage (Chat d) => Some d | _ => None end) ev.

Definition alerts (ev : events) : list string :=
  omap (fun e => match e.2 with Alert m => Some m | _ => None end) ev.

(** The bodies of the network calls an effect list makes. *)
Definition fetchBodies (ev : events) : list requestBody :=
  omap (fun e => match e.2 with FetchCall _ b => Some b | _ => None end) ev.

(* ===================================================================== *)
(** ** The memory engine behind the API (not part of the extension) *)
(* ===================================================================== *)

Module Engine.

(** Modelled from the spec: the identity key of a Contact, section 3,
    [(platform, normalizedName)].  The backend that owns the graph is
    not among the sources; the normalisation of names is left open as
    [normalize]. *)
Definition contactKey : Type := string * string.

(** Modelled from the spec: the [direction] of an InteractionMessage,
    section 3 (the backend's type is not among the sources). *)
Inductive direction := outgoing | incoming.

#[global] Instance direction_eq_dec : EqDecision direction.
Proof. solve_decision. Defined.

(** Modelled from the spec: an InteractionMessage node, section 3
    (generated [id], [text], [direction], [occurredAt], owned by one
    Contact).  The backend's node type is not among the sources. *)
Record interactionMessage := InteractionMessage {
  im_id : nat;
  im_contact : contactKey;
  im_text : string;
  im_direction : direction;
  im_occurredAt : string
}.

(** Modelled from the spec: the lane identifier of the Session Router,
    section 4.5: the default lane is keyed by [(platform, counterpart)],
    a named lane by its explicit tag.  The router is not among the
    sources. *)
Inductive lane :=
| CounterpartLane (platform counterpart : string)
| NamedLane (tag : string).

#[global] Instance lane_eq_dec : EqDecision lane.
Proof. solve_decision. Defined.

(** Modelled from the spec: a ChatTurn node, section 3
    ([sessionId], [role], [text], [occurredAt]). *)
Record chatTurn := ChatTurn {
  ct_session : lane;
  ct_role : string;
  ct_text : string;
  ct_occurredAt : nat
}.

(** Modelled from the spec: the persisted graph, section 6, as far as
    messages and chat turns go, each kind in the order of arrival at the
    store (section 5). *)
Record graph := Graph {
  messages : list interactionMessage;
  chatTurns : list chatTurn
}.

(** Modelled from the spec: the graph before anything was ingested (the
    store is not among the sources). *)
Definition emptyGraph : graph := Graph [] [].

(** Modelled from the spec: a RawInteractionEvent as the scraping layer
    hands it over, section 1 and 4.2. *)
Record rawInteractionEvent := RawInteractionEvent {
  ev_platform : string;
  ev_counterpart : string;
  ev_text : string;
  ev_direction : direction;
  ev_occurredAt : string
}.

Section Store.

Variable normalize : string -> string.

(** Modelled from the spec: the contact an event refers to, section 3
    (the ingestion pipeline is not among the sources). *)
Definition keyOf (ev : rawInteractionEvent) : contactKey :=
  (ev_platform ev, normalize (ev_counterpart ev)).

(** Modelled from the spec: [queryRecentMessages(contactRef, limit)],
    section 4.1: the contact's messages, most recent first, at most
    [limit] of them. *)
Definition queryRecentMessages (g : graph) (key : contactKey) (limit : nat)
    : list interactionMessage :=
  take limit (reverse (filter (fun m => im_contact m = key) (messages g))).

(** Modelled from the spec: the dedupe test of section 4.2 (the
    ingestion pipeline is not among the sources): a stored message is a
    copy of an event of its contact when text and direction agree. *)
Definition sameEvent (ev : rawInteractionEvent) (m : interactionMessage) : bool :=
  bool_decide (im_text m = ev_text ev) && bool_decide (im_direction m = ev_direction ev).

(** Modelled from the spec: ingestion of a message event, section 4.2:
    "dedupe by (contactKey, text, direction) within a short trailing
    window (the most recent N stored messages for that contact), else
    accept as new", the new node getting a fresh id. *)
Definition ingestMessage (window : nat) (g : graph) (ev : rawInteractionEvent) : graph :=
  if existsb (sameEvent ev) (queryRecentMessages g (keyOf ev) window)
  then g
  else Graph (messages g ++
                [InteractionMessage (length (messages g)) (keyOf ev) (ev_text ev)
                                    (ev_direction ev) (ev_occurredAt ev)])
             (chatTurns g).

(** Modelled from the spec: [appendChatTurn(sessionId, turn)],
    section 4.1; chat turns are append-only. *)
Definition appendChatTurn (g : graph) (turn : chatTurn) : graph :=
  Graph (messages g) (chatTurns g ++ [turn]).

(** Modelled from the spec: [queryChatHistory(sessionId, limit)],
    section 4.1 and 4.3: the lane's most recent [limit] turns, oldest
    first. *)
Definition queryChatHistory (g : graph) (session : lane) (limit : nat) : list chatTurn :=
  reverse (take limit (reverse (filter (fun t => ct_session t = session) (chatTurns g)))).

(** Modelled from the spec: the Session Router, section 4.5: "An
    explicit tag always wins"; the default is [(platform, counterpart)]. *)
Definition routeSession (platform counterpart : string) (explicitSessionTag : option string)
    : lane :=
  match explicitSessionTag with
  | Some tag => NamedLane tag
  | None => CounterpartLane platform counterpart
  end.

(** Modelled from the spec: [retrieveContext], section 4.3, by the texts
    it returns: in a named lane that lane's chat history up to the turn
    cap; otherwise the contact's most recent [maxMessages] messages,
    queried newest first and reversed for chronological presentation. *)
Definition retrieveContext (g : graph) (session : lane) (maxMessages : nat) : list string :=
  match session with
  | NamedLane _ => ct_text <$> queryChatHistory g session maxMessages
  | CounterpartLane platform counterpart =>
      im_text <$> reverse (queryRecentMessages g (platform, normalize counterpart) maxMessages)
  end.

(** Modelled from the spec: what [/api/store-conversation] ingests for
    a request body of the extension (the route is not among the
    sources). *)
Definition eventOfBody (body : requestBody) : option rawInteractionEvent :=
  match body with
  | StoreConversationBody platform recipient message is_outgoing timestamp =>
      Some (RawInteractionEvent platform recipient message
              (if is_outgoing then outgoing else incoming) timestamp)
  | _ => None
  end.

(** Modelled from the spec: the store after the route has ingested a
    request body (the route is not among the sources). *)
Definition ingestBody (window : nat) (g : graph) (body : requestBody) : graph :=
  match eventOfBody body with
  | Some ev => ingestMessage window g ev
  | None => g
  end.

(** Modelled from the spec: the stored nodes that are copies of an
    event for its contact, by the dedupe key of section 4.2 (the store
    is not among the sources). *)
Definition copiesOf (g : graph) (ev : rawInteractionEvent) : list interactionMessage :=
  filter (fun m => im_contact m = keyOf ev ∧ sameEvent ev m = true) (messages g).

End Store.

End Engine.

(* ===================================================================== *)
(** ** Reference notions the properties are stated with *)
(* ===================================================================== *)

(** A message that is absent, empty or made of white space only. *)
Definition blankMessage (message : option string) : bool :=
  match message with
  | None => true
  | Some s => allWhiteSpace s
  end.

(** What a loop has pushed when it stops: the values of the items
    visited before the first one that raises. *)
Fixpoint collectedBeforeThrow {E A : Type} (f : E -> completion (option A))
    (items : list E) : list A :=
  match items with
  | [] => []
  | item :: rest =>
      match f item with
      | Throw _ => []
      | Normal None => collectedBeforeThrow f rest
      | Normal (Some a) => a :: collectedBeforeThrow f rest
      end
  end.

(** The newest [n] nodes of a thread listed oldest first: taken newest
    first, then put back in chronological order. *)
Definition mostRecent {A : Type} (n : nat) (thread : list A) : list A :=
  reverse (take n (reverse thread)).

(** The draft [handleRewrite] goes on with: the text of the given input,
    or of the focused element when none is given, provided it is a
    message input and its text is not blank. *)
Definition draftOf (pg : page) (input : option inputElement) : option string :=
  match (match input with Some el => Some el | None => activeElement pg end) with
  | Some el =>
      if isMessageInput el then
        match getInputText el with
        | Some userInput => if String.eqb (trim userInput) "" then None else Some userInput
        | None => None
        end
      else None
  | None => None
  end.

(** What the shipped scraper of a platform returns on a page at an
    instant, with what it logs. *)
Definition scrapedNow (w : world) (p : platform) (pg : page) (now : nat)
    : completion (list contextMessage) * list logEntry :=
  match p with
  | linkedin => scrapeLinkedInContext (isoTime w now) (dom pg)
  | gmail => scrapeGmailContext (isoTime w now) (dom pg)
  | web => (Normal [], [])
  end.

(** A thread node whose text and direction read without raising. *)
Definition plainGroup (shown : string) (outgoing : bool) : messageGroup :=
  MessageGroup (Normal (Some (Element (Normal (Some shown)) (Normal (Some shown)))))
               (Normal outgoing).

(** The same world with another conversation store: the answers to
    store-conversation network calls and the fate of store messages on
    the port are replaced. *)
Definition withStore (storeFetch : nat -> string -> requestBody -> promise httpResponse)
    (storePort : nat -> request -> option jsError) (w : world) : world :=
  World (apiUrlSetting w) (autoStoreSetting w)
        (fun t url body =>
           match body with
           | StoreConversationBody _ _ _ _ _ => storeFetch t url body
           | _ => fetch w t url body
           end)
        (fun t req =>
           match req with
           | StoreConversation _ => storePort t req
           | _ => portError w t req
           end)
        (isoTime w).

(** The effects the user of the compose flow sees: alerts and the
    replacement of the draft. *)
Definition visible (e : effect) : bool :=
  match e with
  | Alert _ | SetInputText _ => true
  | _ => false
  end.

Definition isAlert (e : effect) : bool :=
  match e with
  | Alert _ => true
  | _ => false
  end.

(** The events of a kind among the events of a run, in order. *)
Definition only (kind : effect -> bool) (ev : events) : events :=
  omap (fun e => if kind e.2 then Some e else None) ev.

(** An async body none of whose effects is of a given kind. *)
Definition silent {A : Type} (kind : effect -> bool) (c : Async A) : Prop :=
  forall now, only kind (c now).1 = [].

(** Two runs that show the user the same and end alike. *)
Definition sameView {A : Type} (r r' : events * promise A) : Prop :=
  only visible r.1 = only visible r'.1 /\ r.2 = r'.2.

(** The promise ends rejected. *)
Definition rejected {A : Type} (p : promise A) : bool :=
  match p with
  | Some (_, Throw _) => true
  | _ => false
  end.

(** Modelled from the spec: the lane the chat route retrieves from for a
    request body of the extension, by the Session Router of section 4.5
    (the route is not among the sources); a field the request does not
    carry is the empty string. *)
Definition laneOfChat (body : requestBody) : option Engine.lane :=
  match body with
  | ChatBody _ platform recipient _ session_id =>
      Some (Engine.routeSession (default "" platform) (default "" recipient) session_id)
  | _ => None
  end.

(** The three sub-lists of a [data] object are within 5, 3 and 10
    entries, a key that is not set counting as no entry. *)
Definition withinCaps (data : profileData) : Prop :=
  length (default [] (pf_experience data)) <= 5
  /\ length (default [] (pf_education data)) <= 3
  /\ length (default [] (pf_skills data)) <= 10.


(** The counters an effect list asks [updateStats] to increment. *)
Definition statUpdates (ev : events) : list string :=
  omap (fun e => match e.2 with StatUpdate statName => Some statName | _ => None end) ev.

(* ===================================================================== *)
(** ** Further views of a run *)
(* ===================================================================== *)

(** The store-conversation messages an effect list posts to the worker. *)
Definition storeRequests (ev : events) : list storeData :=
  omap (fun e => match e.2 with PostMessage (StoreConversation d) => Some d | _ => None end) ev.

(** The network calls an effect list makes: where to and with what. *)
Definition fetchCalls (ev : events) : list (string * requestBody) :=
  omap (fun e => match e.2 with FetchCall url b => Some (url, b) | _ => None end) ev.

(** What an effect list appends to the sidebar's panes: role and text. *)
Definition paneLogs (ev : events) : list (string * string) :=
  omap (fun e => match e.2 with PaneLog _ role message => Some (role, message) | _ => None end) ev.

(** What the catch-all handler of [handleRewrite] shows for an error. *)
Definition failedToRewrite (e : jsError) : string :=
  "Failed to rewrite message: " +:+ errMessage e.

(** What [handleRewrite] shows for a response with [success: false]. *)
Definition errorAlert (error : string) : string :=
  "Error: " +:+ orElse (Some error) "Unknown error".

(** The effects by which a rewrite changes something: the draft, a
    counter, or the conversation store. *)
Definition changes (e : effect) : bool :=
  match e with
  | SetInputText _ | StatUpdate _ | PostMessage (StoreConversation _) => true
  | _ => false
  end.

(** [settings.apiUrl || API_BASE_URL] *)
Definition apiBase (w : world) : string := orElse (apiUrlSetting w) API_BASE_URL.

(** The body [handleChat] posts: the request data as they are. *)
Definition chatRequestBody (data : chatData) : requestBody :=
  ChatBody (cd_question data) (option_map platformName (cd_platform data))
           (cd_recipient data) (cd_current_url data) (cd_session_id data).

(** The "Assistant" entry a pane shows for a question, by what became
    of the chat message: none while the worker has not answered. *)
Definition assistantEntry (port : option jsError) (answer : promise response)
    : list (string * string) :=
  match port with
  | Some _ => [("Assistant", "Error: Unable to chat right now.")]
  | None =>
      match answer with
      | Some (_, Normal (Success (ChatReply text))) => [("Assistant", text)]
      | Some (_, Normal (Success _)) => [("Assistant", "undefined")]
      | Some (_, Normal (Failure error)) =>
          [("Assistant", "Error: " +:+ orElse (Some error) "Unable to chat right now.")]
      | _ => []
      end
  end.

Definition isPaneLog (e : effect) : bool :=
  match e with PaneLog _ _ _ => true | _ => false end.

(** A world used to illustrate runs: the rewrite route answers after
    300 ms with a rewritten text, every other route is unreachable. *)
Definition rewritingWorld (autoStore : bool) : world :=
  World None autoStore
        (fun t _ body =>
           match body with
           | RewriteBody _ _ _ _ =>
               Some (t + 300,
                     Normal (HttpResponse true "OK" None
                               (Some (t + 301, Normal (RewriteReply (Some "Thank you!") true)))))
           | _ => Some (t + 5, Throw (JsError "TypeError" "Failed to fetch"))
           end)
        (fun _ _ => None) (fun _ => "T").

(** A LinkedIn conversation page with one earlier message and a draft in
    a text area. *)
Definition samplePage : page :=
  Page (Document (Normal (Some (Normal [plainGroup "hello" true]))) (Normal []))
       "https://www.linkedin.com/messaging/"
       (Some (InputElement false "TEXTAREA" (Some "thanks!")))
       (Some "John Doe") None None None.

(* ===================================================================== *)
(** ** Counters: the two steps of [updateStats] and the popup *)
(* ===================================================================== *)

(** [(await chrome.storage.local.get([statName]))[statName] || 0] *)
Definition readStat (statName : string) (storage : gmap string N) : N :=
  default 0%N (storage !! statName).

(** [await chrome.storage.local.set({ [statName]: currentValue + 1 })] *)
Definition writeStat (statName : string) (currentValue : N) (storage : gmap string N)
    : gmap string N :=
  <[statName := (currentValue + 1)%N]> storage.

(** Calls of [updateStats] that run one after the other, each finished
    before the next starts. *)
Definition updateStatsInTurn (statNames : list string) (storage : gmap string N)
    : gmap string N :=
  foldl (fun st statName => updateStats statName st) storage statNames.

(** Two calls of [updateStats] started together: both reads are served
    before either write. *)
Definition updateStatsOverlapping (first second : string) (storage : gmap string N)
    : gmap string N :=
  let firstValue := readStat first storage in
  let secondValue := readStat second storage in
  writeStat second secondValue (writeStat first firstValue storage).

Module Popup.

(** [loadStats] of popup.js: the two numbers the popup shows,
    [stats.messageCount || 0] and [stats.conversationCount || 0]. *)
Definition loadStats (storage : gmap string N) : N * N :=
  (default 0%N (storage !! "messageCount"), default 0%N (storage !! "conversationCount")).

(** What [checkConnection] makes the popup show. *)
Inductive status := connected | disconnected.

(** The delay of [AbortSignal.timeout(3000)], in milliseconds. *)
Definition ABORT_AFTER : nat := 3000.

(** [fetch(url, {signal: AbortSignal.timeout(delay)})]: the promise of
    the request, rejected with a [TimeoutError] at the abort instant
    when the request has not settled by then (a request settling at
    that very instant is taken to win). *)
Definition abortable {A : Type} (delay : nat) (request : nat -> promise A) : Async A :=
  fun now =>
    ([], match request now with
         | Some (t, r) =>
             if now + delay <? t
             then Some (now + delay, Throw (JsError "TimeoutError" "signal timed out"))
             else Some (Nat.max now t, r)
         | None => Some (now + delay, Throw (JsError "TimeoutError" "signal timed out"))
         end).

(** [checkConnection] of popup.js, by the status it ends up showing;
    [health url t] is the promise of [fetch] for the health route called
    at [t]. *)
Definition checkConnection (apiUrl : option string)
    (health : string -> nat -> promise httpResponse) : Async status :=
  tryCatch
    (let apiUrl := orElse apiUrl "http://localhost:8000" in
     response ← abortable ABORT_AFTER (health (apiUrl +:+ "/health"));
     if ok response then mret connected
     else throw (JsError "Error" "Backend not responding"))
    (fun _ => mret disconnected).

End Popup.

(* ===================================================================== *)
(** ** The options page (options.js) *)
(* ===================================================================== *)

Module Options.

(** The four keys of [chrome.storage.sync] the extension uses; a key
    that was never set is [None]. *)
Record syncStorage := SyncStorage {
  stored_apiUrl : option string;
  stored_llmModel : option string;
  stored_defaultTone : option string;
  stored_autoStore : option bool
}.

(** The fields of the options form. *)
Record form := Form {
  apiUrl : string;
  llmModel : string;
  defaultTone : string;
  autoStore : bool
}.

Definition DEFAULT_SETTINGS : form :=
  Form "http://localhost:8000" "claude-sonnet-4-5-20250929" "professional" true.

(** [loadSettings]: what the form shows for a storage. *)
Definition loadSettings (settings : syncStorage) : form :=
  Form (orElse (stored_apiUrl settings) (apiUrl DEFAULT_SETTINGS))
       (orElse (stored_llmModel settings) (llmModel DEFAULT_SETTINGS))
       (orElse (stored_defaultTone settings) (defaultTone DEFAULT_SETTINGS))
       (match stored_autoStore settings with
        | Some checked => checked
        | None => autoStore DEFAULT_SETTINGS
        end).

(** [chrome.storage.sync.set(settings)] with the four fields of a form. *)
Definition store (f : form) (settings : syncStorage) : syncStorage :=
  SyncStorage (Some (apiUrl f)) (Some (llmModel f)) (Some (defaultTone f))
              (Some (autoStore f)).

(** [saveSettings]: the storage after Save was clicked on a form. *)
Definition saveSettings (shown : form) (settings : syncStorage) : syncStorage :=
  store shown settings.

(** [resetSettings]: the storage after Reset, and what the form shows. *)
Definition resetSettings (settings : syncStorage) : syncStorage * form :=
  let settings' := store DEFAULT_SETTINGS settings in
  (settings', loadSettings settings').

(** A fresh installation: nothing was ever saved. *)
Definition fresh : syncStorage := SyncStorage None None None None.

(** The [getSettings] branch of the worker's listener:
    [{apiUrl: items.apiUrl || API_BASE_URL, llmModel: items.llmModel || 'fallback'}]. *)
Definition getSettings (settings : syncStorage) : string * string :=
  (orElse (stored_apiUrl settings) API_BASE_URL,
   orElse (stored_llmModel settings) "fallback").

(** A world whose settings are read from a storage: [settings.apiUrl]
    as it is and [settings.autoStore] by its truthiness. *)
Definition withSettings (settings : syncStorage) (w : world) : world :=
  World (stored_apiUrl settings) (default false (stored_autoStore settings))
        (fetch w) (portError w) (isoTime w).

End Options.

(* ===================================================================== *)
(** ** What the scrapers return, entry by entry *)
(* ===================================================================== *)

(** A text as [trim] leaves it: not empty, no white space at either end. *)
Definition trimmedText (s : string) : Prop := s <> "" /\ trim s = s.

(** The lists of a [data] object as the profile scraper leaves them: no
    list key holds an empty array, and the skills are pairwise distinct
    trimmed texts. *)
Definition tidyLists (data : profileData) : Prop :=
  pf_experience data <> Some []
  /\ pf_education data <> Some []
  /\ pf_skills data <> Some []
  /\ NoDup (default [] (pf_skills data))
  /\ Forall trimmedText (default [] (pf_skills data)).

(** The name the first statement of [scrapeLinkedInProfile] reads. *)
Definition nameRead (doc : profileDocument) : option string :=
  match pd_name doc with
  | Normal (Some nameElement) =>
      match textContentTrim nameElement with
      | Normal name => Some name
      | Throw _ => None
      end
  | _ => None
  end.

(* ===================================================================== *)
(** ** Platform detection and message inputs *)
(* ===================================================================== *)

(** [detectPlatform] on [window.location.hostname]. *)
Definition detectPlatform (hostname : string) : platform :=
  if includes "linkedin.com" hostname then linkedin
  else if includes "mail.google.com" hostname then gmail
  else web.

(** The rewrite requests an effect list posts to the worker. *)
Definition rewriteRequests (ev : events) : list rewriteData :=
  omap (fun e => match e.2 with PostMessage (RewriteMessage d) => Some d | _ => None end) ev.

Module Attach.

(** A node of the page as the input search sees it: its identity, the
    selectors it matches, the ancestors [closest] finds, and the input
    it is. *)
Record node := Node {
  nodeId : nat;
  matchesMessaging : bool;   (* .msg-form__contenteditable, [contenteditable="true"][role="textbox"] *)
  insideMessaging : bool;    (* closest('.msg-form') || closest('[data-control-name="messaging"]') *)
  matchesPost : bool;        (* .ql-editor[contenteditable="true"] *)
  insideShareBox : bool;     (* closest('.share-box') || closest('[data-test-share-box]') *)
  matchesCompose : bool;     (* [role="textbox"][aria-label*="Message Body"], [role="textbox"][g_editable="true"] *)
  asInput : inputElement
}.

(** [document.querySelectorAll(selector)]: the matching nodes in
    document order. *)
Definition querySelectorAll (selector : node -> bool) (nodes : list node) : list node :=
  List.filter selector nodes.

Definition findLinkedInInputs (nodes : list node) : list node :=
  let messageInputs := querySelectorAll matchesMessaging nodes in
  let postInputs := querySelectorAll matchesPost nodes in
  List.filter insideMessaging messageInputs ++ List.filter insideShareBox postInputs.

Definition findGmailInputs (nodes : list node) : list node :=
  querySelectorAll matchesCompose nodes.

Definition findMessageInputs (p : platform) (nodes : list node) : list node :=
  match p with
  | linkedin => findLinkedInInputs nodes
  | gmail => findGmailInputs nodes
  | web => []
  end.

(** What attaching changes: the nodes carrying
    [dataset.aiComposerAttached], the nodes given the composer's
    listeners (one entry per call of [attachToInput]), and
    [this.latestDraft]. *)
Record attachment := Attachment {
  flagged : gset nat;
  listening : list nat;
  latestDraft : option string
}.

(** The composer as constructed. *)
Definition initial : attachment := Attachment ∅ [] (Some "").

Definition attachToInput (input : node) (a : attachment) : attachment :=
  Attachment (flagged a) (listening a ++ [nodeId input]) (getInputText (asInput input)).

(** One iteration of the [forEach] of [checkForMessageInputs]. *)
Definition visitInput (a : attachment) (input : node) : attachment :=
  if bool_decide (nodeId input ∈ flagged a) then a
  else
    let a := attachToInput input a in
    Attachment ({[nodeId input]} ∪ flagged a) (listening a) (latestDraft a).

Definition checkForMessageInputs (p : platform) (nodes : list node) (a : attachment)
    : attachment :=
  foldl visitInput a (findMessageInputs p nodes).

(** [observeMessageInputs]: the initial check and one check per
    mutation of the page, each on the nodes the page has by then. *)
Definition observeMessageInputs (p : platform) (pages : list (list node)) : attachment :=
  foldl (fun a nodes => checkForMessageInputs p nodes a) initial pages.

End Attach.

(** The listeners and the flags go together, one listener set per node. *)
Definition attachedOnce (a : Attach.attachment) : Prop :=
  NoDup (Attach.listening a)
  /\ forall id, id ∈ Attach.listening a <-> id ∈ Attach.flagged a.

(* ===================================================================== *)
(** ** Step 3 of [handleRewrite] when the scrape takes time *)
(* ===================================================================== *)

(** Calling an async function whose body has no [await] and takes
    [cost] milliseconds to run: the caller is held until the body has
    run, and the promise it then holds is already settled. *)
Definition callRunning {A : Type} (cost : nat) (body : Async A) : Async (promise A) :=
  fun now =>
    let '(ev, p) := body now in
    (ev, Some (now + cost,
               Normal (match p with
                       | Some (_, r) => Some (now + cost, r)
                       | None => None
                       end))).

(** STEP 3 of [handleRewrite] with a scrape that takes [cost]
    milliseconds: [scrapeConversationContext] has no [await], so the
    timer is only created once the scrape has run. *)
Definition scrapeTaking (cost : nat) (w : world) (p : platform) (pg : page)
    : Async (list contextMessage) :=
  contextPromise ← callRunning cost (scrapeConversationContext w p pg);
  timer ← timeout DEADLINE [];
  await (race [contextPromise; timer]).

(** [handleRewrite(input)] around a given STEP 3. *)
Definition handleRewriteFrom (contextStep : Async (list contextMessage))
    (w : world) (p : platform) (pg : page) (input : option inputElement) : Async unit :=
  let input := match input with Some el => Some el | None => activeElement pg end in
  match input with
  | None => mret tt
  | Some input =>
      if negb (isMessageInput input) then mret tt
      else
        match getInputText input with
        | Some userInput =>
            if String.eqb (trim userInput) "" then emit (Alert "Please write a message first!")
            else
              tryCatch
                (conversationContext ← contextStep;
                 sendAndApply w p pg userInput conversationContext)
                (fun error =>
                   _ ← emit (Log (ConsoleError "EXCEPTION CAUGHT:" error));
                   emit (Alert ("Failed to rewrite message: " +:+ errMessage error)))
        | None => emit (Alert "Please write a message first!")
        end
  end.

(** [handleRewrite] on a page whose scrape takes [cost] milliseconds. *)
Definition handleRewriteTaking (cost : nat) (w : world) (p : platform) (pg : page)
    (input : option inputElement) : Async unit :=
  handleRewriteFrom (scrapeTaking cost w p pg) w p pg input.

(* ===================================================================== *)
(** ** Threads and worlds the properties are tried on *)
(* ===================================================================== *)

(** A Gmail thread node whose body and sender read without raising. *)
Definition plainEmail (shown sender : string) : emailElement :=
  EmailElement (Normal (Some (Element (Normal (Some shown)) (Normal (Some shown)))))
               (Normal (Some (Element (Normal (Some sender)) (Normal (Some sender))))).

(** A thread node in which no text element is found. *)
Definition emptyGroup : messageGroup := MessageGroup (Normal None) (Normal false).

(** Following the claim's words, to compare the scrapers with: of the
    messages of a thread, listed oldest first, the [maxMessages] most
    recent ones, oldest first. *)
Definition claimedContext (maxMessages : nat) (messages : list contextMessage)
    : list contextMessage :=
  mostRecent maxMessages messages.

(** A LinkedIn thread of three messages. *)
Definition threeMessages : document :=
  Document (Normal (Some (Normal [plainGroup "sent at t1" true;
                                  plainGroup "sent at t2" false;
                                  plainGroup "sent at t3" true])))
           (Normal []).

(** A LinkedIn thread of one message followed by five nodes without
    text. *)
Definition oneMessageThenEvents : document :=
  Document (Normal (Some (Normal (plainGroup "sent at t1" true :: replicate 5 emptyGroup))))
           (Normal []).

(** A world whose message port to the worker is down. *)
Definition portDown : world :=
  World None true (fun _ _ _ => None)
        (fun _ _ => Some (JsError "Error" "Extension context invalidated."))
        (fun _ => "T").

(** A world in which the rewrite call is rejected with an error whose
    message is empty. *)
Definition namelessFailure : world :=
  World None true (fun t _ _ => Some (t + 300, Throw (JsError "Error" "")))
        (fun _ _ => None) (fun _ => "T").

(* ===================================================================== *)
(** * Properties *)
(* ===================================================================== *)

(** ** Strings *)

Lemma trimEnd_empty (s : string) : trimEnd s = "" <-> allWhiteSpace s = true.
Proof.
  induction s as [|c rest IH]; simpl; [done|].
  destruct (trimEnd rest) eqn:Hrest.
  - destruct (isWhiteSpace c); simpl.
    + split; [intros _; by apply IH | done].
    + split; [done | intros [=]].
  - split; [done|].
    intros [_ Hall]%andb_true_iff. apply IH in Hall. done.
Qed.

Lemma allWhiteSpace_trimStart (s : string) :
  allWhiteSpace (trimStart s) = allWhiteSpace s.
Proof.
  induction s as [|c rest IH]; simpl; [done|].
  destruct (isWhiteSpace c) eqn:Hc; simpl; [done|]. by rewrite Hc.
Qed.

Lemma trim_empty (s : string) : trim s = "" <-> allWhiteSpace s = true.
Proof. unfold trim. by rewrite trimEnd_empty, allWhiteSpace_trimStart. Qed.

Lemma truthy_trim_false (s : string) :
  truthy (Some (trim s)) = false <-> allWhiteSpace s = true.
Proof.
  rewrite <- trim_empty. destruct (trim s); simpl; split; done.
Qed.

(** The guard of [handleStoreConversation] is the blank test. *)
Lemma store_guard_blank (message : option string) :
  negb (truthy message) || negb (truthy (option_map trim message)) = blankMessage message.
Proof.
  destruct message as [s|]; simpl; [|done].
  destruct s as [|c rest]; [done|].
  change (negb (truthy (Some (trim (String c rest))))
          = allWhiteSpace (String c rest)).
  destruct (allWhiteSpace (String c rest)) eqn:Hall.
  - apply truthy_trim_false in Hall. by rewrite Hall.
  - destruct (truthy (Some (trim (String c rest)))) eqn:Ht; [done|].
    apply truthy_trim_false in Ht. congruence.
Qed.

(** ** Counters *)

(** C10. [updateStats(statName)] stores the previous value of the
    counter plus one, a missing counter counting as 0, and changes no
    other key of the storage. *)
Theorem updateStats_increments_only_statName (statName : string) (storage : gmap string N) :
  updateStats statName storage !! statName
    = Some (default 0%N (storage !! statName) + 1)%N
  /\ forall other : string,
       other <> statName -> updateStats statName storage !! other = storage !! other.
Proof.
  unfold updateStats. split.
  - apply lookup_insert_eq.
  - intros other Hne. by apply lookup_insert_ne.
Qed.

Lemma updateStats_increments_only_statName_witness :
  let storage : gmap string N := {[ "messageCount" := 2%N; "conversationCount" := 7%N ]} in
  updateStats "messageCount" storage !! "messageCount" = Some 3%N
  /\ updateStats "messageCount" storage !! "conversationCount" = Some 7%N
  /\ updateStats "messageCount" ∅ !! "messageCount" = Some 1%N.
Proof.
  intros storage.
  destruct (updateStats_increments_only_statName "messageCount" storage) as [Hown Hframe].
  destruct (updateStats_increments_only_statName "messageCount" ∅) as [Hnew _].
  split; [|split].
  - rewrite Hown. reflexivity.
  - rewrite (Hframe "conversationCount"); [reflexivity | discriminate].
  - rewrite Hnew. reflexivity.
Defined.

(** ** Storing a conversation *)

(** The network calls of [handleStoreConversation]: none for a blank
    message, one for any other, carrying it. *)
Lemma handleStoreConversation_calls (w : world) (data : storeData) (now : nat) :
  fetchBodies (handleStoreConversation w data now).1
    = match sd_message data with
      | Some message =>
          if blankMessage (Some message) then []
          else [StoreConversationBody (platformName (sd_platform data))
                  (sd_recipient data) message (sd_isOutgoing data) (isoTime w now)]
      | None => []
      end.
Proof.
  unfold handleStoreConversation. rewrite store_guard_blank.
  destruct (sd_message data) as [message|] eqn:Hmsg; [|done].
  destruct (blankMessage (Some message)); [done|].
  unfold tryCatch, mbind, async_bind, currentTime, fetchCall, await, throw, emit.
  simpl.
  destruct (fetch w now _ _) as [[t' [resp|e]]|]; simpl;
    [destruct (ok resp); simpl;
     [destruct (bodyJson resp) as [[t'' [j|e]]|]; simpl|]| |];
    reflexivity.
Qed.

(** C9. A store-conversation request whose message is absent, empty or
    white space only is answered [{status: 'skipped'}] at once, with no
    network call and no other effect; a network call, the only way a
    message reaches the store, is made for a message that is not blank
    only, and carries that message. *)
Theorem handleStoreConversation_skips_blank (w : world) (data : storeData) (now : nat) :
  (blankMessage (sd_message data) = true ->
     handleStoreConversation w data now = ([], Some (now, Normal (StatusReply "skipped")))
     /\ onMessage w (StoreConversation data) now
        = ([], Some (now, Normal (Success (StatusReply "skipped")))))
  /\ (fetchBodies (handleStoreConversation w data now).1 <> [] ->
        blankMessage (sd_message data) = false
        /\ exists message,
             sd_message data = Some message
             /\ fetchBodies (handleStoreConversation w data now).1
                = [StoreConversationBody (platformName (sd_platform data))
                     (sd_recipient data) message (sd_isOutgoing data) (isoTime w now)]).
Proof.
  split.
  - intros Hblank. unfold onMessage, respond, handleStoreConversation.
    rewrite store_guard_blank, Hblank. split; reflexivity.
  - rewrite handleStoreConversation_calls.
    destruct (sd_message data) as [message|]; [|done].
    destruct (blankMessage (Some message)) eqn:Hblank; [done|].
    intros _. split; [done|]. by exists message.
Qed.

Lemma handleStoreConversation_skips_blank_witness :
  let w := World None true (fun _ _ _ => None) (fun _ _ => None) (fun _ => "2024-01-01T00:00:00.000Z") in
  handleStoreConversation w (StoreData linkedin "John Doe" (Some "  ") true) 0
    = ([], Some (0, Normal (StatusReply "skipped")))
  /\ fetchBodies (handleStoreConversation w (StoreData linkedin "John Doe" (Some " hi ") true) 0).1
     = [StoreConversationBody "linkedin" "John Doe" " hi " true "2024-01-01T00:00:00.000Z"].
Proof.
  intros w. split.
  - apply (handleStoreConversation_skips_blank w
             (StoreData linkedin "John Doe" (Some "  ") true) 0).
    reflexivity.
  - destruct (handleStoreConversation_skips_blank w
                (StoreData linkedin "John Doe" (Some " hi ") true) 0) as [_ Hcalls].
    destruct Hcalls as [_ [message [Hmsg Hbody]]]; [vm_compute; discriminate|].
    injection Hmsg as <-. exact Hbody.
Defined.

(** ** Loops that push onto an array *)

Lemma pushLoop_collected {E A : Type} (f : E -> completion (option A))
    (items : list E) (index : nat) (pushed : list A) :
  (pushLoop (fun _ item _ => f item) index items pushed).1
    = pushed ++ collectedBeforeThrow f items.
Proof.
  revert index pushed.
  induction items as [|item rest IH]; intros index pushed; simpl.
  - by rewrite app_nil_r.
  - destruct (f item) as [[a|]|e]; simpl.
    + rewrite IH. by rewrite <- app_assoc.
    + apply IH.
    + by rewrite app_nil_r.
Qed.

Lemma collectedBeforeThrow_length {E A : Type} (f : E -> completion (option A))
    (items : list E) :
  length (collectedBeforeThrow f items) <= length items.
Proof.
  induction items as [|item rest IH]; simpl; [lia|].
  destruct (f item) as [[a|]|e]; simpl; lia.
Qed.

(** A loop whose callback only pushes below an index bound pushes at
    most that many values. *)
Lemma pushLoop_cap {E A : Type} (visit : nat -> E -> list A -> completion (option A))
    (cap : nat) :
  (forall index item pushed a, visit index item pushed = Normal (Some a) -> index < cap) ->
  forall items index pushed,
    length (pushLoop visit index items pushed).1 <= length pushed + (cap - index).
Proof.
  intros Hcap. induction items as [|item rest IH]; intros index pushed; simpl; [lia|].
  destruct (visit index item pushed) as [[a|]|e] eqn:Hvisit; simpl.
  - apply Hcap in Hvisit. specialize (IH (S index) (pushed ++ [a])).
    rewrite length_app in IH. simpl in IH. lia.
  - specialize (IH (S index) pushed). lia.
  - lia.
Qed.

(** ** [slice] with a negative start *)

Lemma slice_negative {A : Type} (n : nat) (l : list A) :
  0 < n -> slice (- Z.of_nat n) l = mostRecent n l.
Proof.
  intros Hn. unfold slice, mostRecent.
  replace (- Z.of_nat n <? 0)%Z with true by (symmetry; apply Z.ltb_lt; lia).
  rewrite take_reverse, reverse_involutive. f_equal. lia.
Qed.

Lemma mostRecent_length {A : Type} (n : nat) (l : list A) :
  length (mostRecent n l) <= n.
Proof.
  unfold mostRecent. rewrite length_reverse, length_take. lia.
Qed.

Lemma catchAndReturn_normal {A : Type} (log : jsError -> logEntry)
    (r : A * completion unit) :
  (catchAndReturn log r).1 = Normal r.1.
Proof. by destruct r as [value [[]|e]]. Qed.

Lemma linkedInTry_collected (maxMessages : nat) (clock : string) (doc : document) :
  (linkedInTry maxMessages clock doc).1
    = match messageList doc with
      | Normal (Some (Normal groups)) =>
          collectedBeforeThrow (linkedInMessage clock) (slice (- Z.of_nat maxMessages) groups)
      | _ => []
      end.
Proof.
  unfold linkedInTry.
  destruct (messageList doc) as [[[groups|e]|]|e]; simpl; try done.
  by rewrite pushLoop_collected.
Qed.

Lemma gmailTry_collected (maxMessages : nat) (clock : string) (doc : document) :
  (gmailTry maxMessages clock doc).1
    = match emailThread doc with
      | Normal emails =>
          collectedBeforeThrow (gmailMessage clock) (slice (- Z.of_nat maxMessages) emails)
      | Throw _ => []
      end.
Proof.
  unfold gmailTry.
  destruct (emailThread doc) as [emails|e]; simpl; try done.
  by rewrite pushLoop_collected.
Qed.

Lemma linkedInMessage_plain (clock shown : string) (outgoing : bool) :
  trim shown <> "" ->
  linkedInMessage clock (plainGroup shown outgoing)
    = Normal (Some (ContextMessage (trim shown) outgoing clock)).
Proof.
  intros Hshown. unfold linkedInMessage, plainGroup, elementText, optTrim. simpl.
  destruct (trim shown) as [|c rest]; [done|]. reflexivity.
Qed.

(** ** Context retrieval: bound, recency and order *)

Lemma gmailMessage_plain (clock shown sender : string) :
  trim shown <> "" ->
  gmailMessage clock (plainEmail shown sender)
    = Normal (Some (ContextMessage (trim shown) (includes "me" sender) clock)).
Proof.
  intros Hshown. unfold gmailMessage, plainEmail, elementText, optTrim, fromMe.
  cbn [em_body em_from innerText textContent mbind completion_bind mret completion_ret
       option_map].
  destruct (trim shown) as [|c rest]; [done|]. reflexivity.
Qed.

Lemma pushLoop_all_pushed {S E A : Type} (f : E -> completion (option A))
    (node : S -> E) (entry : S -> A) (shown : list S) (index : nat) (pushed : list A) :
  Forall (fun s => f (node s) = Normal (Some (entry s))) shown ->
  pushLoop (fun _ item _ => f item) index (node <$> shown) pushed
    = (pushed ++ (entry <$> shown), Normal tt).
Proof.
  intros Hshown. revert index pushed.
  induction Hshown as [|s rest Hs _ IH]; intros index pushed; simpl.
  - by rewrite app_nil_r.
  - rewrite Hs, IH. by rewrite <- app_assoc.
Qed.

Lemma mostRecent_fmap {A B : Type} (f : A -> B) (n : nat) (l : list A) :
  mostRecent n (f <$> l) = f <$> mostRecent n l.
Proof.
  unfold mostRecent. by rewrite <- fmap_reverse, <- fmap_take, <- fmap_reverse.
Qed.




(** ** Profile capture: the caps of the sub-lists *)

Lemma experienceVisit_cap index item pushed a :
  experienceVisit index item pushed = Normal (Some a) -> index < 5.
Proof.
  unfold experienceVisit. destruct (index <? 5) eqn:Hlt; [|done].
  intros _. by apply Nat.ltb_lt.
Qed.

Lemma educationVisit_cap index item pushed a :
  educationVisit index item pushed = Normal (Some a) -> index < 3.
Proof.
  unfold educationVisit. destruct (index <? 3) eqn:Hlt; [|done].
  intros _. by apply Nat.ltb_lt.
Qed.

Lemma skillVisit_cap index item pushed a :
  skillVisit index item pushed = Normal (Some a) -> index < 10.
Proof.
  unfold skillVisit. destruct (index <? 10) eqn:Hlt; [|done].
  intros _. by apply Nat.ltb_lt.
Qed.

Lemma scalarStep_caps query assign data data' :
  (forall v d, withinCaps d -> withinCaps (assign v d)) ->
  withinCaps data -> scalarStep query assign data = Normal data' -> withinCaps data'.
Proof.
  intros Hassign Hdata. unfold scalarStep.
  destruct query as [[el|]|e]; simpl; [|by intros [= <-]|done].
  destruct (textContentTrim el) as [v|e]; simpl; [|done].
  intros [= <-]. by apply Hassign.
Qed.

Lemma listStep_caps {E A : Type} section (visit : nat -> E -> list A -> completion (option A))
    assign (cap : nat) data data' :
  (forall index item pushed a, visit index item pushed = Normal (Some a) -> index < cap) ->
  (forall l d, length l <= cap -> withinCaps d -> withinCaps (assign l d)) ->
  withinCaps data -> listStep section visit assign data = Normal data' -> withinCaps data'.
Proof.
  intros Hvisit Hassign Hdata. unfold listStep.
  destruct section as [[[items|e]|]|e]; simpl; [|done|by intros [= <-]|done].
  pose proof (pushLoop_cap visit cap Hvisit items 0 []) as Hlen.
  destruct (pushLoop visit 0 items []) as [pushed [[]|e]]; simpl in *; [|by destruct pushed].
  destruct pushed as [|a pushed]; intros [= <-]; [done|].
  apply Hassign; [simpl in *; lia | done].
Qed.

Lemma runSteps_invariant {S : Type} (P : S -> Prop)
    (steps : list (S -> completion S)) (data : S) :
  Forall (fun step => forall d d', P d -> step d = Normal d' -> P d') steps ->
  P data -> P (runSteps steps data).1.
Proof.
  intros Hsteps. revert data.
  induction Hsteps as [|step rest Hstep _ IH]; intros data Hdata; simpl; [done|].
  destruct (step data) as [data'|e] eqn:Hrun; simpl; [|done].
  apply IH. by eapply Hstep.
Qed.

Lemma profileSteps_caps (doc : profileDocument) :
  Forall (fun step => forall d d', withinCaps d -> step d = Normal d' -> withinCaps d')
         (profileSteps doc).
Proof.
  unfold profileSteps. repeat apply Forall_cons_2; [..|apply Forall_nil_2];
    intros d d' Hd Hrun.
  - by eapply scalarStep_caps in Hrun.
  - by eapply scalarStep_caps in Hrun.
  - by eapply scalarStep_caps in Hrun.
  - unfold aboutStep in Hrun.
    destruct (pd_about doc) as [[query|]|e]; simpl in Hrun; [|by injection Hrun as <-|done].
    by eapply scalarStep_caps in Hrun.
  - eapply (listStep_caps _ _ _ 5) in Hrun; eauto using experienceVisit_cap.
    intros l d0 Hl (_ & ? & ?). by repeat split.
  - eapply (listStep_caps _ _ _ 3) in Hrun; eauto using educationVisit_cap.
    intros l d0 Hl (? & _ & ?). by repeat split.
  - eapply (listStep_caps _ _ _ 10) in Hrun; eauto using skillVisit_cap.
    intros l d0 Hl (? & ? & _). by repeat split.
Qed.

(** C6. Every profile capture yields a [profile_data] object whose
    experience list has at most 5 entries, whose education list has at
    most 3 and whose skills list has at most 10. *)
Theorem captured_profile_lists_are_capped (p : platform) (doc : profileDocument) :
  exists data,
    captureProfileData p doc = Normal data
    /\ length (default [] (pf_experience data)) <= 5
    /\ length (default [] (pf_education data)) <= 3
    /\ length (default [] (pf_skills data)) <= 10.
Proof.
  assert (withinCaps emptyProfile) as Hempty by (repeat split; simpl; lia).
  destruct p; simpl.
  - exists (runSteps (profileSteps doc) emptyProfile).1. split.
    + unfold scrapeLinkedInProfile. apply catchAndReturn_normal.
    + apply (runSteps_invariant withinCaps); [apply profileSteps_caps | done].
  - by exists emptyProfile.
  - by exists emptyProfile.
Qed.

(** ** The deadline race *)

Lemma scrapeWithDeadline_run (scrape : Async (list contextMessage)) (now : nat) :
  scrapeWithDeadline scrape now
    = ((scrape now).1,
       match (scrape now).2 with
       | Some (t, r) =>
           if now + DEADLINE <? t then Some (now + DEADLINE, Normal [])
           else Some (Nat.max now t, r)
       | None => Some (now + DEADLINE, Normal [])
       end).
Proof.
  unfold scrapeWithDeadline, mbind, async_bind, call, timeout, await, race.
  destruct (scrape now) as [ev [[t r]|]]; simpl; rewrite !app_nil_r.
  - destruct (now + DEADLINE <? t); simpl; [|done].
    do 3 f_equal. lia.
  - do 3 f_equal. lia.
Qed.

Lemma scrapeWithDeadline_pending (scrape : Async (list contextMessage)) (now : nat) :
  pendingAt (scrape now).2 (now + DEADLINE) = true ->
  scrapeWithDeadline scrape now = ((scrape now).1, Some (now + DEADLINE, Normal [])).
Proof.
  intros Hpending. rewrite scrapeWithDeadline_run.
  destruct (scrape now).2 as [[t r]|]; simpl in *; [|done]. by rewrite Hpending.
Qed.

Lemma scrapeWithDeadline_settled (scrape : Async (list contextMessage)) (now : nat) r :
  (scrape now).2 = Some (now, r) ->
  scrapeWithDeadline scrape now = ((scrape now).1, Some (now, r)).
Proof.
  intros Hnow. rewrite scrapeWithDeadline_run, Hnow.
  replace (now + DEADLINE <? now) with false by (symmetry; apply Nat.ltb_ge; lia).
  by rewrite Nat.max_id.
Qed.

(** ** The shipped scraper inside [handleRewrite] *)

Lemma scrapedNow_normal (w : world) (p : platform) (pg : page) (now : nat) :
  exists messages, (scrapedNow w p pg now).1 = Normal messages.
Proof.
  destruct p; simpl; unfold scrapeLinkedInContext, scrapeGmailContext;
    rewrite ?catchAndReturn_normal; eauto.
Qed.

Lemma scrapeConversationContext_run (w : world) (p : platform) (pg : page) (now : nat) :
  scrapeConversationContext w p pg now
    = ((fun entry => (now, Log entry)) <$> (scrapedNow w p pg now).2,
       Some (now, (scrapedNow w p pg now).1)).
Proof.
  unfold scrapeConversationContext, scrapedNow, mbind, async_bind, currentTime.
  destruct p; simpl.
  - destruct (scrapeLinkedInContext (isoTime w now) (dom pg)) as [r logs]; simpl.
    by rewrite app_nil_r.
  - destruct (scrapeGmailContext (isoTime w now) (dom pg)) as [r logs]; simpl.
    by rewrite app_nil_r.
  - done.
Qed.

Lemma handleRewriteWith_draft (scrape : Async (list contextMessage)) (w : world)
    (p : platform) (pg : page) (input : option inputElement) (userInput : string) :
  draftOf pg input = Some userInput ->
  handleRewriteWith scrape w p pg input
    = tryCatch
        (conversationContext ← scrapeWithDeadline scrape;
         sendAndApply w p pg userInput conversationContext)
        (fun error =>
           _ ← emit (Log (ConsoleError "EXCEPTION CAUGHT:" error));
           emit (Alert ("Failed to rewrite message: " +:+ errMessage error))).
Proof.
  unfold draftOf, handleRewriteWith.
  destruct (match input with Some el => Some el | None => activeElement pg end) as [el|];
    [|done].
  destruct (isMessageInput el); simpl; [|done].
  destruct (getInputText el) as [s|]; [|done].
  destruct (String.eqb (trim s) ""); [done|]. by intros [= ->].
Qed.

(** ** Effects of composed async bodies *)

Lemma async_bind_events {A B : Type} (f : A -> Async B) (c : Async A) (now : nat) :
  exists more, ((x ← c; f x) now).1 = (c now).1 ++ more.
Proof.
  unfold mbind, async_bind.
  destruct (c now) as [ev [[t [a|e]]|]]; simpl.
  - destruct (f a t) as [ev' pr]. simpl. eauto.
  - exists []. by rewrite app_nil_r.
  - exists []. by rewrite app_nil_r.
Qed.

Lemma tryCatch_events {A : Type} (body : Async A) (handler : jsError -> Async A)
    (now : nat) :
  exists more, (tryCatch body handler now).1 = (body now).1 ++ more.
Proof.
  unfold tryCatch.
  destruct (body now) as [ev [[t [a|e]]|]]; simpl.
  - exists []. by rewrite app_nil_r.
  - destruct (handler e t) as [ev' pr]. simpl. eauto.
  - exists []. by rewrite app_nil_r.
Qed.

Lemma sendMessage_events (w : world) (req : request) (t : nat) :
  exists rest, (sendMessage w req t).1 = (t, PostMessage req) :: rest.
Proof.
  unfold sendMessage. destruct (portError w t req) as [e|]; [simpl; eauto|].
  destruct (onMessage w req t) as [ev pr]. simpl. eauto.
Qed.

(** The first thing steps 4 to 7 do is to post the rewrite request. *)
Lemma sendAndApply_posts (w : world) (p : platform) (pg : page) (userInput : string)
    (conversationContext : list contextMessage) (t : nat) :
  exists rest,
    (sendAndApply w p pg userInput conversationContext t).1
      = (t, PostMessage (RewriteMessage
                           (RewriteData p userInput conversationContext (getRecipient p pg))))
        :: rest.
Proof.
  unfold sendAndApply.
  match goal with
  | |- context [(mbind ?f ?c t).1] => destruct (async_bind_events f c t) as [more ->]
  end.
  match goal with
  | |- context [(sendMessage w ?req t).1] =>
      destruct (sendMessage_events w req t) as [rest ->]
  end.
  simpl. eauto.
Qed.

(** With a draft to rewrite, the flow is the context retrieval followed
    by steps 4 to 7 on whatever context the race delivers. *)
Lemma handleRewriteWith_events (scrape : Async (list contextMessage)) (w : world)
    (p : platform) (pg : page) (input : option inputElement) (userInput : string)
    (now t : nat) (conversationContext : list contextMessage) :
  draftOf pg input = Some userInput ->
  (scrapeWithDeadline scrape now).2 = Some (t, Normal conversationContext) ->
  exists rest,
    (handleRewriteWith scrape w p pg input now).1
      = (scrape now).1
        ++ (t, PostMessage (RewriteMessage
                              (RewriteData p userInput conversationContext
                                           (getRecipient p pg))))
        :: rest.
Proof.
  intros Hdraft Hrace.
  rewrite (handleRewriteWith_draft _ _ _ _ _ _ Hdraft).
  pose proof (scrapeWithDeadline_run scrape now) as Hrun.
  destruct (scrapeWithDeadline scrape now) as [ev pr] eqn:Hscrape.
  simpl in Hrace. subst pr. injection Hrun as Hev _.
  destruct (sendAndApply_posts w p pg userInput conversationContext t) as [rest Hrest].
  match goal with
  | |- context [(tryCatch ?b ?h now).1] => destruct (tryCatch_events b h now) as [more ->]
  end.
  unfold mbind, async_bind. rewrite Hscrape.
  destruct (sendAndApply w p pg userInput conversationContext t) as [ev' pr'].
  simpl in Hrest. subst ev ev'. simpl.
  exists (rest ++ more). by rewrite <- app_assoc.
Qed.

(** ** Deadline safety *)

(** What the race of step 3 does with a retrieval that is still pending
    one second after the call: the timer wins, the context is the empty
    list, and the request is posted at the deadline.  This is what the
    comments of step 3 announce ("max 1 second", "continuing without
    context"). *)
Lemma race_gives_empty_at_deadline (scrape : Async (list contextMessage)) (w : world)
    (p : platform) (pg : page) (input : option inputElement) (userInput : string)
    (now : nat) :
  draftOf pg input = Some userInput ->
  pendingAt (scrape now).2 (now + DEADLINE) = true ->
  (scrapeWithDeadline scrape now).2 = Some (now + DEADLINE, Normal [])
  /\ (exists rest,
        (handleRewriteWith scrape w p pg input now).1
          = (scrape now).1
            ++ (now + DEADLINE,
                PostMessage (RewriteMessage (RewriteData p userInput [] (getRecipient p pg))))
            :: rest).
Proof.
  intros Hdraft Hpending.
  pose proof (scrapeWithDeadline_pending scrape now Hpending) as Hrace.
  split; [by rewrite Hrace|].
  eapply handleRewriteWith_events; [done|]. by rewrite Hrace.
Qed.

(** ** The read path absorbs its exceptions *)

(** C5. On every document the context scrapers return normally: an
    exception raised while the thread is read is caught, and the result
    is the list of messages pushed before it (empty when the thread was
    not found or could not be listed).  The rewrite then goes on: the
    promise of [scrapeConversationContext] is fulfilled at once with
    that list and the rewrite request is posted with it. *)
Theorem scraping_never_fails_compose (w : world) (p : platform) (pg : page)
    (input : option inputElement) (userInput : string) (now : nat) :
  (forall clock doc,
     (scrapeLinkedInContext clock doc).1
       = Normal (match messageList doc with
                 | Normal (Some (Normal groups)) =>
                     collectedBeforeThrow (linkedInMessage clock) (slice (-5) groups)
                 | _ => []
                 end)
     /\ (scrapeGmailContext clock doc).1
        = Normal (match emailThread doc with
                  | Normal emails =>
                      collectedBeforeThrow (gmailMessage clock) (slice (-5) emails)
                  | Throw _ => []
                  end))
  /\ (draftOf pg input = Some userInput ->
      exists collected rest,
        (scrapedNow w p pg now).1 = Normal collected
        /\ (scrapeConversationContext w p pg now).2 = Some (now, Normal collected)
        /\ (handleRewrite w p pg input now).1
           = (scrapeConversationContext w p pg now).1
             ++ (now, PostMessage (RewriteMessage
                                     (RewriteData p userInput collected (getRecipient p pg))))
             :: rest).
Proof.
  split.
  - intros clock doc. unfold scrapeLinkedInContext, scrapeGmailContext.
    rewrite !catchAndReturn_normal, linkedInTry_collected, gmailTry_collected. done.
  - intros Hdraft.
    destruct (scrapedNow_normal w p pg now) as [collected Hcollected].
    assert ((scrapeConversationContext w p pg now).2 = Some (now, Normal collected))
      as Hpromise by (by rewrite scrapeConversationContext_run, Hcollected).
    destruct (handleRewriteWith_events (scrapeConversationContext w p pg) w p pg input
                userInput now now collected Hdraft) as [rest Hrest].
    { by rewrite (scrapeWithDeadline_settled _ _ _ Hpromise). }
    exists collected, rest. done.
Qed.

Lemma scraping_never_fails_compose_witness :
  let broken := MessageGroup (Throw (JsError "Error" "detached node")) (Normal false) in
  let doc := Document (Normal (Some (Normal [plainGroup "hello" true; broken;
                                             plainGroup "later" false])))
                      (Throw (JsError "Error" "no thread")) in
  let w := World None false (fun _ _ _ => None) (fun _ _ => None) (fun _ => "T") in
  let draft := InputElement false "TEXTAREA" (Some "thanks!") in
  let pg := Page doc "https://www.linkedin.com/messaging/" None (Some "John Doe")
                 None None None in
  scrapeLinkedInContext "T" doc
    = (Normal [ContextMessage "hello" true "T"],
       [ConsoleWarn "Error scraping LinkedIn context:" (JsError "Error" "detached node")])
  /\ (scrapeGmailContext "T" doc).1 = Normal []
  /\ exists rest,
       (handleRewrite w linkedin pg (Some draft) 7).1
         = [(7, Log (ConsoleWarn "Error scraping LinkedIn context:"
                                 (JsError "Error" "detached node")));
            (7, PostMessage (RewriteMessage
                               (RewriteData linkedin "thanks!"
                                            [ContextMessage "hello" true "T"] "John Doe")))]
           ++ rest.
Proof.
  intros broken doc w draft pg.
  destruct (scraping_never_fails_compose w linkedin pg (Some draft) "thanks!" 7)
    as [Hscrapers Hcompose].
  destruct (Hscrapers "T" doc) as [_ Hgmail].
  destruct Hcompose as (collected & rest & Hcollected & _ & Hevents); [reflexivity|].
  split; [reflexivity | split; [exact Hgmail|]].
  exists rest. rewrite Hevents.
  injection Hcollected as <-. reflexivity.
Defined.

(** ** Running composed async bodies *)

Lemma async_bind_normal {A B : Type} (f : A -> Async B) (c : Async A)
    (now t : nat) (ev : events) (a : A) :
  c now = (ev, Some (t, Normal a)) ->
  (x ← c; f x) now = (ev ++ (f a t).1, (f a t).2).
Proof.
  intros Hc. unfold mbind, async_bind. rewrite Hc. by destruct (f a t).
Qed.

Lemma async_bind_throw {A B : Type} (f : A -> Async B) (c : Async A)
    (now t : nat) (ev : events) (e : jsError) :
  c now = (ev, Some (t, Throw e)) ->
  (x ← c; f x) now = (ev, Some (t, Throw e)).
Proof. intros Hc. unfold mbind, async_bind. by rewrite Hc. Qed.

Lemma tryCatch_normal {A : Type} (body : Async A) (handler : jsError -> Async A)
    (now t : nat) (ev : events) (a : A) :
  body now = (ev, Some (t, Normal a)) ->
  tryCatch body handler now = (ev, Some (t, Normal a)).
Proof. intros Hbody. unfold tryCatch. by rewrite Hbody. Qed.

Lemma tryCatch_throw {A : Type} (body : Async A) (handler : jsError -> Async A)
    (now t : nat) (ev : events) (e : jsError) :
  body now = (ev, Some (t, Throw e)) ->
  tryCatch body handler now = (ev ++ (handler e t).1, (handler e t).2).
Proof. intros Hbody. unfold tryCatch. rewrite Hbody. by destruct (handler e t). Qed.

Lemma surjective_run {A : Type} (c : Async A) (now : nat) :
  c now = ((c now).1, (c now).2).
Proof. by destruct (c now). Qed.

(** ** Effects of a kind *)

Lemma only_app (kind : effect -> bool) (ev ev' : events) :
  only kind (ev ++ ev') = only kind ev ++ only kind ev'.
Proof. apply omap_app. Qed.

Lemma only_cons (kind : effect -> bool) (t : nat) (e : effect) (ev : events) :
  only kind ((t, e) :: ev) = (if kind e then [(t, e)] else []) ++ only kind ev.
Proof. unfold only. simpl. by destruct (kind e). Qed.

Lemma alerts_app (ev ev' : events) : alerts (ev ++ ev') = alerts ev ++ alerts ev'.
Proof. apply omap_app. Qed.

Lemma alerts_only (ev : events) : alerts ev = alerts (only isAlert ev).
Proof.
  induction ev as [|[t e] ev IH]; simpl; [done|].
  unfold alerts, only in *. simpl.
  destruct e; simpl; by rewrite ?IH.
Qed.

Lemma only_alert_visible (ev : events) : only visible ev = [] -> only isAlert ev = [].
Proof.
  induction ev as [|[t e] ev IH]; [done|].
  unfold only in *. simpl. destruct e; simpl; try done; auto.
Qed.

Create HintDb silent discriminated.

Section Silent.

Context (kind : effect -> bool).

Lemma silent_ret {A : Type} (a : A) : silent kind (mret a : Async A).
Proof. by intros now. Qed.

Lemma silent_throw {A : Type} (e : jsError) : silent kind (throw e : Async A).
Proof. by intros now. Qed.

Lemma silent_lift {A : Type} (c : completion A) : silent kind (lift c).
Proof. by intros now. Qed.

Lemma silent_await {A : Type} (p : promise A) : silent kind (await p).
Proof. by intros now. Qed.

Lemma silent_currentTime : silent kind currentTime.
Proof. by intros now. Qed.

Lemma silent_emit (e : effect) : kind e = false -> silent kind (emit e).
Proof. intros He now. unfold only. simpl. by rewrite He. Qed.

Lemma silent_fetchCall (w : world) (url : string) (body : requestBody) :
  kind (FetchCall url body) = false -> silent kind (fetchCall w url body).
Proof. intros He now. unfold only. simpl. by rewrite He. Qed.

Lemma silent_logAll (entries : list logEntry) :
  (forall entry, kind (Log entry) = false) -> silent kind (logAll entries).
Proof.
  intros He now. unfold only, logAll. simpl.
  induction entries as [|entry rest IH]; simpl; [done|]. by rewrite He.
Qed.

Lemma silent_bind {A B : Type} (c : Async A) (f : A -> Async B) :
  silent kind c -> (forall a, silent kind (f a)) -> silent kind (x ← c; f x).
Proof.
  intros Hc Hf now. unfold mbind, async_bind.
  specialize (Hc now). destruct (c now) as [ev [[t [a|e]]|]]; simpl in *; try done.
  specialize (Hf a t). destruct (f a t) as [ev' pr]. simpl in *.
  by rewrite only_app, Hc, Hf.
Qed.

Lemma silent_tryCatch {A : Type} (body : Async A) (handler : jsError -> Async A) :
  silent kind body -> (forall e, silent kind (handler e)) -> silent kind (tryCatch body handler).
Proof.
  intros Hbody Hhandler now. unfold tryCatch.
  specialize (Hbody now). destruct (body now) as [ev [[t [a|e]]|]]; simpl in *; try done.
  specialize (Hhandler e t). destruct (handler e t) as [ev' pr]. simpl in *.
  by rewrite only_app, Hbody, Hhandler.
Qed.

Lemma silent_call {A : Type} (c : Async A) : silent kind c -> silent kind (call c).
Proof.
  intros Hc now. unfold call. specialize (Hc now). by destruct (c now).
Qed.

Lemma silent_if {A : Type} (b : bool) (c c' : Async A) :
  silent kind c -> silent kind c' -> silent kind (if b then c else c').
Proof. by destruct b. Qed.

End Silent.

#[local] Hint Resolve silent_ret silent_throw silent_lift silent_await silent_currentTime
  silent_emit silent_fetchCall silent_logAll silent_bind silent_tryCatch silent_call
  silent_if : silent.

#[local] Hint Extern 1 (visible _ = false) => reflexivity : silent.
#[local] Hint Extern 1 (forall _, visible _ = false) => intros; reflexivity : silent.

(** The background worker neither alerts nor touches the draft. *)
Lemma onMessage_silent (w : world) (req : request) : silent visible (onMessage w req).
Proof.
  destruct req as [data|data|data];
    unfold onMessage, respond, handleRewriteMessage, handleStoreConversation, handleChat;
    eauto 20 with silent.
Qed.

Lemma sendMessage_silent (w : world) (req : request) : silent visible (sendMessage w req).
Proof.
  intros now. unfold sendMessage.
  destruct (portError w now req) as [e|]; [done|].
  pose proof (onMessage_silent w req now) as Hworker.
  destruct (onMessage w req now) as [ev pr]. simpl in *.
  unfold only in *. simpl. done.
Qed.

(** Storing a message shows the user nothing and never raises: a
    failure ends in the console. *)
Lemma storeMessage_silent (w : world) (p : platform) (recipient message : string)
    (isOutgoing : bool) :
  silent visible (storeMessage w p recipient message isOutgoing).
Proof.
  unfold storeMessage. eauto 10 using sendMessage_silent with silent.
Qed.

Lemma storeMessage_never_throws (w : world) (p : platform) (recipient message : string)
    (isOutgoing : bool) (now t : nat) (e : jsError) :
  (storeMessage w p recipient message isOutgoing now).2 <> Some (t, Throw e).
Proof.
  unfold storeMessage, tryCatch, mbind, async_bind.
  destruct (sendMessage w _ now) as [ev [[t' [resp|e']]|]]; simpl; done.
Qed.

(** ** The worker's answer to a rewrite request *)

Lemma respond_throw (handler : Async reply) (now t : nat) (e : jsError) :
  (handler now).2 = Some (t, Throw e) ->
  respond handler now = ((handler now).1, Some (t, Normal (Failure (errMessage e)))).
Proof.
  intros Hrun. unfold respond.
  rewrite (tryCatch_throw _ _ now t (handler now).1 e).
  - simpl. by rewrite app_nil_r.
  - apply async_bind_throw. rewrite <- Hrun. apply surjective_run.
Qed.

Lemma respond_normal (handler : Async reply) (now t : nat) (data : reply) :
  (handler now).2 = Some (t, Normal data) ->
  respond handler now = ((handler now).1, Some (t, Normal (Success data))).
Proof.
  intros Hrun. unfold respond.
  rewrite (tryCatch_normal _ _ now t (handler now).1 (Success data)); [done|].
  rewrite (async_bind_normal _ _ now t (handler now).1 data).
  - simpl. by rewrite app_nil_r.
  - rewrite <- Hrun. apply surjective_run.
Qed.

Lemma respond_pending (handler : Async reply) (now : nat) :
  (handler now).2 = None -> respond handler now = ((handler now).1, None).
Proof.
  intros Hrun. unfold respond, tryCatch, mbind, async_bind.
  destruct (handler now) as [ev pr]. simpl in Hrun. by subst pr.
Qed.

Lemma sendMessage_run (w : world) (req : request) (now : nat) :
  portError w now req = None ->
  sendMessage w req now
    = ((now, PostMessage req) :: (onMessage w req now).1, (onMessage w req now).2).
Proof.
  intros Hport. unfold sendMessage. rewrite Hport. by destruct (onMessage w req now).
Qed.

(** A rejected [fetch] is rethrown as it is. *)
Lemma handleRewriteMessage_fetch_rejected (w : world) (data : rewriteData)
    (start t : nat) (e : jsError) :
  fetch w start (orElse (apiUrlSetting w) API_BASE_URL +:+ "/api/rewrite")
        (rewriteRequestBody data) = Some (t, Throw e) ->
  (handleRewriteMessage w data start).2 = Some (Nat.max start t, Throw e).
Proof.
  intros Hfetch.
  unfold handleRewriteMessage, tryCatch, mbind, async_bind, fetchCall, await.
  rewrite Hfetch. reflexivity.
Qed.

(** A response that is not [ok] becomes "API request failed: " followed
    by its status text. *)
Lemma handleRewriteMessage_not_ok (w : world) (data : rewriteData)
    (start t t' : nat) (r : httpResponse) (body : string) :
  fetch w start (orElse (apiUrlSetting w) API_BASE_URL +:+ "/api/rewrite")
        (rewriteRequestBody data) = Some (t, Normal r) ->
  ok r = false ->
  bodyText r = Some (t', Normal body) ->
  (handleRewriteMessage w data start).2
    = Some (Nat.max (Nat.max start t) t', Throw (apiRequestFailed r)).
Proof.
  intros Hfetch Hok Hbody.
  unfold handleRewriteMessage, tryCatch, mbind, async_bind, fetchCall, await.
  rewrite Hfetch. simpl. rewrite Hok. simpl. rewrite Hbody. reflexivity.
Qed.

Lemma alerts_silent (ev : events) : only visible ev = [] -> alerts ev = [].
Proof.
  intros Hev. rewrite alerts_only. by rewrite (only_alert_visible _ Hev).
Qed.

Lemma alerts_cons_other (t : nat) (e : effect) (ev : events) :
  isAlert e = false -> alerts ((t, e) :: ev) = alerts ev.
Proof. by destruct e. Qed.

Lemma alerts_logs (now : nat) (logs : list logEntry) :
  alerts ((fun entry => (now, Log entry)) <$> logs) = [].
Proof. by induction logs. Qed.

(** Steps 5 to 7 on a successful response carrying a rewritten text. *)
Lemma applyResponse_success (w : world) (p : platform) (recipient rewritten : string)
    (used : bool) (t : nat) :
  exists storing,
    applyResponse w p recipient (Success (RewriteReply (Some rewritten) used)) t
      = ((t, SetInputText rewritten) :: (t, SetInputText rewritten)
           :: (t, StatUpdate "messageCount") :: storing,
         Some (t, Normal tt))
    /\ only visible storing = [].
Proof.
  unfold applyResponse, mbind, async_bind, lift, emit. simpl.
  destruct (autoStoreSetting w); simpl; [|by exists []].
  pose proof (silent_call visible _
                (silent_tryCatch visible _ _
                   (storeMessage_silent w p recipient rewritten true)
                   (fun err => silent_emit visible
                                 (Log (ConsoleWarn "Failed to store conversation:" err))
                                 eq_refl)) t) as Hsilent.
  destruct (call _ t) as [storing pr] eqn:Hcall.
  unfold call in Hcall.
  destruct (tryCatch _ _ t) as [ev' pr'] in Hcall. injection Hcall as <- <-.
  simpl in *. exists (ev' ++ []). by rewrite app_nil_r.
Qed.

(** The run of [handleRewrite] on a draft, once the worker's answer is
    known: the scraper's warnings, the posted request, the worker's own
    effects, then steps 5 to 7. *)
Lemma handleRewrite_run (w : world) (p : platform) (pg : page)
    (input : option inputElement) (userInput : string) (now t : nat)
    (collected : list contextMessage) (answer : response) :
  draftOf pg input = Some userInput ->
  (scrapedNow w p pg now).1 = Normal collected ->
  let request := RewriteMessage (RewriteData p userInput collected (getRecipient p pg)) in
  portError w now request = None ->
  (onMessage w request now).2 = Some (t, Normal answer) ->
  (applyResponse w p (getRecipient p pg) answer t).2 = Some (t, Normal tt) ->
  handleRewrite w p pg input now
    = (((fun entry => (now, Log entry)) <$> (scrapedNow w p pg now).2)
         ++ ((now, PostMessage request) :: (onMessage w request now).1)
         ++ (applyResponse w p (getRecipient p pg) answer t).1,
       Some (t, Normal tt)).
Proof.
  intros Hdraft Hcollected request Hport Hanswer Happly.
  unfold handleRewrite. rewrite (handleRewriteWith_draft _ _ _ _ _ _ Hdraft).
  assert (scrapeWithDeadline (scrapeConversationContext w p pg) now
          = ((fun entry => (now, Log entry)) <$> (scrapedNow w p pg now).2,
             Some (now, Normal collected))) as Hscrape.
  { rewrite (scrapeWithDeadline_settled _ _ (Normal collected));
      by rewrite scrapeConversationContext_run, ?Hcollected. }
  assert (sendAndApply w p pg userInput collected now
          = (((now, PostMessage request) :: (onMessage w request now).1)
               ++ (applyResponse w p (getRecipient p pg) answer t).1,
             Some (t, Normal tt))) as Hsend.
  { unfold sendAndApply.
    rewrite (async_bind_normal _ _ now t
               ((now, PostMessage request) :: (onMessage w request now).1) answer).
    - by rewrite Happly.
    - fold request. rewrite (sendMessage_run _ _ _ Hport). by rewrite Hanswer. }
  apply tryCatch_normal.
  rewrite (async_bind_normal _ _ _ _ _ _ Hscrape). by rewrite Hsend.
Qed.

(** The same run while the worker never answers. *)
Lemma handleRewrite_pending (w : world) (p : platform) (pg : page)
    (input : option inputElement) (userInput : string) (now : nat)
    (collected : list contextMessage) :
  draftOf pg input = Some userInput ->
  (scrapedNow w p pg now).1 = Normal collected ->
  let request := RewriteMessage (RewriteData p userInput collected (getRecipient p pg)) in
  portError w now request = None ->
  (onMessage w request now).2 = None ->
  (handleRewrite w p pg input now).1
    = ((fun entry => (now, Log entry)) <$> (scrapedNow w p pg now).2)
        ++ (now, PostMessage request) :: (onMessage w request now).1.
Proof.
  intros Hdraft Hcollected request Hport Hpending.
  unfold handleRewrite. rewrite (handleRewriteWith_draft _ _ _ _ _ _ Hdraft).
  assert (scrapeWithDeadline (scrapeConversationContext w p pg) now
          = ((fun entry => (now, Log entry)) <$> (scrapedNow w p pg now).2,
             Some (now, Normal collected))) as Hscrape.
  { rewrite (scrapeWithDeadline_settled _ _ (Normal collected));
      by rewrite scrapeConversationContext_run, ?Hcollected. }
  unfold tryCatch. rewrite (async_bind_normal _ _ _ _ _ _ Hscrape).
  unfold sendAndApply, mbind, async_bind. fold request.
  rewrite (sendMessage_run _ _ _ Hport), Hpending. reflexivity.
Qed.

(** ** The deadline and a scrape that takes time *)

Lemma scrapeTaking_run (cost : nat) (w : world) (p : platform) (pg : page) (now : nat) :
  scrapeTaking cost w p pg now
    = ((fun entry => (now, Log entry)) <$> (scrapedNow w p pg now).2,
       Some (now + cost, (scrapedNow w p pg now).1)).
Proof.
  unfold scrapeTaking, mbind, async_bind, callRunning.
  rewrite scrapeConversationContext_run.
  unfold timeout, await, race. cbn [foldr first fst snd app].
  replace (now + cost + DEADLINE <? now + cost) with false
    by (symmetry; apply Nat.ltb_ge; lia).
  by rewrite Nat.max_id, !app_nil_r.
Qed.

Lemma handleRewriteFrom_draft (contextStep : Async (list contextMessage)) (w : world)
    (p : platform) (pg : page) (input : option inputElement) (userInput : string) :
  draftOf pg input = Some userInput ->
  handleRewriteFrom contextStep w p pg input
    = tryCatch
        (conversationContext ← contextStep;
         sendAndApply w p pg userInput conversationContext)
        (fun error =>
           _ ← emit (Log (ConsoleError "EXCEPTION CAUGHT:" error));
           emit (Alert ("Failed to rewrite message: " +:+ errMessage error))).
Proof.
  unfold draftOf, handleRewriteFrom.
  destruct (match input with Some el => Some el | None => activeElement pg end) as [el|];
    [|done].
  destruct (isMessageInput el); simpl; [|done].
  destruct (getInputText el) as [s|]; [|done].
  destruct (String.eqb (trim s) ""); [done|]. by intros [= ->].
Qed.

(** A scrape that takes no time gives the flow studied above. *)
Lemma handleRewriteTaking_no_time (w : world) (p : platform) (pg : page)
    (input : option inputElement) (now : nat) :
  handleRewriteTaking 0 w p pg input now = handleRewrite w p pg input now.
Proof.
  assert (scrapeTaking 0 w p pg now
          = scrapeWithDeadline (scrapeConversationContext w p pg) now) as Hstep.
  { rewrite scrapeTaking_run, Nat.add_0_r.
    rewrite (scrapeWithDeadline_settled _ _ (scrapedNow w p pg now).1);
      by rewrite scrapeConversationContext_run. }
  unfold handleRewriteTaking, handleRewrite, handleRewriteFrom, handleRewriteWith.
  destruct (match input with Some el => Some el | None => activeElement pg end) as [el|];
    [|done].
  destruct (negb (isMessageInput el)); [done|].
  destruct (getInputText el) as [s|]; [|done].
  destruct (String.eqb (trim s) ""); [done|].
  unfold tryCatch, mbind, async_bind. by rewrite Hstep.
Qed.

(** C1.  The deadline of step 3 does not hold for the scrape as
    shipped.  [scrapeConversationContext] has no [await]: the call that
    makes the context promise returns only when the scrape has run, the
    timer is created after it, and the promise is already fulfilled when
    the race starts.  So when the scrape takes [cost] milliseconds the
    rewrite goes on after [cost] milliseconds, however long that is,
    with what was scraped: for a scrape that outlasts the deadline and
    finds messages, not at the deadline and not with the empty
    context. *)
Theorem slow_scrape_outlasts_the_deadline (cost : nat) (w : world) (p : platform)
    (pg : page) (input : option inputElement) (userInput : string) (now : nat)
    (collected : list contextMessage) :
  draftOf pg input = Some userInput ->
  (scrapedNow w p pg now).1 = Normal collected ->
  (scrapeTaking cost w p pg now).2 = Some (now + cost, Normal collected)
  /\ (exists rest,
        (handleRewriteTaking cost w p pg input now).1
          = ((fun entry => (now, Log entry)) <$> (scrapedNow w p pg now).2)
            ++ (now + cost,
                PostMessage (RewriteMessage
                               (RewriteData p userInput collected (getRecipient p pg))))
            :: rest)
  /\ (DEADLINE < cost -> collected <> [] ->
      (scrapeTaking cost w p pg now).2 <> Some (now + DEADLINE, Normal [])).
Proof.
  intros Hdraft Hcollected.
  assert (scrapeTaking cost w p pg now
          = ((fun entry => (now, Log entry)) <$> (scrapedNow w p pg now).2,
             Some (now + cost, Normal collected))) as Hstep
    by (by rewrite scrapeTaking_run, Hcollected).
  split; [by rewrite Hstep|]. split.
  - unfold handleRewriteTaking. rewrite (handleRewriteFrom_draft _ _ _ _ _ _ Hdraft).
    destruct (sendAndApply_posts w p pg userInput collected (now + cost)) as [rest Hrest].
    match goal with
    | |- context [(tryCatch ?b ?h now).1] => destruct (tryCatch_events b h now) as [more ->]
    end.
    rewrite (async_bind_normal _ _ _ _ _ _ Hstep). cbn [fst].
    rewrite Hrest. exists (rest ++ more). by rewrite <- !app_assoc.
  - intros Hslow Hfound. rewrite Hstep. intros [= Hwhen Hwhat]. by apply Hfound.
Qed.

Lemma slow_scrape_outlasts_the_deadline_witness :
  (scrapeTaking 1500 (rewritingWorld true) linkedin samplePage 0).2
    = Some (1500, Normal [ContextMessage "hello" true "T"])
  /\ exists rest,
       (handleRewriteTaking 1500 (rewritingWorld true) linkedin samplePage None 0).1
         = (1500, PostMessage (RewriteMessage
                                 (RewriteData linkedin "thanks!"
                                              [ContextMessage "hello" true "T"] "John Doe")))
           :: rest.
Proof.
  destruct (slow_scrape_outlasts_the_deadline 1500 (rewritingWorld true) linkedin samplePage
              None "thanks!" 0 [ContextMessage "hello" true "T"])
    as (Hcontext & Hposted & _); [reflexivity | reflexivity |].
  split; [exact Hcontext | exact Hposted].
Defined.

(** ** Which errors reach the user *)

(** A rewrite whose message to the worker cannot be posted: the
    rejection is caught by the catch-all handler. *)
Lemma handleRewrite_port_failed (w : world) (p : platform) (pg : page)
    (input : option inputElement) (userInput : string) (now : nat)
    (collected : list contextMessage) (e : jsError) :
  draftOf pg input = Some userInput ->
  (scrapedNow w p pg now).1 = Normal collected ->
  let request := RewriteMessage (RewriteData p userInput collected (getRecipient p pg)) in
  portError w now request = Some e ->
  handleRewrite w p pg input now
    = (((fun entry => (now, Log entry)) <$> (scrapedNow w p pg now).2)
         ++ [(now, PostMessage request)]
         ++ [(now, Log (ConsoleError "EXCEPTION CAUGHT:" e));
             (now, Alert ("Failed to rewrite message: " +:+ errMessage e))],
       Some (now, Normal tt)).
Proof.
  intros Hdraft Hcollected request Hport.
  unfold handleRewrite. rewrite (handleRewriteWith_draft _ _ _ _ _ _ Hdraft).
  assert (scrapeWithDeadline (scrapeConversationContext w p pg) now
          = ((fun entry => (now, Log entry)) <$> (scrapedNow w p pg now).2,
             Some (now, Normal collected))) as Hscrape.
  { rewrite (scrapeWithDeadline_settled _ _ (Normal collected));
      by rewrite scrapeConversationContext_run, ?Hcollected. }
  assert ((conversationContext ← scrapeWithDeadline (scrapeConversationContext w p pg);
           sendAndApply w p pg userInput conversationContext) now
          = (((fun entry => (now, Log entry)) <$> (scrapedNow w p pg now).2)
               ++ [(now, PostMessage request)],
             Some (now, Throw e))) as Hbody.
  { rewrite (async_bind_normal _ _ _ _ _ _ Hscrape).
    unfold sendAndApply, mbind, async_bind, sendMessage. fold request.
    by rewrite Hport. }
  rewrite (tryCatch_throw _ _ _ _ _ _ Hbody). by rewrite <- app_assoc.
Qed.

(** C7, as amended.  Of the errors of a rewrite, those of the rewrite
    call reach the user, and so does a failure of the message port to
    the worker; context-retrieval and storage errors never do.  A
    rejected [fetch] leaves the worker as the same error.  When the
    rewrite call fails with error [e] the one alert of the rewrite is
    "Error: " followed by the message of [e] as it is, or by "Unknown
    error" when that message is empty.  When the request cannot be
    posted the one alert is "Failed to rewrite message: " followed by
    the message of the port's error, and no network call is made.  When
    the call succeeds there is no alert and the rewrite completes
    normally, whatever was raised while the context was scraped and
    whatever becomes of the store request.  And an alert is only ever
    raised when the port failed, the rewrite call failed, or its answer
    holds no rewritten text. *)
Theorem generation_errors_are_shown (w : world) (p : platform) (pg : page)
    (input : option inputElement) (userInput : string) (now : nat)
    (collected : list contextMessage) :
  draftOf pg input = Some userInput ->
  (scrapedNow w p pg now).1 = Normal collected ->
  let data := RewriteData p userInput collected (getRecipient p pg) in
  (forall t e,
     fetch w now (orElse (apiUrlSetting w) API_BASE_URL +:+ "/api/rewrite")
           (rewriteRequestBody data) = Some (t, Throw e) ->
     (handleRewriteMessage w data now).2 = Some (Nat.max now t, Throw e))
  /\ (forall t e,
        portError w now (RewriteMessage data) = None ->
        (handleRewriteMessage w data now).2 = Some (t, Throw e) ->
        alerts (handleRewrite w p pg input now).1
          = ["Error: " +:+ (if String.eqb (errMessage e) "" then "Unknown error"
                            else errMessage e)])
  /\ (forall e,
        portError w now (RewriteMessage data) = Some e ->
        alerts (handleRewrite w p pg input now).1
          = ["Failed to rewrite message: " +:+ errMessage e]
        /\ fetchCalls (handleRewrite w p pg input now).1 = [])
  /\ (forall t rewritten used,
        portError w now (RewriteMessage data) = None ->
        (handleRewriteMessage w data now).2
          = Some (t, Normal (RewriteReply (Some rewritten) used)) ->
        alerts (handleRewrite w p pg input now).1 = []
        /\ (handleRewrite w p pg input now).2 = Some (t, Normal tt))
  /\ (alerts (handleRewrite w p pg input now).1 <> [] ->
        (exists e, portError w now (RewriteMessage data) = Some e)
        \/ (exists t e, (handleRewriteMessage w data now).2 = Some (t, Throw e))
        \/ (exists t answer,
              (handleRewriteMessage w data now).2 = Some (t, Normal answer)
              /\ isThrow (rewrittenMessage answer) = true)).
Proof.
  intros Hdraft Hcollected data. subst data.
  pose proof (onMessage_silent w (RewriteMessage (RewriteData p userInput collected (getRecipient p pg))) now) as Hworker.
  assert (forall t rewritten used,
            portError w now (RewriteMessage
                               (RewriteData p userInput collected (getRecipient p pg))) = None ->
            (handleRewriteMessage w (RewriteData p userInput collected (getRecipient p pg))
                                  now).2
              = Some (t, Normal (RewriteReply (Some rewritten) used)) ->
            alerts (handleRewrite w p pg input now).1 = []
            /\ (handleRewrite w p pg input now).2 = Some (t, Normal tt)) as Hsuccess;
    [|split; [|split; [|split; [|split; [exact Hsuccess|]]]]].
  - intros t rewritten used Hport Hsucceeds.
    pose proof (respond_normal _ _ _ _ Hsucceeds) as Hanswer.
    destruct (applyResponse_success w p (getRecipient p pg) rewritten used t)
      as (storing & Happly & Hstoring).
    rewrite (handleRewrite_run w p pg input userInput now t collected
               (Success (RewriteReply (Some rewritten) used)) Hdraft Hcollected Hport);
      [|change ((respond (handleRewriteMessage w (RewriteData p userInput collected (getRecipient p pg))) now).2
                = Some (t, Normal (Success (RewriteReply (Some rewritten) used))));
        by rewrite Hanswer
       |by rewrite Happly].
    split; [|done].
    cbn [fst]. rewrite !alerts_app, alerts_logs, Happly.
    rewrite alerts_cons_other by done.
    rewrite (alerts_silent _ Hworker).
    cbn [fst]. rewrite !alerts_cons_other by done.
    by apply alerts_silent.
  - intros t e. apply handleRewriteMessage_fetch_rejected.
  - intros t e Hport Hfails.
    pose proof (respond_throw _ _ _ _ Hfails) as Hanswer.
    rewrite (handleRewrite_run w p pg input userInput now t collected
               (Failure (errMessage e)) Hdraft Hcollected Hport);
      [|change ((respond (handleRewriteMessage w (RewriteData p userInput collected (getRecipient p pg))) now).2
                = Some (t, Normal (Failure (errMessage e)))); by rewrite Hanswer
       |done].
    cbn [fst]. rewrite !alerts_app, alerts_logs.
    rewrite alerts_cons_other by done.
    rewrite (alerts_silent _ Hworker).
    by destruct (errMessage e).
  - intros e Hport.
    rewrite (handleRewrite_port_failed w p pg input userInput now collected e
               Hdraft Hcollected Hport).
    cbn [fst]. split.
    + by rewrite !alerts_app, alerts_logs.
    + unfold fetchCalls. rewrite !omap_app.
      by induction (scrapedNow w p pg now).2.
  - intros Halert.
    destruct (portError w now (RewriteMessage
                                 (RewriteData p userInput collected (getRecipient p pg))))
      as [e|] eqn:Hport; [left; by exists e|]. right.
    destruct (handleRewriteMessage w (RewriteData p userInput collected (getRecipient p pg))
                                   now).2 as [[t [answer|e]]|] eqn:Hworked.
    + destruct (rewrittenMessage answer) as [rewritten|e] eqn:Hread.
      * destruct answer as [[rewritten'|] used| |]; try done.
        destruct (Hsuccess t rewritten' used eq_refl eq_refl) as [Hnone _].
        by destruct Halert.
      * right. exists t, answer. by rewrite Hread.
    + left. eauto.
    + destruct Halert.
      rewrite (handleRewrite_pending w p pg input userInput now collected
                 Hdraft Hcollected Hport).
      * rewrite alerts_app, alerts_logs, alerts_cons_other by done.
        by rewrite (alerts_silent _ Hworker).
      * change ((respond (handleRewriteMessage w (RewriteData p userInput collected (getRecipient p pg))) now).2 = None).
        by rewrite (respond_pending _ _ Hworked).
Qed.

Lemma generation_errors_are_shown_witness :
  let broken := MessageGroup (Throw (JsError "Error" "detached node")) (Normal false) in
  let doc := Document (Normal (Some (Normal [plainGroup "hello" true; broken])))
                      (Normal []) in
  let draft := InputElement false "TEXTAREA" (Some "thanks!") in
  let pg := Page doc "https://www.linkedin.com/messaging/" None (Some "John Doe")
                 None None None in
  let offline := World None true
                   (fun t _ _ => Some (t + 300, Throw (JsError "TypeError" "Failed to fetch")))
                   (fun _ _ => None) (fun _ => "T") in
  let storeDown := World None true
                     (fun t _ body =>
                        match body with
                        | RewriteBody _ _ _ _ =>
                            Some (t + 300,
                                  Normal (HttpResponse true "OK" None
                                            (Some (t + 301,
                                                   Normal (RewriteReply (Some "Thank you!") true)))))
                        | _ => Some (t + 5, Throw (JsError "TypeError" "Failed to fetch"))
                        end)
                     (fun _ _ => None) (fun _ => "T") in
  alerts (handleRewrite offline linkedin pg (Some draft) 7).1 = ["Error: Failed to fetch"]
  /\ alerts (handleRewrite namelessFailure linkedin pg (Some draft) 7).1
     = ["Error: Unknown error"]
  /\ alerts (handleRewrite portDown linkedin pg (Some draft) 7).1
     = ["Failed to rewrite message: Extension context invalidated."]
  /\ alerts (handleRewrite storeDown linkedin pg (Some draft) 7).1 = []
  /\ (handleRewrite storeDown linkedin pg (Some draft) 7).2 = Some (308, Normal tt).
Proof.
  intros broken doc draft pg offline storeDown.
  destruct (generation_errors_are_shown offline linkedin pg (Some draft) "thanks!" 7
              [ContextMessage "hello" true "T"])
    as (Hsame & Hshown & _); [reflexivity ..|].
  destruct (generation_errors_are_shown namelessFailure linkedin pg (Some draft) "thanks!" 7
              [ContextMessage "hello" true "T"])
    as (Hsame' & Hshown' & _); [reflexivity ..|].
  destruct (generation_errors_are_shown portDown linkedin pg (Some draft) "thanks!" 7
              [ContextMessage "hello" true "T"])
    as (_ & _ & Hport & _); [reflexivity ..|].
  destruct (generation_errors_are_shown storeDown linkedin pg (Some draft) "thanks!" 7
              [ContextMessage "hello" true "T"])
    as (_ & _ & _ & Hquiet & _); [reflexivity ..|].
  split; [|split; [|split]].
  - apply (Hshown 307 (JsError "TypeError" "Failed to fetch")); [reflexivity|].
    exact (Hsame 307 (JsError "TypeError" "Failed to fetch") eq_refl).
  - apply (Hshown' 307 (JsError "Error" "")); [reflexivity|].
    exact (Hsame' 307 (JsError "Error" "") eq_refl).
  - apply (Hport (JsError "Error" "Extension context invalidated.")). reflexivity.
  - apply (Hquiet 308 "Thank you!" true); reflexivity.
Defined.

(** The statement of the specification fails on the code.  A failure of the
    message port, before any call to the backend is made, is shown to
    the user; and a rewrite call that fails with an empty message is
    shown as "Unknown error", not as it is. *)
Lemma generation_errors_are_shown_counterexample :
  alerts (handleRewrite portDown linkedin samplePage None 7).1
    = ["Failed to rewrite message: Extension context invalidated."]
  /\ fetchCalls (handleRewrite portDown linkedin samplePage None 7).1 = []
  /\ (handleRewriteMessage namelessFailure
        (RewriteData linkedin "thanks!" [ContextMessage "hello" true "T"] "John Doe") 7).2
     = Some (307, Throw (JsError "Error" ""))
  /\ alerts (handleRewrite namelessFailure linkedin samplePage None 7).1
     = ["Error: Unknown error"]
  /\ alerts (handleRewrite namelessFailure linkedin samplePage None 7).1
     <> ["Error: "].
Proof.
  split; [reflexivity|]. split; [reflexivity|]. split; [reflexivity|].
  split; [reflexivity|]. vm_compute. discriminate.
Qed.

(** ** Storing is fire and forget *)

Lemma sameView_refl {A : Type} (r : events * promise A) : sameView r r.
Proof. by split. Qed.

Lemma sameView_bind {A B : Type} (c : Async A) (f f' : A -> Async B) (now : nat) :
  (forall a t, sameView (f a t) (f' a t)) ->
  sameView ((x ← c; f x) now) ((x ← c; f' x) now).
Proof.
  intros Hf. unfold mbind, async_bind.
  destruct (c now) as [ev [[t [a|e]]|]]; try apply sameView_refl.
  destruct (Hf a t) as [Hev Hpr].
  destruct (f a t) as [ev1 pr1], (f' a t) as [ev2 pr2]. simpl in *.
  split; simpl; [by rewrite !only_app, Hev | done].
Qed.

Lemma sameView_tryCatch {A : Type} (body body' : Async A) (handler : jsError -> Async A)
    (now : nat) :
  sameView (body now) (body' now) ->
  sameView (tryCatch body handler now) (tryCatch body' handler now).
Proof.
  intros [Hev Hpr]. unfold tryCatch.
  destruct (body now) as [ev1 pr1], (body' now) as [ev2 pr2]. simpl in *. subst pr2.
  destruct pr1 as [[t [a|e]]|]; try by split.
  destruct (handler e t) as [ev' pr']. split; simpl; [by rewrite !only_app, Hev | done].
Qed.

Lemma applyResponse_sameView (storeFetch : nat -> string -> requestBody -> promise httpResponse)
    (storePort : nat -> request -> option jsError) (w : world) (p : platform)
    (recipient : string) (answer : response) (t : nat) :
  sameView (applyResponse (withStore storeFetch storePort w) p recipient answer t)
           (applyResponse w p recipient answer t).
Proof.
  destruct answer as [[[rewritten|] used|status|chat]|error]; try apply sameView_refl.
  destruct (applyResponse_success (withStore storeFetch storePort w) p recipient
              rewritten used t) as (storing' & -> & Hsilent').
  destruct (applyResponse_success w p recipient rewritten used t)
    as (storing & -> & Hsilent).
  split; [|done]. cbn [fst]. by rewrite !only_cons, Hsilent, Hsilent'.
Qed.

Lemma handleRewriteWith_no_draft (scrape : Async (list contextMessage)) (w w' : world)
    (p : platform) (pg : page) (input : option inputElement) :
  draftOf pg input = None ->
  handleRewriteWith scrape w p pg input = handleRewriteWith scrape w' p pg input.
Proof.
  unfold draftOf, handleRewriteWith.
  destruct (match input with Some el => Some el | None => activeElement pg end) as [el|];
    [|done].
  destruct (isMessageInput el); simpl; [|done].
  destruct (getInputText el) as [s|]; [|done].
  by destruct (String.eqb (trim s) "").
Qed.

(** C8. The rewrite does not wait for the store request it triggers and
    cannot be failed by it: replace the conversation store of a world by
    any other (one that never answers, one that fails, one that is slow)
    and the rewrite shows the user the same alerts and text
    replacements, at the same instants, and completes at the same
    instant in the same way.  Storing itself shows the user nothing and
    its promise is never rejected: a failure is caught and logged. *)
Theorem store_is_fire_and_forget
    (storeFetch : nat -> string -> requestBody -> promise httpResponse)
    (storePort : nat -> request -> option jsError)
    (w : world) (p : platform) (pg : page) (input : option inputElement) (now : nat) :
  only visible (handleRewrite (withStore storeFetch storePort w) p pg input now).1
    = only visible (handleRewrite w p pg input now).1
  /\ (handleRewrite (withStore storeFetch storePort w) p pg input now).2
     = (handleRewrite w p pg input now).2
  /\ (forall recipient message isOutgoing start,
        only visible (storeMessage w p recipient message isOutgoing start).1 = []
        /\ rejected (storeMessage w p recipient message isOutgoing start).2 = false).
Proof.
  assert (sameView (handleRewrite (withStore storeFetch storePort w) p pg input now)
                   (handleRewrite w p pg input now)) as [Hevents Hpromise];
    [|split; [exact Hevents | split; [exact Hpromise|]]].
  - unfold handleRewrite.
    change (scrapeConversationContext (withStore storeFetch storePort w) p pg)
      with (scrapeConversationContext w p pg).
    destruct (draftOf pg input) as [userInput|] eqn:Hdraft.
    + rewrite !(handleRewriteWith_draft _ _ _ _ _ _ Hdraft).
      apply sameView_tryCatch, sameView_bind. intros conversationContext t.
      unfold sendAndApply.
      change (sendMessage (withStore storeFetch storePort w)
                (RewriteMessage (RewriteData p userInput conversationContext
                                             (getRecipient p pg))))
        with (sendMessage w
                (RewriteMessage (RewriteData p userInput conversationContext
                                             (getRecipient p pg)))).
      apply sameView_bind. intros answer t'. apply applyResponse_sameView.
    + rewrite (handleRewriteWith_no_draft _ (withStore storeFetch storePort w) w
                 _ _ _ Hdraft).
      apply sameView_refl.
  - intros recipient message isOutgoing start. split.
    + apply storeMessage_silent.
    + pose proof (storeMessage_never_throws w p recipient message isOutgoing start) as Hnever.
      destruct (storeMessage w p recipient message isOutgoing start).2 as [[t [[]|e]]|];
        [done| |done].
      by destruct (Hnever t e).
Qed.

(** ** Session lanes *)

Ltac run_async :=
  unfold sendMessageCallback, sendMessage, onMessage, respond, handleChat,
    tryCatch, mbind, async_bind, mret, async_ret, fetchCall, await, throw, emit;
  simpl.

Lemma summarizerSend_requests (w : world) (pg : page) (typed : string) (now : nat) :
  let sent := ChatData (trim typed) None None (href pg) (Some "summarizer") in
  chatRequests (summarizerSend w pg typed now).1
    = (if String.eqb (trim typed) "" then [] else [sent])
  /\ Forall (fun body => body = ChatBody (trim typed) None None (href pg) (Some "summarizer"))
            (fetchBodies (summarizerSend w pg typed now).1).
Proof.
  unfold summarizerSend. destruct (String.eqb (trim typed) ""); [by split|].
  run_async.
  destruct (portError w now _) as [e|]; simpl; [by split|].
  destruct (fetch w now _ _) as [[t [r|e]]|]; simpl; [|by repeat constructor ..].
  destruct (ok r); simpl; [|by repeat constructor].
  destruct (bodyJson r) as [[t' [[]|e]]|]; simpl; by repeat constructor.
Qed.

Lemma chatSend_requests (w : world) (p : platform) (pg : page) (typed : string) (now : nat) :
  let sent := ChatData (trim typed) (Some p) (Some (getRecipient p pg)) (href pg) None in
  chatRequests (chatSend w p pg typed now).1
    = (if String.eqb (trim typed) "" then [] else [sent])
  /\ Forall (fun body => body = ChatBody (trim typed) (Some (platformName p))
                                  (Some (getRecipient p pg)) (href pg) None)
            (fetchBodies (chatSend w p pg typed now).1).
Proof.
  unfold chatSend. destruct (String.eqb (trim typed) ""); [by split|].
  run_async.
  destruct (portError w now _) as [e|]; simpl; [by split|].
  destruct (fetch w now _ _) as [[t [r|e]]|]; simpl; [|by repeat constructor ..].
  destruct (ok r); simpl; [|by repeat constructor].
  destruct (bodyJson r) as [[t' [[]|e]]|]; simpl; by repeat constructor.
Qed.

Section EngineProperties.

Import Engine.

Context (normalize : string -> string).

Lemma queryChatHistory_in_lane (g : graph) (session : lane) (limit : nat) :
  Forall (fun turn => ct_session turn = session) (queryChatHistory g session limit).
Proof.
  unfold queryChatHistory. apply Forall_forall. intros turn Hin.
  rewrite elem_of_reverse in Hin. apply elem_of_take in Hin as (i & Hin & _).
  apply list_elem_of_lookup_2 in Hin.
  rewrite elem_of_reverse in Hin. by apply list_elem_of_filter in Hin as [? _].
Qed.

Lemma queryChatHistory_other_lane (g : graph) (turn : chatTurn) (session : lane)
    (limit : nat) :
  ct_session turn <> session ->
  queryChatHistory (appendChatTurn g turn) session limit = queryChatHistory g session limit.
Proof.
  intros Hother. unfold queryChatHistory, appendChatTurn. simpl.
  rewrite filter_app, filter_cons_False, filter_nil by done. by rewrite app_nil_r.
Qed.

Lemma ingestMessage_chatTurns (window : nat) (g : graph) (ev : rawInteractionEvent) :
  chatTurns (ingestMessage normalize window g ev) = chatTurns g.
Proof. unfold ingestMessage. by destruct (existsb _ _). Qed.

(** C2. Every chat request of the summarizer pane carries the session
    tag "summarizer", which the worker forwards unchanged, while the
    chat pane's requests carry none; the router sends the tagged request
    to the lane named "summarizer", the same for every platform and
    counterpart and different from every counterpart lane; retrieval in
    that lane returns turns of that lane only and is unchanged by
    anything ingested into a counterpart lane (a message or a chat
    turn), and retrieval for a counterpart lane is unchanged by a turn
    appended to the summarizer lane. *)
Theorem summarizer_lane_is_isolated (w : world) (p : platform) (pg : page)
    (typed : string) (now : nat) :
  Forall (fun d => cd_session_id d = Some "summarizer")
         (chatRequests (summarizerSend w pg typed now).1)
  /\ Forall (fun body => laneOfChat body = Some (NamedLane "summarizer"))
            (fetchBodies (summarizerSend w pg typed now).1)
  /\ Forall (fun body => laneOfChat body
                         = Some (CounterpartLane (platformName p) (getRecipient p pg)))
            (fetchBodies (chatSend w p pg typed now).1)
  /\ (forall platform counterpart platform' counterpart',
        routeSession platform counterpart (Some "summarizer") = NamedLane "summarizer"
        /\ routeSession platform counterpart (Some "summarizer")
           <> routeSession platform' counterpart' None)
  /\ (forall g limit,
        Forall (fun turn => ct_session turn = NamedLane "summarizer")
               (queryChatHistory g (NamedLane "summarizer") limit))
  /\ (forall g window ev limit,
        retrieveContext normalize (ingestMessage normalize window g ev)
                        (NamedLane "summarizer") limit
        = retrieveContext normalize g (NamedLane "summarizer") limit)
  /\ (forall g turn platform counterpart limit,
        ct_session turn = CounterpartLane platform counterpart ->
        retrieveContext normalize (appendChatTurn g turn) (NamedLane "summarizer") limit
        = retrieveContext normalize g (NamedLane "summarizer") limit)
  /\ (forall g turn platform counterpart limit,
        ct_session turn = NamedLane "summarizer" ->
        retrieveContext normalize (appendChatTurn g turn)
                        (CounterpartLane platform counterpart) limit
        = retrieveContext normalize g (CounterpartLane platform counterpart) limit).
Proof.
  destruct (summarizerSend_requests w pg typed now) as [Hsent Hbodies].
  destruct (chatSend_requests w p pg typed now) as [_ Hchat].
  repeat apply conj.
  - rewrite Hsent. destruct (String.eqb (trim typed) ""); by repeat constructor.
  - eapply Forall_impl; [exact Hbodies|]. by intros body ->.
  - eapply Forall_impl; [exact Hchat|]. by intros body ->.
  - intros platform counterpart platform' counterpart'. by split.
  - intros g limit. apply queryChatHistory_in_lane.
  - intros g window ev limit. unfold retrieveContext, queryChatHistory.
    by rewrite ingestMessage_chatTurns.
  - intros g turn platform counterpart limit Hturn. unfold retrieveContext.
    rewrite queryChatHistory_other_lane; [done|]. by rewrite Hturn.
  - intros g turn platform counterpart limit Hturn. reflexivity.
Qed.

(** ** Idempotent ingestion *)

Lemma sameEvent_same (ev ev' : rawInteractionEvent) (m : interactionMessage) :
  ev_text ev' = ev_text ev -> ev_direction ev' = ev_direction ev ->
  sameEvent ev' m = sameEvent ev m.
Proof. intros Htext Hdirection. unfold sameEvent. by rewrite Htext, Hdirection. Qed.

Lemma existsb_sameEvent (ev ev' : rawInteractionEvent) (l : list interactionMessage) :
  ev_text ev' = ev_text ev -> ev_direction ev' = ev_direction ev ->
  existsb (sameEvent ev') l = existsb (sameEvent ev) l.
Proof.
  intros Htext Hdirection. induction l as [|m l IH]; simpl; [done|].
  by rewrite IH, (sameEvent_same ev ev').
Qed.

Lemma ingestMessage_duplicate (window : nat) (g : graph) (ev : rawInteractionEvent) :
  existsb (sameEvent ev) (queryRecentMessages g (keyOf normalize ev) window) = true ->
  ingestMessage normalize window g ev = g.
Proof. intros Hdup. unfold ingestMessage. by rewrite Hdup. Qed.

(** After an event was ingested a copy of it is the contact's most
    recent message or already was within the window. *)
Lemma ingestMessage_then_duplicate (window : nat) (g : graph) (ev : rawInteractionEvent) :
  0 < window ->
  existsb (sameEvent ev)
          (queryRecentMessages (ingestMessage normalize window g ev)
                               (keyOf normalize ev) window) = true.
Proof.
  intros Hwindow. unfold ingestMessage.
  destruct (existsb (sameEvent ev) (queryRecentMessages g (keyOf normalize ev) window))
    eqn:Hdup; [done|].
  unfold queryRecentMessages. cbn [messages].
  rewrite filter_app, filter_cons_True, filter_nil by done.
  rewrite reverse_app, reverse_singleton.
  destruct window as [|window]; [lia|]. cbn [app take existsb].
  unfold sameEvent at 1. cbn [im_text im_direction].
  by rewrite !bool_decide_eq_true_2.
Qed.

Lemma copiesOf_recent (window : nat) (g : graph) (ev : rawInteractionEvent) :
  copiesOf normalize g ev = [] ->
  existsb (sameEvent ev) (queryRecentMessages g (keyOf normalize ev) window) = false.
Proof.
  intros Hnone. apply not_true_is_false. intros Hdup.
  apply existsb_exists in Hdup as (m & Hin & Hsame).
  apply list_elem_of_In in Hin. unfold queryRecentMessages in Hin.
  apply elem_of_take in Hin as (i & Hin & _). apply list_elem_of_lookup_2 in Hin.
  rewrite elem_of_reverse in Hin. apply list_elem_of_filter in Hin as [Hkey Hin].
  assert (m ∈ copiesOf normalize g ev) as Hcopy.
  { unfold copiesOf. apply list_elem_of_filter. by repeat split. }
  rewrite Hnone in Hcopy. by apply elem_of_nil in Hcopy.
Qed.

(** C3. Ingesting the same logical event twice, the same contact, text
    and direction, stores one message node: an event whose copy is
    among the contact's most recent stored messages is a no-op, hence
    the second of two ingestions in a row is one and leaves exactly one
    copy where there was none; so it is for the two store requests the
    extension sends for one message. *)
Theorem duplicate_ingestion_is_noop (window : nat) (g : graph)
    (ev ev' : rawInteractionEvent) :
  keyOf normalize ev' = keyOf normalize ev ->
  ev_text ev' = ev_text ev ->
  ev_direction ev' = ev_direction ev ->
  (existsb (sameEvent ev) (queryRecentMessages g (keyOf normalize ev) window) = true ->
     ingestMessage normalize window g ev = g)
  /\ (0 < window ->
        ingestMessage normalize window (ingestMessage normalize window g ev) ev'
          = ingestMessage normalize window g ev)
  /\ (0 < window ->
        copiesOf normalize g ev = [] ->
        length (copiesOf normalize
                  (ingestMessage normalize window (ingestMessage normalize window g ev) ev')
                  ev) = 1)
  /\ (0 < window ->
        forall w data t t',
          foldl (ingestBody normalize window) g
                (fetchBodies (handleStoreConversation w data t).1
                 ++ fetchBodies (handleStoreConversation w data t').1)
          = foldl (ingestBody normalize window) g
                  (fetchBodies (handleStoreConversation w data t).1)).
Proof.
  intros Hkey Htext Hdirection.
  assert (forall g0, 0 < window ->
            ingestMessage normalize window (ingestMessage normalize window g0 ev) ev'
            = ingestMessage normalize window g0 ev) as Hsecond.
  { intros g0 Hwindow. apply ingestMessage_duplicate.
    rewrite Hkey, (existsb_sameEvent ev ev') by done.
    by apply ingestMessage_then_duplicate. }
  split; [apply ingestMessage_duplicate|]. split; [apply Hsecond|]. split.
  - intros Hwindow Hnone. rewrite Hsecond by done.
    unfold ingestMessage. rewrite (copiesOf_recent _ _ _ Hnone).
    unfold copiesOf in *. cbn [messages].
    rewrite filter_app, Hnone, filter_cons_True, filter_nil; [done|].
    split; [done|]. unfold sameEvent. simpl. by rewrite !bool_decide_eq_true_2.
  - intros Hwindow w data t t'. rewrite !handleStoreConversation_calls.
    destruct (sd_message data) as [message|]; [|done].
    destruct (blankMessage (Some message)); [done|].
    pose (arrived := fun at_ =>
            RawInteractionEvent (platformName (sd_platform data)) (sd_recipient data)
              message (if sd_isOutgoing data then outgoing else incoming) (isoTime w at_)).
    set (first := arrived t). set (second := arrived t').
    change (ingestMessage normalize window (ingestMessage normalize window g first) second
            = ingestMessage normalize window g first).
    apply ingestMessage_duplicate.
    change (keyOf normalize second) with (keyOf normalize first).
    rewrite (existsb_sameEvent first second) by done.
    by apply ingestMessage_then_duplicate.
Qed.

End EngineProperties.

Lemma summarizer_lane_is_isolated_witness :
  let w := World None false (fun _ _ _ => None) (fun _ _ => None) (fun _ => "T") in
  let pg := Page (Document (Normal None) (Normal [])) "https://example.org/paper" None
                 (Some "John Doe") None None None in
  let g := Engine.Graph [] [Engine.ChatTurn (Engine.NamedLane "summarizer") "user" "What is the abstract?" 1] in
  chatRequests (summarizerSend w pg " What is the abstract? " 0).1
    = [ChatData "What is the abstract?" None None "https://example.org/paper"
                (Some "summarizer")]
  /\ Engine.retrieveContext id
       (Engine.appendChatTurn g (Engine.ChatTurn (Engine.CounterpartLane "linkedin" "John Doe") "user"
                                   "When works?" 2))
       (Engine.NamedLane "summarizer") 10
     = ["What is the abstract?"]
  /\ Engine.retrieveContext id
       (Engine.appendChatTurn (Engine.ingestMessage id 5 g
                          (Engine.RawInteractionEvent "linkedin" "John Doe"
                             "I'm interested in collaborating" Engine.outgoing "t1"))
                       (Engine.ChatTurn (Engine.NamedLane "summarizer") "assistant" "It says ..." 3))
       (Engine.CounterpartLane "linkedin" "John Doe") 10
     = ["I'm interested in collaborating"].
Proof.
  intros w pg g.
  destruct (summarizer_lane_is_isolated id w linkedin pg " What is the abstract? " 0)
    as (_ & _ & _ & _ & _ & _ & Hsummarizer & Hcounterpart).
  split; [reflexivity|]. split.
  - rewrite (Hsummarizer g _ "linkedin" "John Doe" 10); reflexivity.
  - rewrite (Hcounterpart _ _ "linkedin" "John Doe" 10); reflexivity.
Defined.

Lemma duplicate_ingestion_is_noop_witness :
  let sent := Engine.RawInteractionEvent "linkedin" "John Doe"
                "I'm interested in collaborating" Engine.outgoing "2024-01-01T10:00:00Z" in
  let seenAgain := Engine.RawInteractionEvent "linkedin" "John Doe"
                     "I'm interested in collaborating" Engine.outgoing
                     "2024-01-01T10:00:02Z" in
  let twice := Engine.ingestMessage id 5 (Engine.ingestMessage id 5 Engine.emptyGraph sent)
                                    seenAgain in
  twice = Engine.ingestMessage id 5 Engine.emptyGraph sent
  /\ length (Engine.copiesOf id twice sent) = 1
  /\ length (Engine.messages twice) = 1.
Proof.
  intros sent seenAgain twice.
  destruct (duplicate_ingestion_is_noop id 5 Engine.emptyGraph sent seenAgain)
    as (_ & Hsecond & Hone & _); [reflexivity ..|].
  split; [apply Hsecond; lia|]. split.
  - apply Hone; [lia | reflexivity].
  - unfold twice. rewrite Hsecond by lia. reflexivity.
Defined.

(** ** Further facts about the shipped composer *)

(** X1. [scrapeConversationContext] has no [await]: its promise is settled
    at the instant of the call, so the race of [handleRewrite] delivers
    what the scraper returned and the timer is never the first. *)
Theorem shipped_scraper_settles_at_once (w : world) (p : platform) (pg : page) (now : nat) :
  (scrapeConversationContext w p pg now).2 = Some (now, (scrapedNow w p pg now).1)
  /\ pendingAt (scrapeConversationContext w p pg now).2 (now + DEADLINE) = false
  /\ (scrapeWithDeadline (scrapeConversationContext w p pg) now).2
     = Some (now, (scrapedNow w p pg now).1).
Proof.
  assert ((scrapeConversationContext w p pg now).2 = Some (now, (scrapedNow w p pg now).1))
    as Hsettled by (by rewrite scrapeConversationContext_run).
  split; [done|]. split.
  - rewrite Hsettled. simpl. apply Nat.ltb_ge. lia.
  - by rewrite (scrapeWithDeadline_settled _ _ _ Hsettled).
Qed.

(** X2. A click on send leaves no draft to store: a second click right
    after it, with no input in between, has no effect at all. *)
Theorem second_send_click_stores_nothing (w : world) (p : platform) (pg : page)
    (latestDraft : string) (now : nat) :
  (onSendClick w p pg (onSendClick w p pg latestDraft).1).2 now
    = ([], Some (now, Normal tt)).
Proof.
  unfold onSendClick. destruct p; try done;
    destruct (String.eqb (trim latestDraft) "") eqn:Hblank; simpl;
    by rewrite ?Hblank.
Qed.

(** X3. A send click whose store message is answered asks for two
    increments of [conversationCount]: one in [storeMessage], one in the
    click handler itself. *)
Theorem send_click_counts_twice (w : world) (p : platform) (pg : page)
    (latestDraft : string) (now t : nat) (answer : response) :
  p <> web ->
  trim latestDraft <> "" ->
  let req := StoreConversation (StoreData p (getRecipient p pg) (Some (trim latestDraft)) true) in
  portError w now req = None ->
  (onMessage w req now).2 = Some (t, Normal answer) ->
  statUpdates ((onSendClick w p pg latestDraft).2 now).1
    = ["conversationCount"; "conversationCount"].
Proof.
  intros Hplatform Hdraft req Hport Hanswer.
  assert (storeMessage w p (getRecipient p pg) (trim latestDraft) true now
          = (((now, PostMessage req) :: (onMessage w req now).1)
               ++ [(t, StatUpdate "conversationCount")],
             Some (t, Normal tt))) as Hstore.
  { unfold storeMessage. apply tryCatch_normal.
    rewrite (async_bind_normal _ _ now t
               ((now, PostMessage req) :: (onMessage w req now).1) answer); [done|].
    fold req. by rewrite (sendMessage_run _ _ _ Hport), Hanswer. }
  assert (statUpdates (onMessage w req now).1 = []) as Hworker.
  { unfold req, onMessage, respond. simpl.
    unfold handleStoreConversation. rewrite store_guard_blank.
    destruct (blankMessage _); [done|].
    unfold tryCatch, mbind, async_bind, currentTime, fetchCall, await, throw, emit. simpl.
    destruct (fetch w now _ _) as [[t' [resp|e]]|]; simpl;
      [destruct (ok resp); simpl;
       [destruct (bodyJson resp) as [[t'' [j|e]]|]; simpl|]| |];
      reflexivity. }
  assert ((onSendClick w p pg latestDraft).2
          = (_ ← call (storeMessage w p (getRecipient p pg) (trim latestDraft) true);
             emit (StatUpdate "conversationCount"))) as ->.
  { unfold onSendClick.
    destruct (String.eqb (trim latestDraft) "") eqn:Hblank;
      [by apply String.eqb_eq in Hblank|].
    by destruct p. }
  unfold mbind, async_bind, call. rewrite Hstore. cbn [fst snd emit].
  change ((now, PostMessage req) :: (onMessage w req now).1)
    with ([(now, PostMessage req)] ++ (onMessage w req now).1).
  unfold statUpdates in *. rewrite !omap_app, Hworker. reflexivity.
Qed.

Lemma send_click_counts_twice_witness :
  let answering := World None true
                     (fun t _ _ => Some (t + 40,
                                         Normal (HttpResponse true "OK" None
                                                   (Some (t + 41, Normal (StatusReply "success"))))))
                     (fun _ _ => None) (fun _ => "T") in
  let pg := Page (Document (Normal None) (Normal [])) "https://www.linkedin.com/messaging/"
                 None (Some "John Doe") None None None in
  statUpdates ((onSendClick answering linkedin pg " When works? ").2 3).1
    = ["conversationCount"; "conversationCount"].
Proof.
  intros answering pg.
  apply (send_click_counts_twice answering linkedin pg " When works? " 3 44
           (Success (StatusReply "success")));
    [discriminate | vm_compute; discriminate | reflexivity | reflexivity].
Defined.

(** ** What a rewrite shows, case by case *)

(** The [try] block of [handleRewrite] once the request could be posted:
    the scraper's warnings, the request, the worker's effects and steps
    5 to 7, ending as steps 5 to 7 end. *)
Lemma rewrite_body_run (w : world) (p : platform) (pg : page) (userInput : string)
    (now t : nat) (collected : list contextMessage) (answer : response) :
  (scrapedNow w p pg now).1 = Normal collected ->
  let request := RewriteMessage (RewriteData p userInput collected (getRecipient p pg)) in
  portError w now request = None ->
  (onMessage w request now).2 = Some (t, Normal answer) ->
  (conversationContext ← scrapeWithDeadline (scrapeConversationContext w p pg);
   sendAndApply w p pg userInput conversationContext) now
    = (((fun entry => (now, Log entry)) <$> (scrapedNow w p pg now).2)
         ++ ((now, PostMessage request) :: (onMessage w request now).1)
         ++ (applyResponse w p (getRecipient p pg) answer t).1,
       (applyResponse w p (getRecipient p pg) answer t).2).
Proof.
  intros Hcollected request Hport Hanswer.
  assert (scrapeWithDeadline (scrapeConversationContext w p pg) now
          = ((fun entry => (now, Log entry)) <$> (scrapedNow w p pg now).2,
             Some (now, Normal collected))) as Hscrape.
  { rewrite (scrapeWithDeadline_settled _ _ (Normal collected));
      by rewrite scrapeConversationContext_run, ?Hcollected. }
  rewrite (async_bind_normal _ _ _ _ _ _ Hscrape). unfold sendAndApply.
  rewrite (async_bind_normal _ _ now t
             ((now, PostMessage request) :: (onMessage w request now).1) answer); [done|].
  fold request. by rewrite (sendMessage_run _ _ _ Hport), Hanswer.
Qed.

(** The worker's listener never rejects: an error of a handler becomes
    a response. *)
Lemma respond_never_throws (handler : Async reply) (now t : nat) (e : jsError) :
  (respond handler now).2 <> Some (t, Throw e).
Proof.
  unfold respond, tryCatch, mbind, async_bind.
  destruct (handler now) as [ev [[t' [data|e']]|]]; simpl; done.
Qed.

Lemma onMessage_never_throws (w : world) (req : request) (now t : nat) (e : jsError) :
  (onMessage w req now).2 <> Some (t, Throw e).
Proof. destruct req; apply respond_never_throws. Qed.

Lemma only_visible_log (now : nat) (logs : list logEntry) :
  only visible ((fun entry => (now, Log entry)) <$> logs) = [].
Proof. by induction logs. Qed.

(** X4. With a draft in a message input and a working port, what a
    rewrite shows the user is decided by the worker's answer alone:
    nothing while the worker has not answered; the alert "Error: ..."
    for a failure; for a success the rewritten text put into the input
    (twice, as steps 5 and 6 both do it), or the catch-all alert when
    the answer holds no rewritten text.  So the draft is only ever
    replaced by the rewritten text of a successful answer. *)
Theorem rewrite_outcome_by_answer (w : world) (p : platform) (pg : page)
    (input : option inputElement) (userInput : string) (now : nat)
    (collected : list contextMessage) :
  draftOf pg input = Some userInput ->
  (scrapedNow w p pg now).1 = Normal collected ->
  let request := RewriteMessage (RewriteData p userInput collected (getRecipient p pg)) in
  portError w now request = None ->
  only visible (handleRewrite w p pg input now).1
    = match (onMessage w request now).2 with
      | Some (t, Normal (Success data)) =>
          match rewrittenMessage data with
          | Normal rewritten => [(t, SetInputText rewritten); (t, SetInputText rewritten)]
          | Throw e => [(t, Alert (failedToRewrite e))]
          end
      | Some (t, Normal (Failure error)) => [(t, Alert (errorAlert error))]
      | _ => []
      end.
Proof.
  intros Hdraft Hcollected request Hport. subst request.
  set (request := RewriteMessage (RewriteData p userInput collected (getRecipient p pg))).
  pose proof (onMessage_silent w request now) as Hworker.
  destruct (onMessage w request now).2 as [[t [answer|e]]|] eqn:Hanswer.
  - unfold handleRewrite. rewrite (handleRewriteWith_draft _ _ _ _ _ _ Hdraft).
    pose proof (rewrite_body_run w p pg userInput now t collected answer
                  Hcollected Hport Hanswer) as Hbody.
    cbv zeta in Hbody. fold request in Hbody.
    destruct answer as [data|error].
    + destruct (rewrittenMessage data) as [rewritten|e] eqn:Hread.
      * destruct data as [[rewritten'|] used| |]; try done. injection Hread as ->.
        destruct (applyResponse_success w p (getRecipient p pg) rewritten used t)
          as (storing & Happly & Hstoring).
        rewrite Happly in Hbody. rewrite (tryCatch_normal _ _ _ _ _ _ Hbody).
        cbn [fst]. rewrite !only_app, only_visible_log, !only_cons, Hworker, Hstoring.
        reflexivity.
      * assert (applyResponse w p (getRecipient p pg) (Success data) t
                = ([], Some (t, Throw e))) as Happly.
        { unfold applyResponse, mbind, async_bind, lift. by rewrite Hread. }
        rewrite Happly in Hbody. rewrite (tryCatch_throw _ _ _ _ _ _ Hbody).
        cbn [fst]. rewrite !only_app, only_visible_log, !only_cons, Hworker.
        reflexivity.
    + rewrite (tryCatch_normal _ _ now t
                 (((fun entry => (now, Log entry)) <$> (scrapedNow w p pg now).2)
                    ++ ((now, PostMessage request) :: (onMessage w request now).1)
                    ++ [(t, Alert (errorAlert error))]) tt); [|exact Hbody].
      cbn [fst]. rewrite !only_app, only_visible_log, !only_cons, Hworker.
      reflexivity.
  - by destruct (onMessage_never_throws w request now t e).
  - pose proof (handleRewrite_pending w p pg input userInput now collected
                   Hdraft Hcollected Hport Hanswer) as Hrun.
    cbv zeta in Hrun. fold request in Hrun. rewrite Hrun.
    by rewrite only_app, only_visible_log, only_cons, Hworker.
Qed.

(** ** What a rewrite changes *)

Lemma omap_only {B : Type} (f : nat * effect -> option B) (kind : effect -> bool)
    (ev : events) :
  (forall e, kind e.2 = false -> f e = None) ->
  only kind ev = [] -> omap f ev = [].
Proof.
  intros Hkind. induction ev as [|e ev IH]; [done|].
  unfold only in *. simpl. destruct (kind e.2) eqn:He; [done|].
  intros Hev. rewrite (Hkind e He). by apply IH.
Qed.

(** The worker only calls the network and writes to the console. *)
Lemma onMessage_silent_for (kind : effect -> bool) (w : world) (req : request) :
  (forall url body, kind (FetchCall url body) = false) ->
  (forall entry, kind (Log entry) = false) ->
  silent kind (onMessage w req).
Proof.
  intros Hfetch Hlog.
  destruct req as [data|data|data];
    unfold onMessage, respond, handleRewriteMessage, handleStoreConversation, handleChat;
    eauto 20 with silent.
Qed.

Lemma onMessage_changes_nothing (w : world) (req : request) (now : nat) :
  only changes (onMessage w req now).1 = [].
Proof. by apply onMessage_silent_for. Qed.

(** The effects of [storeMessage]: the request is always posted; the
    counter is incremented once the worker has answered, whatever the
    answer; a failing port is reported on the console. *)
Lemma storeMessage_run (w : world) (p : platform) (recipient message : string)
    (isOutgoing : bool) (now : nat) :
  let data := StoreData p recipient (Some message) isOutgoing in
  let req := StoreConversation data in
  storeMessage w p recipient message isOutgoing now
    = match portError w now req with
      | Some e =>
          ([(now, PostMessage req); (now, Log (ConsoleError "Failed to store message:" e))],
           Some (now, Normal tt))
      | None =>
          match (onMessage w req now).2 with
          | Some (t, _) =>
              ((now, PostMessage req) :: (onMessage w req now).1
                 ++ [(t, StatUpdate "conversationCount")],
               Some (t, Normal tt))
          | None => ((now, PostMessage req) :: (onMessage w req now).1, None)
          end
      end.
Proof.
  intros data req. unfold storeMessage, tryCatch, mbind, async_bind, sendMessage, emit.
  fold data. fold req.
  destruct (portError w now req) as [e|]; [done|].
  pose proof (onMessage_never_throws w req now) as Hnever.
  destruct (onMessage w req now) as [ev [[t [answer|e]]|]]; simpl; [done| |done].
  by destruct (Hnever t e).
Qed.

Lemma only_changes_log (now : nat) (logs : list logEntry) :
  only changes ((fun entry => (now, Log entry)) <$> logs) = [].
Proof. by induction logs. Qed.

(** X5. A rewrite changes something only after a successful answer that
    holds a rewritten text: in every other run (no draft, a failing
    port, a worker that fails or never answers, an answer without text)
    the draft is not replaced, no counter is incremented and nothing is
    sent to the conversation store. *)
Theorem rewrite_changes_need_success (w : world) (p : platform) (pg : page)
    (input : option inputElement) (now : nat) :
  only changes (handleRewrite w p pg input now).1 = []
  \/ exists userInput collected t rewritten used,
       draftOf pg input = Some userInput
       /\ (scrapedNow w p pg now).1 = Normal collected
       /\ (onMessage w (RewriteMessage
                          (RewriteData p userInput collected (getRecipient p pg))) now).2
          = Some (t, Normal (Success (RewriteReply (Some rewritten) used))).
Proof.
  destruct (draftOf pg input) as [userInput|] eqn:Hdraft.
  - destruct (scrapedNow_normal w p pg now) as [collected Hcollected].
    set (request := RewriteMessage (RewriteData p userInput collected (getRecipient p pg))).
    pose proof (onMessage_changes_nothing w request now) as Hworker.
    unfold handleRewrite. rewrite (handleRewriteWith_draft _ _ _ _ _ _ Hdraft).
    assert (scrapeWithDeadline (scrapeConversationContext w p pg) now
            = ((fun entry => (now, Log entry)) <$> (scrapedNow w p pg now).2,
               Some (now, Normal collected))) as Hscrape.
    { rewrite (scrapeWithDeadline_settled _ _ (Normal collected));
        by rewrite scrapeConversationContext_run, ?Hcollected. }
    destruct (portError w now request) as [e|] eqn:Hport.
    + left.
      assert ((conversationContext ← scrapeWithDeadline (scrapeConversationContext w p pg);
               sendAndApply w p pg userInput conversationContext) now
              = (((fun entry => (now, Log entry)) <$> (scrapedNow w p pg now).2)
                   ++ [(now, PostMessage request)],
                 Some (now, Throw e))) as Hbody.
      { rewrite (async_bind_normal _ _ _ _ _ _ Hscrape).
        unfold sendAndApply, mbind, async_bind, sendMessage. fold request.
        by rewrite Hport. }
      rewrite (tryCatch_throw _ _ _ _ _ _ Hbody). cbn [fst].
      by rewrite !only_app, only_changes_log.
    + destruct (onMessage w request now).2 as [[t [answer|e]]|] eqn:Hanswer.
      * pose proof (rewrite_body_run w p pg userInput now t collected answer
                      Hcollected Hport Hanswer) as Hbody.
        cbv zeta in Hbody. fold request in Hbody.
        destruct answer as [data|error].
        -- destruct (rewrittenMessage data) as [rewritten|e] eqn:Hread.
           ++ right. destruct data as [[rewritten'|] used| |]; try done.
              exists userInput, collected, t, rewritten', used. done.
           ++ left.
              assert (applyResponse w p (getRecipient p pg) (Success data) t
                      = ([], Some (t, Throw e))) as Happly.
              { unfold applyResponse, mbind, async_bind, lift. by rewrite Hread. }
              rewrite Happly in Hbody. rewrite (tryCatch_throw _ _ _ _ _ _ Hbody).
              cbn [fst]. by rewrite !only_app, only_changes_log, !only_cons, Hworker.
        -- left.
           rewrite (tryCatch_normal _ _ now t
                      (((fun entry => (now, Log entry)) <$> (scrapedNow w p pg now).2)
                         ++ ((now, PostMessage request) :: (onMessage w request now).1)
                         ++ [(t, Alert (errorAlert error))]) tt); [|exact Hbody].
           cbn [fst]. by rewrite !only_app, only_changes_log, !only_cons, Hworker.
      * by destruct (onMessage_never_throws w request now t e).
      * left.
        pose proof (handleRewrite_pending w p pg input userInput now collected
                      Hdraft Hcollected Hport Hanswer) as Hrun.
        cbv zeta in Hrun. fold request in Hrun.
        unfold handleRewrite in Hrun.
        rewrite (handleRewriteWith_draft _ _ _ _ _ _ Hdraft) in Hrun. rewrite Hrun.
        by rewrite only_app, only_changes_log, only_cons, Hworker.
  - left. unfold handleRewrite, handleRewriteWith. unfold draftOf in Hdraft.
    destruct (match input with Some el => Some el | None => activeElement pg end) as [el|];
      [|done].
    destruct (isMessageInput el); simpl; [|done].
    destruct (getInputText el) as [s|]; [|done].
    by destruct (String.eqb (trim s) "").
Qed.

Lemma statUpdates_silent (ev : events) : only changes ev = [] -> statUpdates ev = [].
Proof. apply omap_only. by intros [t []]. Qed.

Lemma storeRequests_silent (ev : events) : only changes ev = [] -> storeRequests ev = [].
Proof. apply omap_only. intros [t []]; try done. by destruct req. Qed.

Lemma storeRequests_app (ev ev' : events) :
  storeRequests (ev ++ ev') = storeRequests ev ++ storeRequests ev'.
Proof. apply omap_app. Qed.

Lemma statUpdates_app (ev ev' : events) :
  statUpdates (ev ++ ev') = statUpdates ev ++ statUpdates ev'.
Proof. apply omap_app. Qed.

Lemma store_requests_of_storeMessage (w : world) (p : platform)
    (recipient message : string) (isOutgoing : bool) (now : nat) :
  storeRequests (storeMessage w p recipient message isOutgoing now).1
    = [StoreData p recipient (Some message) isOutgoing].
Proof.
  rewrite storeMessage_run. cbv zeta.
  set (data := StoreData p recipient (Some message) isOutgoing).
  pose proof (storeRequests_silent _ (onMessage_changes_nothing w (StoreConversation data) now))
    as Hstores.
  assert (forall (ev : events) (e : nat * effect), e :: ev = [e] ++ ev) as Hcons by done.
  destruct (portError w now (StoreConversation data)) as [e|]; [done|].
  destruct (onMessage w (StoreConversation data) now).2 as [[t r]|]; cbn [fst];
    rewrite Hcons, !storeRequests_app, Hstores; done.
Qed.

(** X6. [storeMessage] always posts its request; it asks for one
    increment of [conversationCount] as soon as the worker has answered,
    whatever the answer: also when the backend refused the message and
    when the worker skipped a blank message without any network call.
    When the port fails nothing is counted and the promise still
    fulfils. *)
Theorem store_counter_ignores_outcome (w : world) (p : platform)
    (recipient message : string) (isOutgoing : bool) (now : nat) :
  let data := StoreData p recipient (Some message) isOutgoing in
  storeRequests (storeMessage w p recipient message isOutgoing now).1 = [data]
  /\ statUpdates (storeMessage w p recipient message isOutgoing now).1
     = match portError w now (StoreConversation data),
             (onMessage w (StoreConversation data) now).2 with
       | None, Some _ => ["conversationCount"]
       | _, _ => []
       end
  /\ (portError w now (StoreConversation data) = None ->
      blankMessage (Some message) = true ->
      fetchCalls (storeMessage w p recipient message isOutgoing now).1 = []
      /\ statUpdates (storeMessage w p recipient message isOutgoing now).1
         = ["conversationCount"])
  /\ (forall e, portError w now (StoreConversation data) = Some e ->
        (storeMessage w p recipient message isOutgoing now).2 = Some (now, Normal tt)).
Proof.
  intros data.
  pose proof (storeMessage_run w p recipient message isOutgoing now) as Hrun.
  cbv zeta in Hrun. fold data in Hrun.
  pose proof (onMessage_changes_nothing w (StoreConversation data) now) as Hworker.
  pose proof (statUpdates_silent _ Hworker) as Hstats.
  pose proof (storeRequests_silent _ Hworker) as Hstores.
  assert (forall (ev : events) (e : nat * effect), e :: ev = [e] ++ ev) as Hcons by done.
  split; [|split; [|split]].
  - rewrite Hrun.
    destruct (portError w now (StoreConversation data)) as [e|]; [done|].
    destruct (onMessage w (StoreConversation data) now).2 as [[t r]|]; cbn [fst];
      rewrite Hcons, !storeRequests_app, Hstores; done.
  - rewrite Hrun.
    destruct (portError w now (StoreConversation data)) as [e|]; [done|].
    destruct (onMessage w (StoreConversation data) now).2 as [[t r]|]; cbn [fst];
      rewrite Hcons, !statUpdates_app, Hstats; done.
  - intros Hport Hblank. rewrite Hrun, Hport.
    assert (onMessage w (StoreConversation data) now
            = ([], Some (now, Normal (Success (StatusReply "skipped"))))) as ->; [|done].
    unfold onMessage, respond, handleStoreConversation.
    rewrite store_guard_blank. unfold data. cbn [sd_message]. by rewrite Hblank.
  - intros e Hport. by rewrite Hrun, Hport.
Qed.

(** Steps 5 to 7 on a successful response, effect by effect. *)
Lemma applyResponse_success_run (w : world) (p : platform) (recipient rewritten : string)
    (used : bool) (t : nat) :
  applyResponse w p recipient (Success (RewriteReply (Some rewritten) used)) t
    = ((t, SetInputText rewritten) :: (t, SetInputText rewritten)
         :: (t, StatUpdate "messageCount")
         :: (if autoStoreSetting w
             then (storeMessage w p recipient rewritten true t).1 else []),
       Some (t, Normal tt)).
Proof.
  unfold applyResponse, mbind, async_bind, lift, emit. simpl.
  destruct (autoStoreSetting w); simpl; [|done].
  unfold call, tryCatch.
  pose proof (storeMessage_never_throws w p recipient rewritten true t) as Hnever.
  destruct (storeMessage w p recipient rewritten true t) as [ev [[t' [[]|e]]|]]; simpl;
    rewrite ?app_nil_r; try done.
  by destruct (Hnever t' e).
Qed.

(** What a successful rewrite sends to the conversation store. *)
Lemma handleRewrite_success_stores (w : world) (p : platform) (pg : page)
    (input : option inputElement) (userInput rewritten : string) (used : bool)
    (now t : nat) (collected : list contextMessage) :
  draftOf pg input = Some userInput ->
  (scrapedNow w p pg now).1 = Normal collected ->
  let request := RewriteMessage (RewriteData p userInput collected (getRecipient p pg)) in
  portError w now request = None ->
  (onMessage w request now).2
    = Some (t, Normal (Success (RewriteReply (Some rewritten) used))) ->
  storeRequests (handleRewrite w p pg input now).1
    = (if autoStoreSetting w
       then [StoreData p (getRecipient p pg) (Some rewritten) true] else []).
Proof.
  intros Hdraft Hcollected request Hport Hanswer. subst request.
  set (request := RewriteMessage (RewriteData p userInput collected (getRecipient p pg)))
    in *.
  pose proof (onMessage_changes_nothing w request now) as Hworker.
  pose proof (rewrite_body_run w p pg userInput now t collected _
                Hcollected Hport Hanswer) as Hbody.
  cbv zeta in Hbody. fold request in Hbody.
  rewrite applyResponse_success_run in Hbody. cbn [fst snd] in Hbody.
  unfold handleRewrite. rewrite (handleRewriteWith_draft _ _ _ _ _ _ Hdraft).
  rewrite (tryCatch_normal _ _ _ _ _ _ Hbody). cbn [fst snd].
  rewrite !storeRequests_app.
  rewrite (storeRequests_silent _ (only_changes_log now _)).
  assert (forall (ev : events) (e : nat * effect), e :: ev = [e] ++ ev) as Hcons by done.
  rewrite (Hcons (onMessage w request now).1), storeRequests_app.
  rewrite (storeRequests_silent _ Hworker).
  destruct (autoStoreSetting w); [|done].
  pose proof (store_requests_of_storeMessage w p (getRecipient p pg) rewritten true t)
    as Hstore.
  cbn. exact Hstore.
Qed.

(** X7. After a successful answer holding a rewritten text, the rewrite
    replaces the draft by that text, asks for one increment of
    [messageCount], and, when the [autoStore] setting is on and only
    then, sends the rewritten text (not the draft) to the conversation
    store as an outgoing message for the page's recipient; it then
    completes at the instant of the answer. *)
Theorem successful_rewrite_effects (w : world) (p : platform) (pg : page)
    (input : option inputElement) (userInput rewritten : string) (used : bool)
    (now t : nat) (collected : list contextMessage) :
  draftOf pg input = Some userInput ->
  (scrapedNow w p pg now).1 = Normal collected ->
  let request := RewriteMessage (RewriteData p userInput collected (getRecipient p pg)) in
  portError w now request = None ->
  (onMessage w request now).2
    = Some (t, Normal (Success (RewriteReply (Some rewritten) used))) ->
  only changes (handleRewrite w p pg input now).1
    = (t, SetInputText rewritten) :: (t, SetInputText rewritten)
        :: (t, StatUpdate "messageCount")
        :: (if autoStoreSetting w
            then only changes (storeMessage w p (getRecipient p pg) rewritten true t).1
            else [])
  /\ storeRequests (handleRewrite w p pg input now).1
     = (if autoStoreSetting w
        then [StoreData p (getRecipient p pg) (Some rewritten) true] else [])
  /\ (handleRewrite w p pg input now).2 = Some (t, Normal tt).
Proof.
  intros Hdraft Hcollected request Hport Hanswer. subst request.
  set (request := RewriteMessage (RewriteData p userInput collected (getRecipient p pg)))
    in *.
  pose proof (onMessage_changes_nothing w request now) as Hworker.
  pose proof (rewrite_body_run w p pg userInput now t collected _
                Hcollected Hport Hanswer) as Hbody.
  cbv zeta in Hbody. fold request in Hbody.
  rewrite applyResponse_success_run in Hbody. cbn [fst snd] in Hbody.
  split; [|split].
  - unfold handleRewrite. rewrite (handleRewriteWith_draft _ _ _ _ _ _ Hdraft).
    rewrite (tryCatch_normal _ _ _ _ _ _ Hbody). cbn [fst snd].
    rewrite !only_app, only_changes_log, !only_cons, Hworker. cbn [changes app].
    by destruct (autoStoreSetting w).
  - exact (handleRewrite_success_stores w p pg input userInput rewritten used now t
             collected Hdraft Hcollected Hport Hanswer).
  - unfold handleRewrite. rewrite (handleRewriteWith_draft _ _ _ _ _ _ Hdraft).
    by rewrite (tryCatch_normal _ _ _ _ _ _ Hbody).
Qed.

(** ** The worker and the network *)

(** X8. For each message the worker makes at most one network call and
    never a second one, whatever becomes of the first: one call to
    [/api/rewrite] and to [/api/chat] carrying the request data as they
    are, and one to [/api/store-conversation] unless the message is
    blank; the base address is the [apiUrl] setting, or
    [http://localhost:8000] when the setting is missing or empty. *)
Theorem worker_calls_the_network_once (w : world) (now : nat) :
  (forall data,
     fetchCalls (onMessage w (RewriteMessage data) now).1
       = [(apiBase w +:+ "/api/rewrite", rewriteRequestBody data)])
  /\ (forall data,
        fetchCalls (onMessage w (Chat data) now).1
          = [(apiBase w +:+ "/api/chat", chatRequestBody data)])
  /\ (forall data,
        fetchCalls (onMessage w (StoreConversation data) now).1
          = if blankMessage (sd_message data) then []
            else [(apiBase w +:+ "/api/store-conversation",
                   StoreConversationBody (platformName (sd_platform data))
                     (sd_recipient data) (default "" (sd_message data))
                     (sd_isOutgoing data) (isoTime w now))])
  /\ (apiUrlSetting w = None \/ apiUrlSetting w = Some "" -> apiBase w = API_BASE_URL).
Proof.
  split; [|split; [|split]].
  - intros data. unfold onMessage, respond, handleRewriteMessage, apiBase.
    unfold tryCatch, mbind, async_bind, fetchCall, await, throw, emit. simpl.
    destruct (fetch w now _ _) as [[t [r|e]]|]; simpl; [|done..].
    destruct (ok r); simpl.
    + by destruct (bodyJson r) as [[t' [j|e]]|].
    + by destruct (bodyText r) as [[t' [j|e]]|].
  - intros data. unfold onMessage, respond, handleChat, apiBase, chatRequestBody.
    unfold tryCatch, mbind, async_bind, fetchCall, await, throw, emit. simpl.
    destruct (fetch w now _ _) as [[t [r|e]]|]; simpl; [|done..].
    destruct (ok r); simpl; [|done].
    by destruct (bodyJson r) as [[t' [j|e]]|].
  - intros data. unfold onMessage, respond, handleStoreConversation, apiBase.
    rewrite store_guard_blank. destruct (blankMessage (sd_message data)); [done|].
    unfold tryCatch, mbind, async_bind, currentTime, fetchCall, await, throw, emit. simpl.
    destruct (fetch w now _ _) as [[t [r|e]]|]; simpl; [|done..].
    destruct (ok r); simpl; [|done].
    by destruct (bodyJson r) as [[t' [j|e]]|].
  - unfold apiBase. by intros [-> | ->].
Qed.

Lemma worker_calls_the_network_once_witness :
  let w := World (Some "") false
                 (fun t _ _ => Some (t + 10, Throw (JsError "TypeError" "Failed to fetch")))
                 (fun _ _ => None) (fun _ => "T") in
  fetchCalls (onMessage w (Chat (ChatData "hi" None None "https://example.org"
                                          (Some "summarizer"))) 0).1
    = [("http://localhost:8000/api/chat",
        ChatBody "hi" None None "https://example.org" (Some "summarizer"))].
Proof.
  intros w.
  destruct (worker_calls_the_network_once w 0) as (_ & Hchat & _ & Hbase).
  rewrite Hchat, Hbase; [reflexivity | by right].
Defined.

(** X9. A response that is not [ok] is answered as a failure "API
    request failed: " followed by its status text: at once by the store
    and chat handlers, and by the rewrite handler once it has read the
    body of the response; if reading the body fails the answer is that
    error's message instead, and while the body never arrives the worker
    does not answer. *)
Theorem not_ok_response_answers (w : world) (now t : nat) (r : httpResponse) :
  ok r = false ->
  (forall data,
     fetch w now (apiBase w +:+ "/api/rewrite") (rewriteRequestBody data)
       = Some (t, Normal r) ->
     (onMessage w (RewriteMessage data) now).2
       = match bodyText r with
         | Some (t', Normal _) =>
             Some (Nat.max (Nat.max now t) t',
                   Normal (Failure ("API request failed: " +:+ statusText r)))
         | Some (t', Throw e) =>
             Some (Nat.max (Nat.max now t) t', Normal (Failure (errMessage e)))
         | None => None
         end)
  /\ (forall data,
        fetch w now (apiBase w +:+ "/api/chat") (chatRequestBody data)
          = Some (t, Normal r) ->
        (onMessage w (Chat data) now).2
          = Some (Nat.max now t,
                  Normal (Failure ("API request failed: " +:+ statusText r))))
  /\ (forall data message,
        sd_message data = Some message ->
        blankMessage (Some message) = false ->
        fetch w now (apiBase w +:+ "/api/store-conversation")
              (StoreConversationBody (platformName (sd_platform data)) (sd_recipient data)
                 message (sd_isOutgoing data) (isoTime w now))
          = Some (t, Normal r) ->
        (onMessage w (StoreConversation data) now).2
          = Some (Nat.max now t,
                  Normal (Failure ("API request failed: " +:+ statusText r)))).
Proof.
  intros Hok. split; [|split].
  - intros data Hfetch. unfold onMessage, respond, handleRewriteMessage.
    unfold apiBase in Hfetch.
    unfold tryCatch, mbind, async_bind, fetchCall, await, throw, emit. simpl.
    rewrite Hfetch. simpl. rewrite Hok. simpl.
    by destruct (bodyText r) as [[t' [j|e]]|].
  - intros data Hfetch. unfold onMessage, respond, handleChat.
    unfold apiBase, chatRequestBody in Hfetch.
    unfold tryCatch, mbind, async_bind, fetchCall, await, throw, emit. simpl.
    rewrite Hfetch. simpl. by rewrite Hok.
  - intros data message Hmessage Hblank Hfetch.
    unfold onMessage, respond, handleStoreConversation.
    rewrite store_guard_blank, Hmessage, Hblank. unfold apiBase in Hfetch.
    unfold tryCatch, mbind, async_bind, currentTime, fetchCall, await, throw, emit. simpl.
    rewrite Hfetch. simpl. by rewrite Hok.
Qed.

Lemma not_ok_response_answers_witness :
  let r := HttpResponse false "Internal Server Error"
                        (Some (25, Throw (JsError "TypeError" "body stream already read")))
                        None in
  let w := World (Some "http://10.0.0.2:8000") false (fun t _ _ => Some (t + 20, Normal r))
                 (fun _ _ => None) (fun _ => "T") in
  (onMessage w (RewriteMessage (RewriteData linkedin "hey" [] "John Doe")) 0).2
    = Some (25, Normal (Failure "body stream already read"))
  /\ (onMessage w (Chat (ChatData "hi" None None "u" None)) 0).2
     = Some (20, Normal (Failure "API request failed: Internal Server Error")).
Proof.
  intros r w.
  destruct (not_ok_response_answers w 0 20 r eq_refl) as (Hrewrite & Hchat & _).
  split.
  - apply (Hrewrite (RewriteData linkedin "hey" [] "John Doe")). reflexivity.
  - apply (Hchat (ChatData "hi" None None "u" None)). reflexivity.
Defined.

(** ** The sidebar's panes *)

Lemma paneLogs_silent (ev : events) : only isPaneLog ev = [] -> paneLogs ev = [].
Proof. apply omap_only. by intros [t []]. Qed.

Lemma paneLogs_cons (t : nat) (e : effect) (ev : events) :
  paneLogs ((t, e) :: ev)
    = match e with PaneLog _ role message => [(role, message)] | _ => [] end ++ paneLogs ev.
Proof. by destruct e. Qed.

Lemma paneLogs_app (ev ev' : events) : paneLogs (ev ++ ev') = paneLogs ev ++ paneLogs ev'.
Proof. apply omap_app. Qed.

Lemma sendMessageCallback_run (w : world) (req : request) (now : nat) :
  sendMessageCallback w req now
    = match portError w now req with
      | Some e => ([(now, PostMessage req)], Some (now, Normal None))
      | None =>
          ((now, PostMessage req) :: (onMessage w req now).1,
           match (onMessage w req now).2 with
           | Some (t, Normal r) => Some (t, Normal (Some r))
           | _ => None
           end)
      end.
Proof.
  unfold sendMessageCallback, tryCatch, mbind, async_bind, sendMessage.
  destruct (portError w now req) as [e|]; [done|].
  pose proof (onMessage_never_throws w req now) as Hnever.
  destruct (onMessage w req now) as [ev [[t [r|e]]|]]; simpl; rewrite ?app_nil_r; try done.
  by destruct (Hnever t e).
Qed.

Lemma pane_after_question (w : world) (req : request) (pane question : string) (now : nat)
    (show : option response -> Async unit) :
  (forall r t, paneLogs (show r t).1
               = assistantEntry (match r with None => Some (JsError "" "") | _ => None end)
                                (option_map (fun r => (t, Normal r)) r)) ->
  paneLogs ((_ ← emit (PaneLog pane "You" question);
             response ← sendMessageCallback w req;
             show response) now).1
    = ("You", question)
        :: assistantEntry (portError w now req) (onMessage w req now).2.
Proof.
  intros Hshow. unfold mbind, async_bind, emit. rewrite sendMessageCallback_run.
  pose proof (paneLogs_silent _ (onMessage_silent_for isPaneLog w req
                                   (fun _ _ => eq_refl) (fun _ => eq_refl) now))
    as Hworker.
  destruct (portError w now req) as [e|].
  - specialize (Hshow None now). destruct (show None now) as [ev pr].
    cbn [fst snd app] in *. rewrite !paneLogs_cons, Hshow. done.
  - destruct (onMessage w req now) as [bg [[t [r|e]]|]]; cbn [fst snd app] in *.
    + specialize (Hshow (Some r) t). destruct (show (Some r) t) as [ev pr].
      cbn [fst snd app] in *. rewrite !paneLogs_cons, paneLogs_app, Hshow, Hworker. done.
    + by rewrite !paneLogs_cons, Hworker.
    + by rewrite !paneLogs_cons, Hworker.
Qed.

(** X10. A question typed into the chat or the summarizer pane is
    trimmed; a blank one does nothing at all; otherwise the pane shows
    the question under "You" and then at most one "Assistant" entry:
    the answer, or "Error: " with the worker's failure message, or
    "Error: Unable to chat right now." when the port failed; the entry
    is missing only while the worker has not answered. *)
Theorem pane_shows_question_then_answer (w : world) (p : platform) (pg : page)
    (typed : string) (now : nat) :
  let asked := Chat (ChatData (trim typed) None None (href pg) (Some "summarizer")) in
  let chatted := Chat (ChatData (trim typed) (Some p) (Some (getRecipient p pg))
                                (href pg) None) in
  (trim typed = "" ->
     summarizerSend w pg typed now = ([], Some (now, Normal tt))
     /\ chatSend w p pg typed now = ([], Some (now, Normal tt)))
  /\ (trim typed <> "" ->
      paneLogs (summarizerSend w pg typed now).1
        = ("You", trim typed)
            :: assistantEntry (portError w now asked) (onMessage w asked now).2
      /\ paneLogs (chatSend w p pg typed now).1
         = ("You", trim typed)
             :: assistantEntry (portError w now chatted) (onMessage w chatted now).2).
Proof.
  intros asked chatted. split.
  - intros Hblank. unfold summarizerSend, chatSend. by rewrite Hblank.
  - intros Hasked. unfold summarizerSend, chatSend.
    destruct (String.eqb (trim typed) "") eqn:Heq; [by apply String.eqb_eq in Heq|].
    split; apply pane_after_question; intros [[[]|]|] t; reflexivity.
Qed.

Lemma pane_shows_question_then_answer_witness :
  let w := World None false
                 (fun t _ _ => Some (t + 20,
                                     Normal (HttpResponse true "OK" None
                                               (Some (t + 21, Normal (ChatReply "It is about graphs."))))))
                 (fun _ _ => None) (fun _ => "T") in
  let pg := Page (Document (Normal None) (Normal [])) "https://example.org/paper" None
                 None None None None in
  paneLogs (summarizerSend w pg "  What is it about? " 0).1
    = [("You", "What is it about?"); ("Assistant", "It is about graphs.")]
  /\ summarizerSend w pg "   " 0 = ([], Some (0, Normal tt)).
Proof.
  intros w pg.
  destruct (pane_shows_question_then_answer w web pg "  What is it about? " 0)
    as [_ Hasked].
  destruct (pane_shows_question_then_answer w web pg "   " 0) as [Hblank _].
  split.
  - destruct Hasked as [-> _]; [vm_compute; discriminate | reflexivity].
  - apply Hblank. reflexivity.
Defined.

Lemma rewrite_outcome_by_answer_witness :
  only visible (handleRewrite (rewritingWorld true) linkedin samplePage None 7).1
    = [(308, SetInputText "Thank you!"); (308, SetInputText "Thank you!")].
Proof.
  rewrite (rewrite_outcome_by_answer (rewritingWorld true) linkedin samplePage None
             "thanks!" 7 [ContextMessage "hello" true "T"]); reflexivity.
Defined.

Lemma successful_rewrite_effects_witness :
  storeRequests (handleRewrite (rewritingWorld true) linkedin samplePage None 7).1
    = [StoreData linkedin "John Doe" (Some "Thank you!") true]
  /\ storeRequests (handleRewrite (rewritingWorld false) linkedin samplePage None 7).1 = []
  /\ (handleRewrite (rewritingWorld true) linkedin samplePage None 7).2
     = Some (308, Normal tt).
Proof.
  destruct (successful_rewrite_effects (rewritingWorld true) linkedin samplePage None
              "thanks!" "Thank you!" true 7 308 [ContextMessage "hello" true "T"])
    as (_ & Hstored & Hdone); [reflexivity ..|].
  destruct (successful_rewrite_effects (rewritingWorld false) linkedin samplePage None
              "thanks!" "Thank you!" true 7 308 [ContextMessage "hello" true "T"])
    as (_ & Hnone & _); [reflexivity ..|].
  split; [exact Hstored | split; [exact Hnone | exact Hdone]].
Defined.

Lemma store_counter_ignores_outcome_witness :
  statUpdates (storeMessage (rewritingWorld true) linkedin "John Doe" "   " true 3).1
    = ["conversationCount"]
  /\ fetchCalls (storeMessage (rewritingWorld true) linkedin "John Doe" "   " true 3).1 = []
  /\ statUpdates (storeMessage (rewritingWorld true) linkedin "John Doe" "See you" true 3).1
     = ["conversationCount"].
Proof.
  destruct (store_counter_ignores_outcome (rewritingWorld true) linkedin "John Doe"
              "   " true 3) as (_ & _ & Hblank & _).
  destruct (store_counter_ignores_outcome (rewritingWorld true) linkedin "John Doe"
              "See you" true 3) as (_ & Hrefused & _).
  destruct Hblank as [Hcalls Hcount]; [reflexivity | reflexivity |].
  split; [exact Hcount | split; [exact Hcalls|]].
  rewrite Hrefused. reflexivity.
Defined.

(** ** Counters *)

Lemma updateStats_two_steps (statName : string) (storage : gmap string N) :
  updateStats statName storage = writeStat statName (readStat statName storage) storage.
Proof. reflexivity. Qed.

Lemma readStat_updateStats (statName other : string) (storage : gmap string N) :
  readStat other (updateStats statName storage)
    = (readStat other storage + (if bool_decide (other = statName) then 1 else 0))%N.
Proof.
  unfold readStat, updateStats. case_bool_decide as Hsame.
  - subst. by rewrite lookup_insert_eq.
  - rewrite lookup_insert_ne by done. lia.
Qed.

Lemma readStat_updateStatsInTurn (statNames : list string) (other : string)
    (storage : gmap string N) :
  readStat other (updateStatsInTurn statNames storage)
    = (readStat other storage
       + N.of_nat (length (filter (fun statName => statName = other) statNames)))%N.
Proof.
  unfold updateStatsInTurn. revert storage.
  induction statNames as [|statName rest IH]; intros storage; simpl; [lia|].
  rewrite IH, readStat_updateStats, filter_cons.
  case_bool_decide as Hsame; case_decide as Hsame'; simpl; try lia; congruence.
Qed.

(** X11. Calls of [updateStats] that run one after the other add up:
    each counter grows by the number of calls made for it, whatever the
    order of the calls, and the popup then shows the old numbers plus
    the calls made for [messageCount] and for [conversationCount]. *)
Theorem updateStats_in_turn_add_up (statNames : list string) (storage : gmap string N) :
  (forall statName,
     readStat statName (updateStatsInTurn statNames storage)
       = (readStat statName storage
          + N.of_nat (length (filter (fun called => called = statName) statNames)))%N)
  /\ (forall reordered,
        reordered ≡ₚ statNames ->
        forall statName,
          readStat statName (updateStatsInTurn reordered storage)
            = readStat statName (updateStatsInTurn statNames storage))
  /\ Popup.loadStats (updateStatsInTurn statNames storage)
     = ((Popup.loadStats storage).1
        + N.of_nat (length (filter (fun called => called = "messageCount") statNames)),
        (Popup.loadStats storage).2
        + N.of_nat (length (filter (fun called => called = "conversationCount") statNames)))%N.
Proof.
  split; [|split].
  - intros statName. apply readStat_updateStatsInTurn.
  - intros reordered Hperm statName. rewrite !readStat_updateStatsInTurn.
    by rewrite Hperm.
  - unfold Popup.loadStats.
    change (default 0%N (updateStatsInTurn statNames storage !! "messageCount"))
      with (readStat "messageCount" (updateStatsInTurn statNames storage)).
    change (default 0%N (updateStatsInTurn statNames storage !! "conversationCount"))
      with (readStat "conversationCount" (updateStatsInTurn statNames storage)).
    by rewrite !readStat_updateStatsInTurn.
Qed.

Lemma updateStats_in_turn_add_up_witness :
  Popup.loadStats (updateStatsInTurn ["messageCount"; "conversationCount"; "conversationCount"]
                                     {[ "messageCount" := 4%N ]})
    = (5%N, 2%N)
  /\ readStat "conversationCount"
       (updateStatsInTurn ["conversationCount"; "messageCount"; "conversationCount"] ∅)
     = 2%N.
Proof.
  destruct (updateStats_in_turn_add_up
              ["messageCount"; "conversationCount"; "conversationCount"]
              {[ "messageCount" := 4%N ]}) as (_ & _ & Hpopup).
  destruct (updateStats_in_turn_add_up
              ["messageCount"; "conversationCount"; "conversationCount"] ∅)
    as (Hcount & Horder & _).
  split.
  - rewrite Hpopup. reflexivity.
  - rewrite (Horder ["conversationCount"; "messageCount"; "conversationCount"]).
    + rewrite Hcount. reflexivity.
    + apply perm_swap.
Defined.

(** X12. [updateStats] is not atomic: when two calls for the same
    counter are started together, both read the old value and the
    counter grows by one only, not two; calls for different counters do
    not disturb each other. *)
Theorem overlapping_updateStats_lose_one (first second : string) (storage : gmap string N) :
  (first = second ->
     readStat first (updateStatsOverlapping first second storage)
       = (readStat first storage + 1)%N
     /\ readStat first (updateStatsInTurn [first; second] storage)
        = (readStat first storage + 2)%N)
  /\ (first <> second ->
      updateStatsOverlapping first second storage
        = updateStatsInTurn [first; second] storage).
Proof.
  split.
  - intros <-. split.
    + unfold updateStatsOverlapping, writeStat, readStat at 1.
      by rewrite lookup_insert_eq.
    + rewrite readStat_updateStatsInTurn, !filter_cons_True, filter_nil by done.
      simpl. lia.
  - intros Hne. unfold updateStatsOverlapping, updateStatsInTurn. simpl.
    rewrite !updateStats_two_steps. unfold writeStat, readStat.
    by rewrite lookup_insert_ne.
Qed.

Lemma overlapping_updateStats_lose_one_witness :
  readStat "conversationCount"
    (updateStatsOverlapping "conversationCount" "conversationCount"
                            {[ "conversationCount" := 7%N ]}) = 8%N
  /\ updateStatsOverlapping "messageCount" "conversationCount" ∅
     = updateStatsInTurn ["messageCount"; "conversationCount"] ∅.
Proof.
  destruct (overlapping_updateStats_lose_one "conversationCount" "conversationCount"
              {[ "conversationCount" := 7%N ]}) as [Hsame _].
  destruct (overlapping_updateStats_lose_one "messageCount" "conversationCount" ∅)
    as [_ Hdifferent].
  split.
  - destruct Hsame as [-> _]; reflexivity.
  - apply Hdifferent. discriminate.
Defined.

(** ** The options page *)

Lemma orElse_nonempty (s : string) (fallback : string) :
  s <> "" -> orElse (Some s) fallback = s.
Proof. by destruct s. Qed.

Lemma orElse_is_nonempty (v : option string) (fallback : string) :
  fallback <> "" -> orElse v fallback <> "".
Proof. by destruct v as [[|c rest]|]. Qed.

(** X13. Saving a form and loading it again shows the same form as long
    as its three text fields are not empty; a text field saved empty
    comes back as its default, the check box always comes back as saved,
    and loading then saving what is shown changes nothing that is
    shown. *)
Theorem saved_settings_load_back (shown : Options.form) (settings : Options.syncStorage) :
  (Options.apiUrl shown <> "" -> Options.llmModel shown <> "" ->
   Options.defaultTone shown <> "" ->
   Options.loadSettings (Options.saveSettings shown settings) = shown)
  /\ (Options.apiUrl shown = "" ->
      Options.apiUrl (Options.loadSettings (Options.saveSettings shown settings))
        = "http://localhost:8000")
  /\ Options.autoStore (Options.loadSettings (Options.saveSettings shown settings))
     = Options.autoStore shown
  /\ Options.loadSettings
       (Options.saveSettings (Options.loadSettings settings) settings)
     = Options.loadSettings settings.
Proof.
  assert (forall f s,
            Options.apiUrl f <> "" -> Options.llmModel f <> "" ->
            Options.defaultTone f <> "" ->
            Options.loadSettings (Options.saveSettings f s) = f) as Hback.
  { intros [a m d c] s Ha Hm Hd. cbn in Ha, Hm, Hd.
    by destruct a, m, d. }
  split; [apply Hback|]. split; [|split].
  - intros Hempty. cbn. by rewrite Hempty.
  - reflexivity.
  - apply Hback; cbn; by apply orElse_is_nonempty.
Qed.

Lemma saved_settings_load_back_witness :
  Options.loadSettings
    (Options.saveSettings (Options.Form "http://10.0.0.2:9000" "m" "casual" false)
                          Options.fresh)
    = Options.Form "http://10.0.0.2:9000" "m" "casual" false
  /\ Options.apiUrl
       (Options.loadSettings
          (Options.saveSettings (Options.Form "" "m" "casual" false) Options.fresh))
     = "http://localhost:8000".
Proof.
  destruct (saved_settings_load_back (Options.Form "http://10.0.0.2:9000" "m" "casual" false)
              Options.fresh) as (Hback & _).
  destruct (saved_settings_load_back (Options.Form "" "m" "casual" false) Options.fresh)
    as (_ & Hempty & _).
  split; [apply Hback; discriminate | apply Hempty; reflexivity].
Defined.

(** X14. After Reset the form shows the defaults whatever was stored
    before, a further Reset changes nothing, and the worker then posts
    to [http://localhost:8000] and reports the model of the options
    page. *)
Theorem reset_restores_defaults (settings : Options.syncStorage) (w : world) :
  (Options.resetSettings settings).2 = Options.DEFAULT_SETTINGS
  /\ Options.resetSettings (Options.resetSettings settings).1
     = Options.resetSettings settings
  /\ apiBase (Options.withSettings (Options.resetSettings settings).1 w) = API_BASE_URL
  /\ Options.getSettings (Options.resetSettings settings).1
     = (API_BASE_URL, Options.llmModel Options.DEFAULT_SETTINGS).
Proof. by repeat split. Qed.

Lemma onMessage_default_address (w : world) (req : request) (now : nat) :
  onMessage (Options.withSettings
               (Options.saveSettings (Options.loadSettings Options.fresh) Options.fresh) w)
            req now
    = onMessage (Options.withSettings Options.fresh w) req now.
Proof. reflexivity. Qed.

(** X15. On a fresh installation the options page shows "auto store"
    checked, but the content script reads the missing setting as off: a
    successful rewrite sends nothing to the conversation store.  Once
    the form is saved as shown, the same rewrite sends the rewritten
    text. *)
Theorem autoStore_shown_on_but_read_off (w : world) (p : platform) (pg : page)
    (input : option inputElement) (userInput rewritten : string) (used : bool)
    (now t : nat) (collected : list contextMessage) :
  let unsaved := Options.withSettings Options.fresh w in
  let saved := Options.withSettings
                 (Options.saveSettings (Options.loadSettings Options.fresh) Options.fresh) w in
  draftOf pg input = Some userInput ->
  (scrapedNow w p pg now).1 = Normal collected ->
  let request := RewriteMessage (RewriteData p userInput collected (getRecipient p pg)) in
  portError w now request = None ->
  (onMessage unsaved request now).2
    = Some (t, Normal (Success (RewriteReply (Some rewritten) used))) ->
  Options.autoStore (Options.loadSettings Options.fresh) = true
  /\ storeRequests (handleRewrite unsaved p pg input now).1 = []
  /\ storeRequests (handleRewrite saved p pg input now).1
     = [StoreData p (getRecipient p pg) (Some rewritten) true].
Proof.
  intros unsaved saved Hdraft Hcollected request Hport Hanswer.
  split; [reflexivity|]. split.
  - exact (handleRewrite_success_stores unsaved p pg input userInput rewritten used now t
             collected Hdraft Hcollected Hport Hanswer).
  - assert ((onMessage saved request now).2
            = Some (t, Normal (Success (RewriteReply (Some rewritten) used)))) as Hanswer'.
    { unfold saved. rewrite onMessage_default_address. exact Hanswer. }
    exact (handleRewrite_success_stores saved p pg input userInput rewritten used now t
             collected Hdraft Hcollected Hport Hanswer').
Qed.

Lemma autoStore_shown_on_but_read_off_witness :
  storeRequests
    (handleRewrite (Options.withSettings Options.fresh (rewritingWorld true))
                   linkedin samplePage None 7).1 = []
  /\ storeRequests
       (handleRewrite
          (Options.withSettings
             (Options.saveSettings (Options.loadSettings Options.fresh) Options.fresh)
             (rewritingWorld true))
          linkedin samplePage None 7).1
     = [StoreData linkedin "John Doe" (Some "Thank you!") true].
Proof.
  destruct (autoStore_shown_on_but_read_off (rewritingWorld true) linkedin samplePage None
              "thanks!" "Thank you!" true 7 308 [ContextMessage "hello" true "T"])
    as (_ & Hunsaved & Hsaved); [reflexivity ..|].
  split; [exact Hunsaved | exact Hsaved].
Defined.

(** ** The popup's connection check *)

Lemma abortable_run {A : Type} (delay : nat) (request : nat -> promise A) (now : nat) :
  exists t r, Popup.abortable delay request now = ([], Some (t, r))
              /\ now <= t <= now + delay.
Proof.
  unfold Popup.abortable.
  destruct (request now) as [[t r]|].
  - destruct (Nat.ltb_spec (now + delay) t).
    + eexists _, _. split; [done|lia].
    + eexists _, _. split; [done|lia].
  - eexists _, _. split; [done|lia].
Qed.

(** X16. The popup's connection check always ends, and within 3000 ms:
    it never fails and never stays pending, whatever the health route
    does.  It shows "connected" only for an ok response that arrived by
    the abort instant, and always for one that arrived before it; a
    response that is not ok, a failed request and a late or missing
    answer show "disconnected". *)
Theorem checkConnection_always_settles (apiUrl : option string)
    (health : string -> nat -> promise httpResponse) (now : nat) :
  let answer := health (orElse apiUrl "http://localhost:8000" +:+ "/health") now in
  (exists t shown,
     Popup.checkConnection apiUrl health now = ([], Some (t, Normal shown))
     /\ now <= t <= now + Popup.ABORT_AFTER
     /\ (shown = Popup.connected ->
         exists t' response, answer = Some (t', Normal response)
                             /\ ok response = true /\ t' <= now + Popup.ABORT_AFTER))
  /\ (forall t response,
        answer = Some (t, Normal response) -> t < now + Popup.ABORT_AFTER ->
        Popup.checkConnection apiUrl health now
          = ([], Some (Nat.max now t,
                       Normal (if ok response then Popup.connected
                               else Popup.disconnected))))
  /\ (forall t e,
        answer = Some (t, Throw e) -> t < now + Popup.ABORT_AFTER ->
        Popup.checkConnection apiUrl health now
          = ([], Some (Nat.max now t, Normal Popup.disconnected)))
  /\ ((answer = None \/ exists t r, answer = Some (t, r) /\ now + Popup.ABORT_AFTER < t) ->
      Popup.checkConnection apiUrl health now
        = ([], Some (now + Popup.ABORT_AFTER, Normal Popup.disconnected))).
Proof.
  intros answer. subst answer.
  unfold Popup.checkConnection, Popup.abortable, tryCatch, mbind, async_bind, mret,
    async_ret, throw.
  set (answer := health _ now). generalize Popup.ABORT_AFTER as delay. intros delay.
  split; [|split; [|split]].
  - destruct answer as [[t [response|e]]|].
    + destruct (Nat.ltb_spec (now + delay) t); cbn.
      * eexists _, _. split; [done|]. split; [lia|done].
      * destruct (ok response) eqn:Hok; cbn.
        -- eexists _, _. split; [done|]. split; [lia|]. intros _. by eexists _, _.
        -- eexists _, _. split; [done|]. split; [lia|done].
    + destruct (Nat.ltb_spec (now + delay) t); cbn;
        (eexists _, _; split; [done|]; split; [lia|done]).
    + cbn. eexists _, _. split; [done|]. split; [lia|done].
  - intros t response -> Hearly.
    destruct (Nat.ltb_spec (now + delay) t); [lia|].
    cbn. by destruct (ok response).
  - intros t e -> Hearly.
    destruct (Nat.ltb_spec (now + delay) t); [lia|]. done.
  - intros [->|(t & r & -> & Hlate)]; [done|].
    destruct (Nat.ltb_spec (now + delay) t); [done|lia].
Qed.

Lemma checkConnection_always_settles_witness :
  Popup.checkConnection None
    (fun url t => if String.eqb url "http://localhost:8000/health"
                  then Some (t + 40, Normal (HttpResponse true "OK" None None))
                  else None) 5
    = ([], Some (45, Normal Popup.connected))
  /\ Popup.checkConnection (Some "http://10.0.0.2:9000") (fun _ _ => None) 5
     = ([], Some (3005, Normal Popup.disconnected)).
Proof.
  split.
  - destruct (checkConnection_always_settles None
                (fun url t => if String.eqb url "http://localhost:8000/health"
                              then Some (t + 40, Normal (HttpResponse true "OK" None None))
                              else None) 5) as (_ & Hanswered & _).
    apply (Hanswered 45 (HttpResponse true "OK" None None)); [reflexivity|].
    unfold Popup.ABORT_AFTER. lia.
  - destruct (checkConnection_always_settles (Some "http://10.0.0.2:9000")
                (fun _ _ => None) 5) as (_ & _ & _ & Hmissing).
    apply Hmissing. by left.
Defined.

(** ** What the scrapers return, entry by entry *)

Lemma trimEnd_idempotent (s : string) : trimEnd (trimEnd s) = trimEnd s.
Proof.
  induction s as [|c rest IH]; [done|]. simpl.
  destruct (trimEnd rest) as [|k kept] eqn:Hrest.
  - destruct (isWhiteSpace c) eqn:Hc; simpl; [done|]. by rewrite Hc.
  - change (trimEnd (String c (String k kept)))
      with (match trimEnd (String k kept) with
            | EmptyString => if isWhiteSpace c then EmptyString else String c EmptyString
            | kept' => String c kept'
            end).
    by rewrite IH.
Qed.

Lemma trimStart_head (s : string) :
  match trimStart s with
  | EmptyString => True
  | String c _ => isWhiteSpace c = false
  end.
Proof.
  induction s as [|c rest IH]; [done|]. simpl.
  destruct (isWhiteSpace c) eqn:Hc; [done|]. simpl. exact Hc.
Qed.

Lemma trim_idempotent (s : string) : trim (trim s) = trim s.
Proof.
  unfold trim. pose proof (trimStart_head s) as Hhead.
  destruct (trimStart s) as [|c rest]; [done|].
  assert (trimStart (trimEnd (String c rest)) = trimEnd (String c rest)) as ->.
  { simpl. destruct (trimEnd rest); rewrite ?Hhead; simpl; by rewrite Hhead. }
  apply trimEnd_idempotent.
Qed.

Lemma elementText_trimmed (el : element) (shown : string) :
  elementText el = Normal (Some shown) -> exists raw, shown = trim raw.
Proof.
  unfold elementText, optTrim.
  destruct (innerText el) as [[a|]|e]; simpl; [| |done].
  - destruct (trim a) as [|c rest] eqn:Ha; simpl.
    + destruct (textContent el) as [[b|]|e]; simpl; [|done|done].
      intros [= <-]. by exists b.
    + intros [= <-]. exists a. by rewrite Ha.
  - destruct (textContent el) as [[b|]|e]; simpl; [|done|done].
    intros [= <-]. by exists b.
Qed.

Lemma linkedInMessage_entry (clock : string) (msgEl : messageGroup) (m : contextMessage) :
  linkedInMessage clock msgEl = Normal (Some m) ->
  trimmedText (text m) /\ timestamp m = clock.
Proof.
  unfold linkedInMessage.
  destruct (mg_body msgEl) as [[textEl|]|e]; simpl; [|done|done].
  destruct (elementText textEl) as [[[|c rest]|]|e] eqn:Htext; simpl; try done.
  destruct (mg_outgoing msgEl) as [out|e]; simpl; [|done].
  intros [= <-]. simpl. split; [|done]. split; [done|].
  destruct (elementText_trimmed _ _ Htext) as [raw ->]. apply trim_idempotent.
Qed.

Lemma gmailMessage_entry (clock : string) (emailEl : emailElement) (m : contextMessage) :
  gmailMessage clock emailEl = Normal (Some m) ->
  trimmedText (text m) /\ timestamp m = clock.
Proof.
  unfold gmailMessage.
  destruct (em_body emailEl) as [[bodyEl|]|e]; simpl; [|done|done].
  destruct (elementText bodyEl) as [[[|c rest]|]|e] eqn:Htext; simpl; try done.
  destruct (em_from emailEl) as [fromEl|e]; simpl; [|done].
  destruct (fromMe fromEl) as [out|e]; simpl; [|done].
  intros [= <-]. simpl. split; [|done]. split; [done|].
  destruct (elementText_trimmed _ _ Htext) as [raw ->]. apply trim_idempotent.
Qed.

Lemma collectedBeforeThrow_Forall {E A : Type} (f : E -> completion (option A))
    (P : A -> Prop) (items : list E) :
  (forall item a, f item = Normal (Some a) -> P a) ->
  Forall P (collectedBeforeThrow f items).
Proof.
  intros Hf. induction items as [|item rest IH]; simpl; [constructor|].
  destruct (f item) as [[a|]|e] eqn:Hitem; [|done|constructor].
  constructor; [by eapply Hf | done].
Qed.

(** X17. Every entry of a scraped conversation context carries a text
    that is not empty and has no white space at either end, and the
    time of the scrape (not of the message) as its timestamp; this
    holds on every page, also when the scrape stopped on an error. *)
Theorem scraped_entries_are_trimmed (w : world) (p : platform) (pg : page) (now : nat)
    (collected : list contextMessage) :
  (scrapedNow w p pg now).1 = Normal collected ->
  Forall (fun m => trimmedText (text m) /\ timestamp m = isoTime w now) collected.
Proof.
  destruct p; simpl; unfold scrapeLinkedInContext, scrapeGmailContext;
    rewrite ?catchAndReturn_normal.
  - rewrite linkedInTry_collected. intros [= <-].
    destruct (messageList (dom pg)) as [[[groups|e]|]|e]; try constructor.
    apply collectedBeforeThrow_Forall. apply linkedInMessage_entry.
  - rewrite gmailTry_collected. intros [= <-].
    destruct (emailThread (dom pg)) as [emails|e]; try constructor.
    apply collectedBeforeThrow_Forall. apply gmailMessage_entry.
  - intros [= <-]. constructor.
Qed.

Lemma scraped_entries_are_trimmed_witness :
  Forall (fun m => trimmedText (text m) /\ timestamp m = "T")
         [ContextMessage "hello" true "T"].
Proof.
  apply (scraped_entries_are_trimmed (rewritingWorld true) linkedin
           (Page (Document (Normal (Some (Normal [plainGroup "  hello " true;
                                                   plainGroup "   " false])))
                           (Normal []))
                 "https://www.linkedin.com/messaging/" None None None None None) 7).
  reflexivity.
Defined.

(** ** Profile capture: what the lists hold *)

Lemma pushLoop_invariant {E A : Type} (visit : nat -> E -> list A -> completion (option A))
    (P : list A -> Prop) :
  (forall index item pushed a,
     P pushed -> visit index item pushed = Normal (Some a) -> P (pushed ++ [a])) ->
  forall items index pushed, P pushed -> P (pushLoop visit index items pushed).1.
Proof.
  intros Hvisit. induction items as [|item rest IH]; intros index pushed Hpushed; simpl;
    [done|].
  destruct (visit index item pushed) as [[a|]|e] eqn:Hrun; simpl; [|by apply IH|done].
  apply IH. by eapply Hvisit.
Qed.

Lemma textContentTrim_trimmed (el : element) (shown : string) :
  textContentTrim el = Normal shown -> trim shown = shown.
Proof.
  unfold textContentTrim. destruct (textContent el) as [[s|]|e]; simpl; [|done|done].
  intros [= <-]. apply trim_idempotent.
Qed.

Lemma skillVisit_distinct index item (skills : list string) a :
  NoDup skills /\ Forall trimmedText skills ->
  skillVisit index item skills = Normal (Some a) ->
  NoDup (skills ++ [a]) /\ Forall trimmedText (skills ++ [a]).
Proof.
  intros [Hdistinct Htrimmed]. unfold skillVisit.
  destruct (index <? 10); [|done].
  destruct (textContentTrim item) as [skillText|e] eqn:Hread; simpl; [|done].
  destruct skillText as [|c rest]; [done|].
  case_bool_decide as Hseen; simpl; [done|]. intros [= <-]. split.
  - apply NoDup_app. split; [done|]. split; [|apply NoDup_singleton].
    intros x Hx ->%list_elem_of_singleton. done.
  - apply Forall_app. split; [done|]. constructor; [|constructor].
    split; [done|]. by eapply textContentTrim_trimmed.
Qed.

Lemma scalarStep_tidy query assign data data' :
  (forall v d, tidyLists d -> tidyLists (assign v d)) ->
  tidyLists data -> scalarStep query assign data = Normal data' -> tidyLists data'.
Proof.
  intros Hassign Hdata. unfold scalarStep.
  destruct query as [[el|]|e]; simpl; [|by intros [= <-]|done].
  destruct (textContentTrim el) as [v|e]; simpl; [|done].
  intros [= <-]. by apply Hassign.
Qed.

Lemma listStep_tidy {E A : Type} section (visit : nat -> E -> list A -> completion (option A))
    assign (P : list A -> Prop) data data' :
  P [] ->
  (forall index item pushed a,
     P pushed -> visit index item pushed = Normal (Some a) -> P (pushed ++ [a])) ->
  (forall l d, l <> [] -> P l -> tidyLists d -> tidyLists (assign l d)) ->
  tidyLists data -> listStep section visit assign data = Normal data' -> tidyLists data'.
Proof.
  intros Hnil Hvisit Hassign Hdata. unfold listStep.
  destruct section as [[[items|e]|]|e]; simpl; [|done|by intros [= <-]|done].
  pose proof (pushLoop_invariant visit P Hvisit items 0 [] Hnil) as Hpushed.
  destruct (pushLoop visit 0 items []) as [pushed [[]|e]]; simpl in *; [|by destruct pushed].
  destruct pushed as [|a pushed]; intros [= <-]; [done|].
  by apply Hassign.
Qed.

Lemma profileSteps_tidy (doc : profileDocument) :
  Forall (fun step => forall d d', tidyLists d -> step d = Normal d' -> tidyLists d')
         (profileSteps doc).
Proof.
  unfold profileSteps. repeat apply Forall_cons_2; [..|apply Forall_nil_2];
    intros d d' Hd Hrun.
  - by eapply scalarStep_tidy in Hrun.
  - by eapply scalarStep_tidy in Hrun.
  - by eapply scalarStep_tidy in Hrun.
  - unfold aboutStep in Hrun.
    destruct (pd_about doc) as [[query|]|e]; simpl in Hrun; [|by injection Hrun as <-|done].
    by eapply scalarStep_tidy in Hrun.
  - eapply (listStep_tidy _ _ _ (fun _ => True)) in Hrun; eauto.
    intros l d0 Hl _ (? & ? & ? & ? & ?). unfold tidyLists. simpl.
    repeat split; try done. by intros [= ->].
  - eapply (listStep_tidy _ _ _ (fun _ => True)) in Hrun; eauto.
    intros l d0 Hl _ (? & ? & ? & ? & ?). unfold tidyLists. simpl.
    repeat split; try done. by intros [= ->].
  - eapply (listStep_tidy _ _ _ (fun l => NoDup l /\ Forall trimmedText l)) in Hrun;
      eauto using skillVisit_distinct.
    + split; constructor.
    + intros l d0 Hl [Hdistinct Htrimmed] (? & ? & ? & ? & ?). unfold tidyLists. simpl.
      repeat split; try done. by intros [= ->].
Qed.

(** X18. In every captured profile no list key holds an empty array (an
    empty section leaves the key unset), and the skills are pairwise
    distinct texts, none of them empty and none with white space at
    either end. *)
Theorem captured_profile_lists_are_tidy (p : platform) (doc : profileDocument) :
  exists data, captureProfileData p doc = Normal data /\ tidyLists data.
Proof.
  assert (tidyLists emptyProfile) as Hempty.
  { unfold tidyLists. simpl. repeat split; try done; constructor. }
  destruct p; simpl; [|by eexists|by eexists].
  unfold scrapeLinkedInProfile. rewrite catchAndReturn_normal.
  eexists. split; [done|].
  apply runSteps_invariant; [apply profileSteps_tidy | exact Hempty].
Qed.

Lemma scalarStep_keeps_name query assign (name : option string) data data' :
  (forall v d, pf_name (assign v d) = pf_name d) ->
  pf_name data = name -> scalarStep query assign data = Normal data' ->
  pf_name data' = name.
Proof.
  intros Hassign Hdata. unfold scalarStep.
  destruct query as [[el|]|e]; simpl; [|by intros [= <-]|done].
  destruct (textContentTrim el) as [v|e]; simpl; [|done].
  intros [= <-]. by rewrite Hassign.
Qed.

Lemma listStep_keeps_name {E A : Type} section
    (visit : nat -> E -> list A -> completion (option A)) assign
    (name : option string) data data' :
  (forall l d, pf_name (assign l d) = pf_name d) ->
  pf_name data = name -> listStep section visit assign data = Normal data' ->
  pf_name data' = name.
Proof.
  intros Hassign Hdata. unfold listStep.
  destruct section as [[[items|e]|]|e]; simpl; [|done|by intros [= <-]|done].
  destruct (pushLoop visit 0 items []) as [pushed [[]|e]]; simpl in *; [|by destruct pushed].
  destruct pushed as [|a pushed]; intros [= <-]; [done|]. by rewrite Hassign.
Qed.

Lemma laterSteps_keep_name (doc : profileDocument) (name : option string) :
  Forall (fun step => forall d d', pf_name d = name -> step d = Normal d' -> pf_name d' = name)
         (tail (profileSteps doc)).
Proof.
  unfold profileSteps, tail.
  repeat apply Forall_cons_2; [..|apply Forall_nil_2]; intros d d' Hd Hrun.
  - by eapply scalarStep_keeps_name in Hrun.
  - by eapply scalarStep_keeps_name in Hrun.
  - unfold aboutStep in Hrun.
    destruct (pd_about doc) as [[query|]|e]; simpl in Hrun;
      [|by injection Hrun as <-|done].
    by eapply scalarStep_keeps_name in Hrun.
  - by eapply listStep_keeps_name in Hrun.
  - by eapply listStep_keeps_name in Hrun.
  - by eapply listStep_keeps_name in Hrun.
Qed.

Lemma nameStep_run (doc : profileDocument) :
  match scalarStep (pd_name doc) set_name emptyProfile with
  | Normal data => pf_name data = nameRead doc
  | Throw _ => nameRead doc = None
  end.
Proof.
  unfold scalarStep, nameRead.
  destruct (pd_name doc) as [[nameElement|]|e]; simpl; [|done|done].
  by destruct (textContentTrim nameElement) as [name|e].
Qed.

(** X19. A profile capture never fails and logs at most one error; the
    name it returns is the one read at the start, whatever goes wrong
    in a later section, and a capture that logged nothing has run every
    section. *)
Theorem profile_keeps_the_name_read (doc : profileDocument) :
  exists data logs,
    scrapeLinkedInProfile doc = (Normal data, logs)
    /\ pf_name data = nameRead doc
    /\ length logs <= 1
    /\ (logs = [] <-> (runSteps (profileSteps doc) emptyProfile).2 = Normal tt).
Proof.
  unfold scrapeLinkedInProfile.
  assert (pf_name (runSteps (profileSteps doc) emptyProfile).1 = nameRead doc) as Hname.
  { pose proof (nameStep_run doc) as Hfirst.
    pose proof (laterSteps_keep_name doc (nameRead doc)) as Hlater.
    change (runSteps (profileSteps doc) emptyProfile)
      with (match scalarStep (pd_name doc) set_name emptyProfile with
            | Throw e => (emptyProfile, Throw e)
            | Normal data' => runSteps (tail (profileSteps doc)) data'
            end).
    destruct (scalarStep (pd_name doc) set_name emptyProfile) as [data|e]; [|done].
    by apply runSteps_invariant. }
  destruct (runSteps (profileSteps doc) emptyProfile) as [data [[]|e]]; simpl in *.
  - exists data, []. split; [done|]. split; [done|]. split; [simpl; lia|done].
  - eexists data, [_]. split; [done|]. split; [done|]. split; [simpl; lia|].
    split; intros Hnone; discriminate Hnone.
Qed.

(** ** Sites other than LinkedIn and Gmail *)

Lemma detectPlatform_web (hostname : string) :
  includes "linkedin.com" hostname = false ->
  includes "mail.google.com" hostname = false ->
  detectPlatform hostname = web.
Proof. unfold detectPlatform. by intros -> ->. Qed.

(** X20. On a host whose name contains neither [linkedin.com] nor
    [mail.google.com] the composer works as platform [web]: a rewrite
    posts the draft with an empty conversation context and the
    recipient [unknown], clicks on send buttons are not observed, no
    message input is searched for, and a captured profile carries no
    scraped data. *)
Theorem other_sites_send_no_context (w : world) (hostname : string) (pg : page)
    (input : option inputElement) (userInput : string) (now : nat) :
  includes "linkedin.com" hostname = false ->
  includes "mail.google.com" hostname = false ->
  let p := detectPlatform hostname in
  (draftOf pg input = Some userInput ->
   exists rest,
     (handleRewrite w p pg input now).1
       = (now, PostMessage (RewriteMessage (RewriteData web userInput [] "unknown"))) :: rest)
  /\ (forall latestDraft, onSendClick w p pg latestDraft = (latestDraft, mret tt))
  /\ (forall nodes a, Attach.checkForMessageInputs p nodes a = a)
  /\ (forall doc, captureProfileData p doc = Normal emptyProfile).
Proof.
  intros Hlinkedin Hgmail p. unfold p. rewrite (detectPlatform_web _ Hlinkedin Hgmail).
  split; [|by repeat split].
  intros Hdraft.
  assert ((scrapeWithDeadline (scrapeConversationContext w web pg) now).2
          = Some (now, Normal [])) as Hscraped.
  { by rewrite (scrapeWithDeadline_settled _ _ (Normal []));
      rewrite scrapeConversationContext_run. }
  destruct (handleRewriteWith_events (scrapeConversationContext w web pg) w web pg input
              userInput now now [] Hdraft Hscraped) as [rest Hevents].
  exists rest. unfold handleRewrite. rewrite Hevents.
  by rewrite scrapeConversationContext_run.
Qed.

Lemma other_sites_send_no_context_witness :
  exists rest,
    (handleRewrite (rewritingWorld false) (detectPlatform "news.example.org") samplePage
                   None 7).1
      = (7, PostMessage (RewriteMessage (RewriteData web "thanks!" [] "unknown"))) :: rest.
Proof.
  destruct (other_sites_send_no_context (rewritingWorld false) "news.example.org" samplePage
              None "thanks!" 7) as [Hposted _]; [reflexivity | reflexivity |].
  apply Hposted. reflexivity.
Defined.

(** ** Attaching to message inputs *)

Lemma visitInput_flags (a : Attach.attachment) (input : Attach.node) :
  Attach.flagged (Attach.visitInput a input) = {[Attach.nodeId input]} ∪ Attach.flagged a.
Proof.
  unfold Attach.visitInput. case_bool_decide as Hseen; simpl; [|done].
  apply set_eq. intros id. rewrite elem_of_union, elem_of_singleton.
  split; [by right|]. by intros [->|].
Qed.

Lemma visitInput_flagged (a : Attach.attachment) (input : Attach.node) :
  Attach.nodeId input ∈ Attach.flagged a -> Attach.visitInput a input = a.
Proof. intros Hseen. unfold Attach.visitInput. by rewrite bool_decide_eq_true_2. Qed.

Lemma visitInputs_flags (inputs : list Attach.node) (a : Attach.attachment) :
  Attach.flagged (foldl Attach.visitInput a inputs)
    = list_to_set (Attach.nodeId <$> inputs) ∪ Attach.flagged a.
Proof.
  revert a. induction inputs as [|input rest IH]; intros a; simpl.
  - by rewrite (left_id_L ∅ (∪)).
  - rewrite IH, visitInput_flags.
    by rewrite (assoc_L (∪)), (comm_L (∪) (list_to_set _)).
Qed.

Lemma visitInputs_flagged (inputs : list Attach.node) (a : Attach.attachment) :
  (forall input, input ∈ inputs -> Attach.nodeId input ∈ Attach.flagged a) ->
  foldl Attach.visitInput a inputs = a.
Proof.
  induction inputs as [|input rest IH]; intros Hseen; simpl; [done|].
  rewrite visitInput_flagged by (apply Hseen; left). apply IH.
  intros other Hother. apply Hseen. by right.
Qed.

Lemma visitInput_attachedOnce (a : Attach.attachment) (input : Attach.node) :
  attachedOnce a -> attachedOnce (Attach.visitInput a input).
Proof.
  intros [Hdistinct Hsame]. unfold Attach.visitInput.
  case_bool_decide as Hseen; [done|]. split; simpl.
  - apply NoDup_app. split; [done|]. split; [|apply NoDup_singleton].
    intros id Hid ->%list_elem_of_singleton. apply Hseen. by apply Hsame.
  - intros id. rewrite elem_of_app, list_elem_of_singleton, elem_of_union,
      elem_of_singleton, Hsame. tauto.
Qed.

Lemma checkForMessageInputs_attachedOnce (p : platform) (nodes : list Attach.node)
    (a : Attach.attachment) :
  attachedOnce a -> attachedOnce (Attach.checkForMessageInputs p nodes a).
Proof.
  unfold Attach.checkForMessageInputs. generalize (Attach.findMessageInputs p nodes).
  intros inputs. revert a.
  induction inputs as [|input rest IH]; intros a Ha; simpl; [done|].
  apply IH. by apply visitInput_attachedOnce.
Qed.

Lemma checkForMessageInputs_flags (p : platform) (nodes : list Attach.node)
    (a : Attach.attachment) :
  Attach.flagged (Attach.checkForMessageInputs p nodes a)
    = list_to_set (Attach.nodeId <$> Attach.findMessageInputs p nodes) ∪ Attach.flagged a.
Proof. apply visitInputs_flags. Qed.

Lemma observe_snoc (p : platform) (pages : list (list Attach.node))
    (nodes : list Attach.node) :
  Attach.observeMessageInputs p (pages ++ [nodes])
    = Attach.checkForMessageInputs p nodes (Attach.observeMessageInputs p pages).
Proof. unfold Attach.observeMessageInputs. by rewrite foldl_app. Qed.

(** X21. However often the page changes and the inputs are searched
    again, each node is given the composer's listeners at most once,
    also a node found by both LinkedIn selectors; the nodes with
    listeners are exactly the flagged ones, every input found by some
    check is among them, and a check on an unchanged page changes
    nothing, the kept draft included. *)
Theorem inputs_are_attached_once (p : platform) (pages : list (list Attach.node)) :
  let a := Attach.observeMessageInputs p pages in
  NoDup (Attach.listening a)
  /\ (forall id, id ∈ Attach.listening a <-> id ∈ Attach.flagged a)
  /\ (forall nodes input,
        nodes ∈ pages -> input ∈ Attach.findMessageInputs p nodes ->
        Attach.nodeId input ∈ Attach.listening a)
  /\ (forall nodes,
        last pages = Some nodes -> Attach.checkForMessageInputs p nodes a = a).
Proof.
  intros a. subst a.
  assert (forall pages, attachedOnce (Attach.observeMessageInputs p pages)) as Honce.
  { intros l. induction l as [|nodes l IH] using rev_ind.
    - split; [constructor|]. intros id. cbn.
      split; [by intros ?%elem_of_nil | by intros ?%elem_of_empty].
    - rewrite observe_snoc. by apply checkForMessageInputs_attachedOnce. }
  assert (forall pages nodes input,
            nodes ∈ pages -> input ∈ Attach.findMessageInputs p nodes ->
            Attach.nodeId input ∈ Attach.flagged (Attach.observeMessageInputs p pages))
    as Hfound.
  { intros l. induction l as [|latest l IH] using rev_ind; intros nodes input Hin Hinput.
    - by apply elem_of_nil in Hin.
    - rewrite observe_snoc, checkForMessageInputs_flags.
      apply elem_of_app in Hin as [Hin|Hin%list_elem_of_singleton].
      + apply elem_of_union_r. by eapply IH.
      + subst latest. apply elem_of_union_l, elem_of_list_to_set, list_elem_of_fmap.
        by exists input. }
  destruct (Honce pages) as [Hdistinct Hsame].
  split; [done|]. split; [done|]. split.
  - intros nodes input Hin Hinput. apply Hsame. by eapply Hfound.
  - intros nodes Hlast. apply last_Some in Hlast as [earlier ->].
    unfold Attach.checkForMessageInputs at 1. apply visitInputs_flagged.
    intros input Hinput. apply (Hfound _ nodes); [|done].
    apply elem_of_app. right. by apply list_elem_of_singleton.
Qed.

Lemma inputs_are_attached_once_witness :
  let editor := Attach.Node 4 true true true true false
                            (InputElement true "DIV" (Some "Hi there")) in
  let a := Attach.observeMessageInputs linkedin [[editor]; [editor]] in
  Attach.listening a = [4]
  /\ Attach.checkForMessageInputs linkedin [editor] a = a.
Proof.
  intros editor a.
  destruct (inputs_are_attached_once linkedin [[editor]; [editor]])
    as (_ & _ & _ & Hagain).
  split; [reflexivity|]. apply Hagain. reflexivity.
Defined.
